(** * oled-sh1106: the frame buffer, the rasteriser and the sync protocol

    A shallow embedding of [lib/index.js] (class [Display]) and of
    [lib/constants.js].  Every definition below is a transcription of the
    JavaScript method of the same name; the comments give the source lines.

    Conventions of the embedding.
    - Coordinates, sizes and configuration numbers are mathematical integers
      ([Z]).  The source works on IEEE doubles, which represent integers
      exactly up to 2^53; [Math.round] and [x || 0] are the identity on the
      integers, so they do not appear.  The loop of [drawLine] walks from
      one end point to the other in steps of one, so its sums are rounded as
      the doubles round them ([f64]); the operators [|], [&] and [>>] take
      their operands as 32-bit integers ([wrap32]).  The other sums and
      products are those of the integers, which is what the doubles give
      while the values stay below 2^53.
    - The frame buffer is a Node [Buffer] (a [Uint8Array]): a list of bytes.
      Reading outside it yields [undefined], writing outside it is ignored and
      a stored value is reduced to eight bits.
    - [dirtyBytes] is a JavaScript object used as a two-level dictionary
      (page -> column -> byte): a [gmap Z (gmap Z jsval)].
    - The transport callbacks [sendCommand] and [sendData] are modelled as an
      in-memory recorder: each call is appended to a log. *)

From Stdlib Require Import ZArith Lia Bool Ascii String List.
From stdpp Require Import base numbers option list gmap strings pretty sorting.

Open Scope Z_scope.

(** ** JavaScript values held by the byte variables *)

(** [bufferByte] and [dxxByte] hold a number, [undefined] (a read outside the
    buffer) or [null] (the initial value of [dxxByte]). *)
Inductive jsval : Type :=
  | Null
  | Undefined
  | Num (z : Z).

Global Instance jsval_eq_dec : EqDecision jsval.
Proof. solve_decision. Defined.

(** ToInt32 on the operands of [|] and [&]: [null] and [undefined] become 0.
    All numbers met here are bytes and one-bit masks. *)
Definition to_int32 (v : jsval) : Z :=
  match v with
  | Num z => z
  | Null | Undefined => 0
  end.

(** [v |= m] and [v &= m]. *)
Definition js_or (v : jsval) (m : Z) : jsval := Num (Z.lor (to_int32 v) m).
Definition js_and (v : jsval) (m : Z) : jsval := Num (Z.land (to_int32 v) m).

(** [a !== b] (strict inequality; no number here is NaN). *)
Definition js_strict_neq (a b : jsval) : bool := negb (bool_decide (a = b)).

(** ToUint8: what a [Uint8Array] keeps of a stored value. *)
Definition to_uint8 (v : jsval) : Z := to_int32 v mod 256.

(** [buf[i]] on a [Uint8Array]. *)
Definition buffer_get (buf : list Z) (i : Z) : jsval :=
  if i <? 0 then Undefined
  else match buf !! Z.to_nat i with
       | Some b => Num b
       | None => Undefined
       end.

(** [buf[i] = v] on a [Uint8Array]: ignored outside the array. *)
Definition buffer_set (buf : list Z) (i : Z) (v : jsval) : list Z :=
  if i <? 0 then buf else <[Z.to_nat i := to_uint8 v]> buf.

(** [buf.slice(start, end)] of a Node [Buffer]: negative indices count from
    the end, both ends are clamped to the buffer. *)
Definition clamp_index (len i : Z) : Z :=
  if i <? 0 then Z.max (len + i) 0 else Z.min i len.

Definition buffer_slice (buf : list Z) (start end_ : Z) : list Z :=
  let len := Z.of_nat (length buf) in
  let s := clamp_index len start in
  let e := clamp_index len end_ in
  take (Z.to_nat (e - s)) (drop (Z.to_nat s) buf).

(** The integers [a, a+1, ..., a+n-1] of a counting [for] loop. *)
Definition zrange (a : Z) (n : nat) : list Z :=
  map (fun i => a + Z.of_nat i) (seq 0 n).

(** ** lib/constants.js *)

Module Constants.
Definition SET_COL_ADDR_LB : Z := 0x00.
Definition SET_COL_ADDR_HB : Z := 0x10.
Definition SET_PUMP_VOLTAGE : Z := 0x30.
Definition SET_DISPLAY_START_LINE : Z := 0x40.
Definition SET_CONTRAST : Z := 0x81.
Definition SET_SEGMENT_REMAP : Z := 0xA0.
Definition SET_ENTIRE_DISPLAY_ON_OFF : Z := 0xA4.
Definition SET_DISPLAY_REVERSE : Z := 0xA6.
Definition SET_MULTIPLEX_RATIO : Z := 0xA8.
Definition SET_DCDC_ON_OFF : Z := 0xAD.
Definition DISPLAY_ON_OFF : Z := 0xAE.
Definition SET_PAGE_ADDRESS : Z := 0xB0.
Definition SET_COMMON_OUTPUT_SCAN_DIRECTION : Z := 0xC0.
Definition SET_DISPLAY_OFFSET : Z := 0xD3.
Definition SET_DISPLAY_CLOCK_RATIO : Z := 0xD5.
Definition SET_CHARGE_PERIOD : Z := 0xD9.
Definition SET_COMMON_PAD_CONFIG : Z := 0xDA.
Definition SET_VCOM_LEVEL : Z := 0xDB.
Definition START_READ_MODIFY_WRITE_MODE : Z := 0xE0.
Definition END_READ_MODIFY_WRITE_MODE : Z := 0xEE.
Definition NOP : Z := 0xE3.
End Constants.

(** ** The display object *)

(** [this.Config], as the constructor leaves it: it fills in [lineSpacing]
    and [letterSpacing] (default 1), [multiplexRatio] (default 0x3F) and
    [commonPadConfig] (default 0x12), so these are always present.
    [columnOffset] is optional and gets no default: [None] is a missing
    property ([undefined]).  A coordinate handed to the clip predicate is a
    number or [null] ([None]). *)
Record config : Type := {
  displayColumns : Z;
  displayRows : Z;
  columnOffset : option Z;
  lineSpacing : Z;
  letterSpacing : Z;
  multiplexRatio : Z;
  commonPadConfig : Z;
  clippedMethod : option (option Z -> option Z -> bool)
}.

(** The mutable fields of a [Display] instance. *)
Record display : Type := {
  Config : config;
  buffer : list Z;
  dirtyBytes : gmap Z (gmap Z jsval);
  cursorx : Z;
  cursory : Z
}.

Definition set_buffer (d : display) (b : list Z) : display :=
  {| Config := Config d; buffer := b; dirtyBytes := dirtyBytes d;
     cursorx := cursorx d; cursory := cursory d |}.

Definition set_dirtyBytes (d : display) (m : gmap Z (gmap Z jsval)) : display :=
  {| Config := Config d; buffer := buffer d; dirtyBytes := m;
     cursorx := cursorx d; cursory := cursory d |}.

(** index.js 16-38: the constructor, after the check of the required
    properties.  [Buffer.alloc] zero-fills. *)
Definition construct (cfg : config) : display :=
  {| Config := cfg;
     buffer := replicate (Z.to_nat (displayColumns cfg * displayRows cfg)) 0;
     dirtyBytes := ∅;
     cursorx := 0;
     cursory := 0 |}.

(** index.js 50-52 *)
Definition clearBuffer (d : display) : display :=
  set_buffer d (replicate (length (buffer d)) 0).

(** index.js 56-59 *)
Definition setCursor (x y : Z) (d : display) : display :=
  {| Config := Config d; buffer := buffer d; dirtyBytes := dirtyBytes d;
     cursorx := x; cursory := y |}.

(** index.js 109-111 *)
Definition setClipped (f : option Z -> option Z -> bool) (d : display) : display :=
  let c := Config d in
  {| Config := {| displayColumns := displayColumns c;
                  displayRows := displayRows c;
                  columnOffset := columnOffset c;
                  lineSpacing := lineSpacing c;
                  letterSpacing := letterSpacing c;
                  multiplexRatio := multiplexRatio c;
                  commonPadConfig := commonPadConfig c;
                  clippedMethod := Some f |};
     buffer := buffer d; dirtyBytes := dirtyBytes d;
     cursorx := cursorx d; cursory := cursory d |}.

(** index.js 93-105: an installed predicate replaces the bounds test. *)
Definition clipped (d : display) (x y : option Z) : bool :=
  match clippedMethod (Config d) with
  | Some f => f x y
  | None =>
      if match x with
         | Some x => (x <? 0) || (x >=? displayColumns (Config d))
         | None => false
         end
      then true
      else match y with
           | Some y => (y <? 0) || (y >=? displayRows (Config d))
           | None => false
           end
  end.

(** ** drawPixels (index.js 157-196) *)

(** The third element of a pixel: ['BLACK'], ['WHITE'] or a number. *)
Inductive color : Type :=
  | BLACK
  | WHITE
  | Level (n : Z).

(** [pixel[2] === 'BLACK' || pixel[2] === 0] *)
Definition is_off (c : color) : bool :=
  match c with
  | BLACK => true
  | WHITE => false
  | Level n => n =? 0
  end.

(** [pixel[2] === 'WHITE' || pixel[2] > 0] *)
Definition is_on (c : color) : bool :=
  match c with
  | BLACK => false
  | WHITE => true
  | Level n => n >? 0
  end.

Definition pixel : Type := Z * Z * color.

(** [this.dirtyBytes[page] = this.dirtyBytes[page] || {};
     this.dirtyBytes[page][x] = byte] *)
Definition mark_dirty (page x : Z) (byte : jsval) (m : gmap Z (gmap Z jsval))
  : gmap Z (gmap Z jsval) :=
  <[page := <[x := byte]> (default ∅ (m !! page))]> m.

(** The body of the [forEach] callback (index.js 165-195). *)
Definition drawPixel (d : display) (p : pixel) : display :=
  let '(x, y, c) := p in
  if clipped d (Some x) (Some y) then d
  else
    let bufferPage := y / 8 in
    let pixelByte := Z.shiftl 1 (y - 8 * bufferPage) in
    let bufferOffset := x + displayColumns (Config d) * bufferPage in
    let bufferByte := buffer_get (buffer d) bufferOffset in
    let bufferByte :=
      if is_off c then js_and bufferByte (Z.lnot pixelByte) else bufferByte in
    let bufferByte :=
      if is_on c then js_or bufferByte pixelByte else bufferByte in
    if js_strict_neq (buffer_get (buffer d) bufferOffset) bufferByte then
      {| Config := Config d;
         buffer := buffer_set (buffer d) bufferOffset bufferByte;
         dirtyBytes := mark_dirty bufferPage x bufferByte (dirtyBytes d);
         cursorx := cursorx d;
         cursory := cursory d |}
    else d.

Definition drawPixels (pixels : list pixel) (d : display) : display :=
  fold_left drawPixel pixels d.

(** ** Numbers

    The coordinates are JavaScript numbers, that is IEEE 754 doubles, and
    this file follows them where they are integers.  An integer of magnitude
    up to [2^53] is a double; a larger integer [z] is one only when it is a
    multiple of [2 ^ (Z.log2 |z| - 52)], the gap between neighbouring
    doubles at that magnitude.  [f64 z] is the double that [+] and [-]
    return when their exact result is the integer [z]: [z] itself up to
    [2^53], beyond that the nearest double, the one with the even
    significand when two are equally near.  (The overflow to [Infinity]
    beyond [2^1024] is not represented.) *)
Definition f64 (z : Z) : Z :=
  if Z.abs z <=? 2 ^ 53 then z
  else
    let gap := 2 ^ (Z.log2 (Z.abs z) - 52) in
    let q := z / gap in
    let r := z mod gap in
    if 2 * r <? gap then q * gap
    else if gap <? 2 * r then (q + 1) * gap
    else if Z.even q then q * gap else (q + 1) * gap.

Arguments f64 : simpl never.

(** ** drawLine (index.js 200-231) *)

(** The [while (true)] loop.  [err] is [(dx > dy ? dx : -dy) / 2], a multiple
    of one half: the loop keeps [err2 = 2 * err], so that [e2 > -dx] reads
    [err2 > -(2 * dx)], [e2 < dy] reads [err2 < 2 * dy], and the updates
    [err -= dy], [err += dx] subtract and add twice as much; rounding to a
    double commutes with the doubling.  [x0 += sx], [y0 += sy] and the two
    updates of [err] are rounded as the doubles are.  [None] means that the
    loop did not reach [break] within [fuel] iterations. *)
Fixpoint lineLoop (fuel : nat) (x1 y1 dx dy sx sy : Z) (c : color)
    (x0 y0 err2 : Z) : option (list pixel) :=
  match fuel with
  | O => None
  | S fuel' =>
      if (x0 =? x1) && (y0 =? y1) then Some [(x0, y0, c)]
      else
        let e2 := err2 in
        let err2' :=
          if e2 >? - (2 * dx) then f64 (err2 - 2 * dy) else err2 in
        let x0' := if e2 >? - (2 * dx) then f64 (x0 + sx) else x0 in
        let err2'' :=
          if e2 <? 2 * dy then f64 (err2' + 2 * dx) else err2' in
        let y0' := if e2 <? 2 * dy then f64 (y0 + sy) else y0 in
        match lineLoop fuel' x1 y1 dx dy sx sy c x0' y0' err2'' with
        | Some rest => Some ((x0, y0, c) :: rest)
        | None => None
        end
  end.

(** The pixels pushed to [linePixels] when the loop is run for [fuel]
    iterations at most.  The end points are integers: [x0 || 0] and
    [Math.round] leave them as they are. *)
Definition linePixels (fuel : nat) (x0 y0 x1 y1 : Z) (c : color)
  : option (list pixel) :=
  let dx := Z.abs (f64 (x1 - x0)) in
  let sx := if x0 <? x1 then 1 else -1 in
  let dy := Z.abs (f64 (y1 - y0)) in
  let sy := if y0 <? y1 then 1 else -1 in
  let err2 := if dx >? dy then dx else - dy in
  lineLoop fuel x1 y1 dx dy sx sy c x0 y0 err2.

(** Iterations granted to the loop by [drawLine]: one per pixel of the longer
    axis, which is what the loop takes when it breaks. *)
Definition lineFuel (x0 y0 x1 y1 : Z) : nat :=
  S (Z.to_nat (Z.max (Z.abs (x1 - x0)) (Z.abs (y1 - y0)))).

(** [drawPixels] is called once, when the loop breaks.  A loop that does
    not break (end points beyond [2^53], where [x0 += sx] no longer moves
    [x0]) never gets there: the [None] branch leaves the display as it
    is. *)
Definition drawLine (x0 y0 x1 y1 : Z) (c : color) (d : display) : display :=
  match linePixels (lineFuel x0 y0 x1 y1) x0 y0 x1 y1 c with
  | Some pixels => drawPixels pixels d
  | None => d
  end.

(** ** drawFillRect (index.js 234-244) *)

(** [for (let i = x; i < x + w; i += 1)]: no iteration when [w <= 0]. *)
Definition drawFillRect (x y w h : Z) (c : color) (d : display) : display :=
  fold_left (fun d i => drawLine i y i (y + h - 1) c d)
            (zrange x (Z.to_nat w)) d.

(** ** drawImage (index.js 247-318) *)

(** An image as pngparse delivers it; [img_data] is a [Buffer]. *)
Record image : Type := {
  img_width : Z;
  img_height : Z;
  img_channels : Z;
  img_data : list Z
}.

(** Truthiness of a value read from a [Buffer]. *)
Definition js_truthy (v : jsval) : bool :=
  match v with
  | Num z => negb (z =? 0)
  | Null | Undefined => false
  end.

(** The variables declared before the loops that are read or written inside
    them, with the display object.  [page] is assigned before it is read. *)
Record blit : Type := {
  page : Z;
  dxxByte : jsval;
  bufferOffset : Z;
  target : display
}.

(** [if (dxxByte !== null && dxxByte !== this.buffer[bufferOffset]) { ... }]
    (index.js 278-282 and 310-315). *)
Definition saveByte (dxx : Z) (s : blit) : display :=
  let d := target s in
  if js_strict_neq (dxxByte s) Null
     && js_strict_neq (dxxByte s) (buffer_get (buffer d) (bufferOffset s))
  then {| Config := Config d;
          buffer := buffer_set (buffer d) (bufferOffset s) (dxxByte s);
          dirtyBytes := mark_dirty (page s) dxx (dxxByte s) (dirtyBytes d);
          cursorx := cursorx d;
          cursory := cursory d |}
  else d.

(** One turn of the inner loop, after the clip test of the row
    (index.js 273-307). *)
Definition blitPixel (img : image) (x dxx y dyy : Z) (s : blit) : blit :=
  let dyyPage := dyy / 8 in
  let s :=
    if dyyPage >? page s then
      let d := saveByte dxx s in
      let off := dyyPage * displayColumns (Config d) + dxx in
      {| page := dyyPage; dxxByte := buffer_get (buffer d) off;
         bufferOffset := off; target := d |}
    else s in
  let imageOffset :=
    img_width img * img_channels img * y + img_channels img * x in
  if ((img_channels img =? 2) || (img_channels img =? 4))
     && negb (js_truthy (buffer_get (img_data img)
                           (imageOffset + (img_channels img - 1))))
  then s
  else
    let pixelByte := Z.shiftl 1 (dyy - 8 * dyyPage) in
    let color :=
      if img_channels img <? 3
      then js_truthy (buffer_get (img_data img) imageOffset)
      else js_truthy (buffer_get (img_data img) imageOffset)
           || js_truthy (buffer_get (img_data img) (imageOffset + 1))
           || js_truthy (buffer_get (img_data img) (imageOffset + 2)) in
    {| page := page s;
       dxxByte := if color then js_or (dxxByte s) pixelByte
                  else js_and (dxxByte s) (Z.lnot pixelByte);
       bufferOffset := bufferOffset s;
       target := target s |}.

(** The body of the inner loop (index.js 268-308). *)
Definition blitRow (dy : Z) (img : image) (x dxx : Z) (s : blit) (y : Z) : blit :=
  let dyy := dy + y in
  if clipped (target s) None (Some dyy) then s
  else blitPixel img x dxx y dyy s.

(** One unclipped column (index.js 266-316). *)
Definition blitVisibleColumn (dy : Z) (img : image) (x dxx : Z) (s : blit) : blit :=
  let s0 := {| page := -1; dxxByte := dxxByte s;
               bufferOffset := bufferOffset s; target := target s |} in
  let s1 := fold_left (blitRow dy img x dxx)
                      (zrange 0 (Z.to_nat (img_height img))) s0 in
  {| page := page s1; dxxByte := Null; bufferOffset := bufferOffset s1;
     target := saveByte dxx s1 |}.

(** The body of the outer loop (index.js 261-317). *)
Definition blitColumn (dx dy : Z) (img : image) (s : blit) (x : Z) : blit :=
  let dxx := dx + x in
  if clipped (target s) (Some dxx) None then s
  else blitVisibleColumn dy img x dxx s.

Definition drawImage (dx dy : Z) (img : image) (d : display) : display :=
  target (fold_left (blitColumn dx dy img)
                    (zrange 0 (Z.to_nat (img_width img)))
                    {| page := -1; dxxByte := Null; bufferOffset := 0;
                       target := d |}).

(** ** fontToImageMap (index.js 62-89) *)

(** An oled-js font: [lookup] lists the characters, [fontData] holds
    [colPages * width] bytes for each of them. *)
Record font : Type := {
  font_width : Z;
  font_height : Z;
  lookup : list ascii;
  fontData : list Z
}.

(** The font image map: [width], [height] and one image per character. *)
Record fontIM : Type := {
  fim_width : Z;
  fim_height : Z;
  glyphs : gmap ascii image
}.

(** [Math.ceil(h / 8)] *)
Definition ceil8 (h : Z) : Z := - ((- h) / 8).

Definition colPages (f : font) : Z := ceil8 (font_height f).
Definition charBytes (f : font) : Z := colPages f * font_width f.
(** [%] is the remainder of the truncating division. *)
Definition padBits (f : font) : Z := Z.rem (colPages f * 8) (font_height f).

(** [!p && b >= 8 - padBits]: the rows that [continue] leaves out. *)
Definition skipRow (f : font) (p b : Z) : bool :=
  (p =? 0) && (b >=? 8 - padBits f).

(** The innermost loop (index.js 74-78): one row of the glyph. *)
Definition glyphRow (f : font) (transparent : bool) (cdata : list Z) (p b : Z)
  : list Z :=
  let bitMask := Z.shiftl 1 b in
  flat_map (fun c =>
      let pixelState :=
        if Z.land (to_int32 (buffer_get cdata (c + p * font_width f))) bitMask
           =? 0
        then 0 else 1 in
      pixelState ::
        (if transparent then [if pixelState =? 0 then 0x00 else 0xff] else []))
    (zrange 0 (Z.to_nat (font_width f))).


(** [idata] after the two loops over [p] and [b] (index.js 70-80). *)
Definition glyphData (f : font) (transparent : bool) (cdata : list Z) : list Z :=
  flat_map (fun p =>
      flat_map (fun b =>
          if skipRow f p b then [] else glyphRow f transparent cdata p b)
        (zrange 0 8))
    (zrange 0 (Z.to_nat (colPages f))).

(** The image stored under [font.lookup[li]] (index.js 68-86). *)
Definition glyphImage (f : font) (transparent : bool) (li : Z) : image :=
  let cdata :=
    buffer_slice (fontData f) (li * charBytes f) ((li + 1) * charBytes f) in
  {| img_width := font_width f;
     img_height := font_height f;
     img_channels := if transparent then 2 else 1;
     img_data := glyphData f transparent cdata |}.

(** A later entry of [lookup] overwrites an earlier one for the same
    character. *)
Definition fontToImageMap (f : font) (transparent : bool) : fontIM :=
  {| fim_width := font_width f;
     fim_height := font_height f;
     glyphs :=
       fold_left (fun m '(li, ch) => <[ch := glyphImage f transparent li]> m)
                 (zip (zrange 0 (length (lookup f))) (lookup f)) ∅ |}.

(** ** drawString (index.js 115-154) *)

(** [str.split(' ')]: the empty string gives one empty word. *)
Fixpoint split_spaces (s : string) : list string :=
  match s with
  | EmptyString => [EmptyString]
  | String ch s' =>
      if Ascii.eqb ch " " then EmptyString :: split_spaces s'
      else match split_spaces s' with
           | w :: ws => String ch w :: ws
           | [] => [String ch EmptyString]
           end
  end.

Definition newline : ascii := Ascii.ascii_of_nat 10.

(** [this.cursory += fontIM.height + this.Config.lineSpacing], followed by
    [this.setCursor(0, this.cursory)] where the source calls it. *)
Definition nextLine (fim : fontIM) (d : display) : display :=
  setCursor 0 (cursory d + (fim_height fim + lineSpacing (Config d))) d.

(** The word-wrap test at the head of the loop over the words
    (index.js 120-124).  The state of the loop is [colOffset] and the
    display. *)
Definition wrapWord (wrap : bool) (fim : fontIM) (wi : nat) (word : string)
    (st : Z * display) : Z * display :=
  let '(colOffset, d) := st in
  if wrap && negb (Nat.eqb wi 0) && (colOffset >? 0)
     && (colOffset + fim_width fim * Z.of_nat (String.length word)
         >? displayColumns (Config d))
  then (0, nextLine fim d)
  else (colOffset, d).

(** The body of the loop over the characters (index.js 131-151). *)
Definition drawChar (wrap : bool) (fim : fontIM) (st : Z * display) (ch : ascii)
  : Z * display :=
  let '(colOffset, d) := st in
  if Ascii.eqb ch newline then (0, nextLine fim d)
  else
    match glyphs fim !! ch with
    | Some charImage =>
        let d := drawImage colOffset (cursory d) charImage d in
        let d :=
          if negb (img_channels charImage =? 2)
             && negb (img_channels charImage =? 4)
          then
            let d := drawFillRect colOffset
                       (cursory d + img_height charImage + 1)
                       (img_width charImage) (lineSpacing (Config d))
                       (Level 0) d in
            drawFillRect (colOffset + img_width charImage + 1) (cursory d)
              (letterSpacing (Config d))
              (img_height charImage + lineSpacing (Config d)) (Level 0) d
          else d in
        let colOffset := colOffset + (img_width charImage + letterSpacing (Config d)) in
        if wrap && (colOffset >=? displayColumns (Config d) - fim_width fim)
        then (0, nextLine fim d)
        else (colOffset, setCursor colOffset (cursory d) d)
    | None => (colOffset, d)
    end.

(** The body of the loop over the words (index.js 118-153); [n] is
    [words.length]. *)
Definition drawWord (wrap : bool) (fim : fontIM) (n : nat) (st : Z * display)
    (w : nat * string) : Z * display :=
  let '(wi, word) := w in
  let st := wrapWord wrap fim wi word st in
  let word :=
    if (wi <? n - 1)%nat || (String.length word =? 0)%nat
    then (word ++ " ")%string else word in
  fold_left (drawChar wrap fim) (list_ascii_of_string word) st.

Definition drawString (str : string) (fim : fontIM) (wrap : bool) (d : display)
  : display :=
  let words := split_spaces str in
  snd (fold_left (drawWord wrap fim (length words))
                 (zip (seq 0 (length words)) words)
                 (cursorx d, d)).

(** ** The transport and the two synchronisations *)

(** A call of one of the two transport callbacks, with the bytes passed. *)
Inductive call : Type :=
  | SendCommand (bytes : list Z)
  | SendData (bytes : list Z).

(** An [async] method: it reads and writes the display object and returns,
    with its result, the transport calls it has awaited, in order. *)
Definition io (A : Type) : Type := display -> A * display * list call.

Definition ret {A} (a : A) : io A := fun d => (a, d, []).

Definition bind {A B} (m : io A) (k : A -> io B) : io B :=
  fun d =>
    let '(a, d1, log1) := m d in
    let '(b, d2, log2) := k a d1 in
    (b, d2, log1 ++ log2).

Global Instance io_ret : MRet io := @ret.
Global Instance io_bind : MBind io := fun A B k m => bind m k.

(** [this] *)
Definition this : io display := fun d => (d, d, []).

(** [await this.Config.sendCommand(bytes)] *)
Definition sendCommand (bytes : list Z) : io unit :=
  fun d => (tt, d, [SendCommand bytes]).

(** [await this.Config.sendData(bytes)] *)
Definition sendData (bytes : list Z) : io unit :=
  fun d => (tt, d, [SendData bytes]).

(** [delete this.dirtyBytes[p]] *)
Definition deleteDirty (p : Z) : io unit :=
  fun d => (tt, set_dirtyBytes d (delete p (dirtyBytes d)), []).

(** A [for] loop over [l] that carries a local variable of type [S]. *)
Fixpoint forM {A S} (l : list A) (body : S -> A -> io S) (s : S) : io S :=
  match l with
  | [] => ret s
  | a :: l' => s' ← body s a; forM l' body s'
  end.

(** The display after running [m], and the transport calls of the run. *)
Definition exec {A} (m : io A) (d : display) : display := snd (fst (m d)).
Definition calls {A} (m : io A) (d : display) : list call := snd (m d).

(** ToInt32 of an integer: its low 32 bits, read as a signed number.  The
    operators [|], [&] and [>>] apply it to their operands. *)
Definition wrap32 (z : Z) : Z := (z + 2 ^ 31) mod 2 ^ 32 - 2 ^ 31.

Arguments wrap32 : simpl never.

(** ToInt32 of an optional number: a missing property is [undefined] and a
    sum with [undefined] is NaN; ToInt32 maps both to 0. *)
Definition int32_of (o : option Z) : Z := wrap32 (default 0 o).

(** index.js 322-336.  The loop runs while [y < displayRows / 8], a real
    quotient: [ceil8 displayRows] times. *)
Definition sendBuffer : io unit :=
  d0 ← this;
  let set_page_address := Z.lor Constants.SET_PAGE_ADDRESS 0x00 in
  let set_col_low_bits :=
    Z.lor Constants.SET_COL_ADDR_LB (int32_of (columnOffset (Config d0))) in
  let set_col_high_bits := Z.lor Constants.SET_COL_ADDR_HB 0x00 in
  forM (zrange 0 (Z.to_nat (ceil8 (displayRows (Config d0)))))
    (fun set_page_address y =>
       sendCommand [set_page_address; set_col_low_bits; set_col_high_bits];;
       d ← this;
       let offset := y * displayColumns (Config d) in
       let pageBuffer :=
         buffer_slice (buffer d) offset (offset + displayColumns (Config d)) in
       sendData pageBuffer;;
       ret (set_page_address + 1))
    set_page_address;;
  ret tt.

(** [Object.keys(o)] followed by [.sort()]: the keys are compared as
    strings, so the result does not depend on the enumeration order. *)
Definition key_le (a b : Z) : Prop := String.leb (pretty a) (pretty b) = true.

Global Instance key_le_dec a b : Decision (key_le a b).
Proof. unfold key_le. apply _. Defined.

Definition sortedKeys {V} (m : gmap Z V) : list Z :=
  merge_sort key_le (map_to_list m).*1.

(** [Math.min(...l)] and [Math.max(...l)] for a non-empty [l]. *)
Definition minList (l : list Z) : Z :=
  match l with
  | [] => 0
  | x :: l' => fold_left Z.min l' x
  end.

Definition maxList (l : list Z) : Z :=
  match l with
  | [] => 0
  | x :: l' => fold_left Z.max l' x
  end.

(** The address header and the data of one dirty page (index.js 346-360).
    [minx + columnOffset] is NaN when no offset is configured, and NaN is 0
    under [&]. *)
Definition updatePage (d : display) (p : Z) (columns : list Z) : io unit :=
  let minx := minList columns in
  let maxx := maxList columns in
  let columnAddr := option_map (Z.add minx) (columnOffset (Config d)) in
  let set_page_address := Z.lor Constants.SET_PAGE_ADDRESS (wrap32 p) in
  let set_col_low_bits :=
    Z.lor Constants.SET_COL_ADDR_LB (Z.land (int32_of columnAddr) 0x0F) in
  let set_col_high_bits :=
    Z.lor Constants.SET_COL_ADDR_HB
          (Z.shiftr (Z.land (int32_of columnAddr) 0xF0) 4) in
  sendCommand [set_page_address; set_col_low_bits; set_col_high_bits];;
  d' ← this;
  let offset := p * displayColumns (Config d') + minx in
  let pageBuffer :=
    buffer_slice (buffer d') offset (offset + (maxx - minx) + 1) in
  sendData pageBuffer.

(** The body of the loop over the dirty pages (index.js 344-361).  The page
    is still a key of [dirtyBytes] when its turn comes, since only the pages
    already handled have been deleted. *)
Definition updateBody (_ : unit) (p : Z) : io unit :=
  d ← this;
  let columns := sortedKeys (default ∅ (dirtyBytes d !! p)) in
  (if bool_decide (columns = []) then mret tt
   else updatePage d p columns);;
  deleteDirty p.

(** index.js 339-363 *)
Definition updateDisplay : io unit :=
  d0 ← this;
  let pages := sortedKeys (dirtyBytes d0) in
  if bool_decide (pages = []) then mret tt
  else forM pages updateBody tt.

(** ** The display commands and init (index.js 41-47, 366-397) *)

(** index.js 366-368; [bool] is used for its truthiness. *)
Definition reverseDisplay (b : bool) : io unit :=
  sendCommand [Z.lor Constants.SET_DISPLAY_REVERSE (if b then 0x01 else 0x00)].

(** index.js 370-372 *)
Definition displayContrast (c : Z) : io unit :=
  sendCommand [Constants.SET_CONTRAST; Z.land c 0xFF].

(** index.js 374-376 *)
Definition displayOff : io unit :=
  sendCommand [Constants.DISPLAY_ON_OFF].

(** index.js 378-380 *)
Definition displayOn : io unit :=
  sendCommand [Z.lor Constants.DISPLAY_ON_OFF 0x01].

(** index.js 383-397 *)
Definition getInitSequence (d : display) : list Z :=
  [Z.lor Constants.SET_COL_ADDR_LB 0x00;
   Z.lor Constants.SET_COL_ADDR_HB 0x00;
   Z.lor Constants.SET_SEGMENT_REMAP 0x00;
   Z.lor Constants.SET_DISPLAY_REVERSE 0x00;
   Constants.SET_MULTIPLEX_RATIO; multiplexRatio (Config d);
   Z.lor Constants.SET_ENTIRE_DISPLAY_ON_OFF 0x00;
   Constants.SET_DISPLAY_OFFSET; 0x00;
   Constants.SET_DISPLAY_CLOCK_RATIO; 0xF0;
   Constants.SET_CHARGE_PERIOD; 0x22;
   Constants.SET_COMMON_PAD_CONFIG; commonPadConfig (Config d);
   Constants.SET_VCOM_LEVEL; 0x20].

(** What [init] awaits: the reset callback, which gets no argument and does
    not see the display object, or a transport call. *)
Inductive event : Type :=
  | HardwareReset
  | Transport (c : call).

(** The four steps of [init] that follow the reset (index.js 43-46). *)
Definition initTransport : io unit :=
  displayOff;;
  d ← this;
  sendCommand (getInitSequence d);;
  sendBuffer;;
  displayOn.

(** index.js 41-47 *)
Definition init (d : display) : unit * display * list event :=
  let '(u, d', log) := initTransport d in
  (u, d', HardwareReset :: map Transport log).

(** ** The constructor with its checks (index.js 16-38) *)

(** The object handed to the constructor.  A numeric property is [None]
    when it is missing; for the three callbacks only their presence
    matters. *)
Record settings : Type := {
  s_displayColumns : option Z;
  s_displayRows : option Z;
  s_sendCommand : bool;
  s_sendData : bool;
  s_hardwareReset : bool;
  s_columnOffset : option Z;
  s_lineSpacing : option Z;
  s_letterSpacing : option Z;
  s_multiplexRatio : option Z;
  s_commonPadConfig : option Z;
  s_clippedMethod : option (option Z -> option Z -> bool)
}.

(** The errors thrown: the two of the constructor, with the name of the
    property in the second, and the [RangeError] of [Buffer.alloc] for a
    size that is negative or above the maximal buffer length. *)
Inductive constructorError : Type :=
  | DisplaySettingsRequired
  | MissingRequiredProperty (name : string)
  | BufferSizeOutOfRange.

(** The first property of the list
    [displayColumns, displayRows, sendCommand, sendData, hardwareReset]
    that the object lacks. *)
Definition firstMissing (s : settings) : option string :=
  match s_displayColumns s, s_displayRows s with
  | None, _ => Some "displayColumns"%string
  | Some _, None => Some "displayRows"%string
  | Some _, Some _ =>
      if negb (s_sendCommand s) then Some "sendCommand"%string
      else if negb (s_sendData s) then Some "sendData"%string
      else if negb (s_hardwareReset s) then Some "hardwareReset"%string
      else None
  end.

(** [this.Config] after the defaults have been filled in (index.js 27-31). *)
Definition withDefaults (s : settings) : config :=
  {| displayColumns := default 0 (s_displayColumns s);
     displayRows := default 0 (s_displayRows s);
     columnOffset := s_columnOffset s;
     lineSpacing := default 1 (s_lineSpacing s);
     letterSpacing := default 1 (s_letterSpacing s);
     multiplexRatio := default 0x3F (s_multiplexRatio s);
     commonPadConfig := default 0x12 (s_commonPadConfig s);
     clippedMethod := s_clippedMethod s |}.

(** [new Display(config)].  [kMaxLength] is [buffer.constants.MAX_LENGTH],
    the largest size that [Buffer.alloc] accepts; it belongs to the Node.js
    runtime and differs between its versions and platforms. *)
Definition newDisplay (kMaxLength : Z) (config : option settings)
  : constructorError + display :=
  match config with
  | None => inl DisplaySettingsRequired
  | Some s =>
      match firstMissing s with
      | Some name => inl (MissingRequiredProperty name)
      | None =>
          let cfg := withDefaults s in
          let size := displayColumns cfg * displayRows cfg in
          if (size <? 0) || (kMaxLength <? size)
          then inl BufferSizeOutOfRange
          else inr (clearBuffer (construct cfg))
      end
  end.

(** * Vocabulary of the statements *)

(** What the constructor allocates and a [Uint8Array] keeps: as many bytes
    as [displayColumns * displayRows], each below 256. *)
Definition buffer_ok (d : display) : Prop :=
  Z.of_nat (length (buffer d))
  = displayColumns (Config d) * displayRows (Config d)
  /\ Forall (fun b => 0 <= b < 256) (buffer d).

(** A 16 x 16 display with the column offset of the example. *)
Definition cfg16 : config :=
  {| displayColumns := 16; displayRows := 16; columnOffset := Some 2;
     lineSpacing := 1; letterSpacing := 1; multiplexRatio := 0x3F;
     commonPadConfig := 0x12; clippedMethod := None |}.

(** The pixels that pass the clip test of [drawPixels]. *)
Definition visible (d : display) (p : pixel) : bool :=
  negb (clipped d (Some (fst (fst p))) (Some (snd (fst p)))).

(** Coordinates for which the arithmetic of the line loop is exact: all
    its intermediate values stay below [2^53]. *)
Definition safe (z : Z) : Prop := - 2 ^ 50 <= z <= 2 ^ 50.

(** The line loop in exact integer arithmetic. *)
Fixpoint exactLoop (fuel : nat) (x1 y1 dx dy sx sy : Z) (c : color)
    (x0 y0 err2 : Z) : option (list pixel) :=
  match fuel with
  | O => None
  | S fuel' =>
      if (x0 =? x1) && (y0 =? y1) then Some [(x0, y0, c)]
      else
        let e2 := err2 in
        let err2' := if e2 >? - (2 * dx) then err2 - 2 * dy else err2 in
        let x0' := if e2 >? - (2 * dx) then x0 + sx else x0 in
        let err2'' := if e2 <? 2 * dy then err2' + 2 * dx else err2' in
        let y0' := if e2 <? 2 * dy then y0 + sy else y0 in
        match exactLoop fuel' x1 y1 dx dy sx sy c x0' y0' err2'' with
        | Some rest => Some ((x0, y0, c) :: rest)
        | None => None
        end
  end.

Definition exactPixels (fuel : nat) (x0 y0 x1 y1 : Z) (c : color)
  : option (list pixel) :=
  let dx := Z.abs (x1 - x0) in
  let sx := if x0 <? x1 then 1 else -1 in
  let dy := Z.abs (y1 - y0) in
  let sy := if y0 <? y1 then 1 else -1 in
  let err2 := if dx >? dy then dx else - dy in
  exactLoop fuel x1 y1 dx dy sx sy c x0 y0 err2.

(** The pixels that [drawLine] hands to [drawPixels]. *)
Definition linePoints (x0 y0 x1 y1 : Z) (c : color) : list pixel :=
  default [] (linePixels (lineFuel x0 y0 x1 y1) x0 y0 x1 y1 c).

(** The pixels that [drawFillRect] draws, one vertical line after the
    other. *)
Definition rectPoints (x y w h : Z) (c : color) : list pixel :=
  flat_map (fun i => linePoints i y i (y + h - 1) c) (zrange x (Z.to_nat w)).

(** One column of [drawImage] restricted to the rows [rows], without clip
    test. *)
Definition blitColumnRows (rows : list Z) (dy : Z) (img : image) (x dxx : Z)
    (s : blit) : blit :=
  let s0 := {| page := -1; dxxByte := dxxByte s;
               bufferOffset := bufferOffset s; target := target s |} in
  let s1 := fold_left (fun s y => blitPixel img x dxx y (dy + y) s) rows s0 in
  {| page := page s1; dxxByte := Null; bufferOffset := bufferOffset s1;
     target := saveByte dxx s1 |}.

(** [drawImage] restricted to the columns and rows that pass the clip
    test. *)
Definition visibleRows (d : display) (dy : Z) (img : image) : list Z :=
  List.filter (fun y => negb (clipped d None (Some (dy + y))))
              (zrange 0 (Z.to_nat (img_height img))).

Definition visibleColumns (d : display) (dx : Z) (img : image) : list Z :=
  List.filter (fun x => negb (clipped d (Some (dx + x)) None))
              (zrange 0 (Z.to_nat (img_width img))).

Definition drawImageVisible (dx dy : Z) (img : image) (d : display) : display :=
  target (fold_left
            (fun s x => blitColumnRows (visibleRows d dy img) dy img x (dx + x) s)
            (visibleColumns d dx img)
            {| page := -1; dxxByte := Null; bufferOffset := 0; target := d |}).

(** Every row from [y0] on is clipped, for [drawPixels] and for
    [drawImage]. *)
Definition rows_clipped_from (d : display) (y0 : Z) : Prop :=
  forall y, y0 <= y ->
    clipped d None (Some y) = true
    /\ forall x, clipped d (Some x) (Some y) = true.

(** The state of the loops of [drawString] while the cursor row stays at
    or below [y0]: the frame of [d0] is intact. *)
Definition frame_below (d0 : display) (y0 : Z) (st : Z * display) : Prop :=
  Config (snd st) = Config d0
  /\ buffer (snd st) = buffer d0
  /\ dirtyBytes (snd st) = dirtyBytes d0
  /\ y0 <= cursory (snd st).

(** A coordinate outside [[0, displayColumns) x [0, displayRows)]. *)
Definition outside (d : display) (x y : Z) : Prop :=
  x < 0 \/ displayColumns (Config d) <= x
  \/ y < 0 \/ displayRows (Config d) <= y.

(** A clip predicate that lets everything through. *)
Definition clipNothing (x y : option Z) : bool := false.

(** A font image map with the one glyph ['A'] of a 2 x 7 font. *)
Definition fontA : font :=
  {| font_width := 2; font_height := 7; lookup := ["A"%char];
     fontData := [0x41; 0x3f] |}.

Definition fimA : fontIM :=
  {| fim_width := 2; fim_height := 7;
     glyphs := {[ "A"%char := glyphImage fontA false 0 ]} |}.

(** [drawFillRect] restricted to the pixels that pass the clip test. *)
Definition fillVisible (x y w h : Z) (c : color) (d : display) : display :=
  drawPixels (List.filter (visible d) (rectPoints x y w h c)) d.

(** The character step of [drawString] with each drawing call restricted
    to what passes the clip test: the glyph by [drawImageVisible], the two
    spacing rectangles by [fillVisible].  The cursor moves as in
    [drawChar]. *)
Definition drawCharVisible (wrap : bool) (fim : fontIM) (st : Z * display)
    (ch : ascii) : Z * display :=
  let '(colOffset, d) := st in
  if Ascii.eqb ch newline then (0, nextLine fim d)
  else
    match glyphs fim !! ch with
    | Some charImage =>
        let d := drawImageVisible colOffset (cursory d) charImage d in
        let d :=
          if negb (img_channels charImage =? 2)
             && negb (img_channels charImage =? 4)
          then
            let d := fillVisible colOffset
                       (cursory d + img_height charImage + 1)
                       (img_width charImage) (lineSpacing (Config d))
                       (Level 0) d in
            fillVisible (colOffset + img_width charImage + 1) (cursory d)
              (letterSpacing (Config d))
              (img_height charImage + lineSpacing (Config d)) (Level 0) d
          else d in
        let colOffset := colOffset + (img_width charImage + letterSpacing (Config d)) in
        if wrap && (colOffset >=? displayColumns (Config d) - fim_width fim)
        then (0, nextLine fim d)
        else (colOffset, setCursor colOffset (cursory d) d)
    | None => (colOffset, d)
    end.

(** [drawString] with [drawCharVisible] for its character step. *)
Definition drawStringVisible (str : string) (fim : fontIM) (wrap : bool)
    (d : display) : display :=
  let words := split_spaces str in
  snd (fold_left
         (fun st (w : nat * string) =>
            let '(wi, word) := w in
            let st := wrapWord wrap fim wi word st in
            let word :=
              if (wi <? length words - 1)%nat || (String.length word =? 0)%nat
              then (word ++ " ")%string else word in
            fold_left (drawCharVisible wrap fim)
              (list_ascii_of_string word) st)
         (zip (seq 0 (length words)) words)
         (cursorx d, d)).

(** A clip predicate that clips everything. *)
Definition clipAll (x y : option Z) : bool := true.

(** The image map of [fontA] with an alpha channel. *)
Definition fimAlpha : fontIM := fontToImageMap fontA true.


(** The variables [colOffset] and [this] of [drawString] when its loop
    over the words reaches the word of index [wi]. *)
Definition beforeWord (str : string) (fim : fontIM) (wrap : bool)
    (d : display) (wi : nat) : Z * display :=
  let words := split_spaces str in
  fold_left (drawWord wrap fim (length words))
            (take wi (zip (seq 0 (length words)) words))
            (cursorx d, d).

(** The words of [drawString] that follow the word of index [wi], with
    their indices. *)
Definition wordsAfter (str : string) (wi : nat) : list (nat * string) :=
  let words := split_spaces str in
  drop (S wi) (zip (seq 0 (length words)) words).

(** The characters of the word of index [wi] as the loop over the
    characters gets them: followed by a space unless the word is the last
    one and not empty. *)
Definition wordChars (str : string) (wi : nat) (word : string) : list ascii :=
  list_ascii_of_string
    (if (wi <? length (split_spaces str) - 1)%nat
        || (String.length word =? 0)%nat
     then (word ++ " ")%string else word).

(** The two transport calls of [sendBuffer] for page [y]. *)
Definition pageTransfer (d : display) (y : Z) : list call :=
  [SendCommand [Constants.SET_PAGE_ADDRESS + y;
                Z.lor Constants.SET_COL_ADDR_LB
                      (int32_of (columnOffset (Config d)));
                Constants.SET_COL_ADDR_HB];
   SendData (buffer_slice (buffer d) (y * displayColumns (Config d))
               (y * displayColumns (Config d) + displayColumns (Config d)))].

(** The header that the addressing scheme asks for (and that
    [updateDisplay] sends): the page opcode or-ed with the page index, then
    the low and the high nibble of the column address, page and column
    taken as 32-bit integers. *)
Definition addressHeader (p column : Z) : list Z :=
  [Z.lor Constants.SET_PAGE_ADDRESS (wrap32 p);
   Z.lor Constants.SET_COL_ADDR_LB (Z.land (wrap32 column) 0x0F);
   Z.lor Constants.SET_COL_ADDR_HB
         (Z.shiftr (Z.land (wrap32 column) 0xF0) 4)].

(** A 64 x 48 panel centred in the 132 columns of the controller RAM. *)
Definition cfgNarrow : config :=
  {| displayColumns := 64; displayRows := 48; columnOffset := Some 0x22;
     lineSpacing := 1; letterSpacing := 1; multiplexRatio := 0x2F;
     commonPadConfig := 0x12; clippedMethod := None |}.

(** A 16 x 16 display for which no column offset is configured. *)
Definition cfgNoOffset : config :=
  {| displayColumns := 16; displayRows := 16; columnOffset := None;
     lineSpacing := 1; letterSpacing := 1; multiplexRatio := 0x3F;
     commonPadConfig := 0x12; clippedMethod := None |}.

(** The column that the header of [updateDisplay] carries for the least
    dirty column [minX]: [minX + columnOffset], and 0 when no offset is
    configured (the sum is NaN then). *)
Definition headerColumn (d : display) (minX : Z) : Z :=
  match columnOffset (Config d) with
  | Some off => minX + off
  | None => 0
  end.

(** The transport calls of [updateDisplay] for the dirty page [p]. *)
Definition pageCalls (d : display) (p : Z) : list call :=
  let columns := sortedKeys (default ∅ (dirtyBytes d !! p)) in
  if bool_decide (columns = []) then []
  else
    let minx := minList columns in
    let maxx := maxList columns in
    let columnAddr :=
      int32_of (option_map (Z.add minx) (columnOffset (Config d))) in
    [SendCommand (addressHeader p columnAddr);
     SendData (buffer_slice (buffer d) (p * displayColumns (Config d) + minx)
                 (p * displayColumns (Config d) + minx + (maxx - minx) + 1))].

(** The dirty columns 2, 5 and 9 of page 0: eight bytes are sent, not
    three. *)
Definition dirty259 : display :=
  drawPixels [(2, 0, WHITE); (9, 0, WHITE); (5, 0, WHITE)] (construct cfg16).

(** The states a display object can be in: the constructor, followed by any
    sequence of method calls. *)
Inductive reachable : display -> Prop :=
  | reach_construct cfg : reachable (construct cfg)
  | reach_clearBuffer d : reachable d -> reachable (clearBuffer d)
  | reach_setCursor x y d : reachable d -> reachable (setCursor x y d)
  | reach_setClipped f d : reachable d -> reachable (setClipped f d)
  | reach_drawPixels ps d : reachable d -> reachable (drawPixels ps d)
  | reach_drawLine x0 y0 x1 y1 c d :
      reachable d -> reachable (drawLine x0 y0 x1 y1 c d)
  | reach_drawFillRect x y w h c d :
      reachable d -> reachable (drawFillRect x y w h c d)
  | reach_drawImage dx dy img d :
      reachable d -> reachable (drawImage dx dy img d)
  | reach_drawString str fim wrap d :
      reachable d -> reachable (drawString str fim wrap d)
  | reach_sendBuffer d : reachable d -> reachable (exec sendBuffer d)
  | reach_updateDisplay d : reachable d -> reachable (exec updateDisplay d).

(** Every entry of the dirty map names a column and a page of the display. *)
Definition dirty_ok (d : display) : Prop :=
  forall p cols x,
    dirtyBytes d !! p = Some cols -> is_Some (cols !! x) ->
    0 <= x < displayColumns (Config d)
    /\ 0 <= p /\ 8 * p < displayRows (Config d).

(** The invariant of a display object on which no clip predicate is
    installed. *)
Definition state_ok (d : display) : Prop :=
  clippedMethod (Config d) = None /\ buffer_ok d /\ dirty_ok d.

(** The loop state of [drawImage] inside a column: either no byte has been
    read yet, or [page] is a page of the display. *)
Definition blit_ok (s : blit) : Prop :=
  state_ok (target s)
  /\ ((dxxByte s = Null /\ page s = -1)
      \/ (0 <= page s /\ 8 * page s < displayRows (Config (target s)))).

(** The states reached from the constructor without [setClipped], for a
    configuration without clip predicate. *)
Inductive reachable_default : display -> Prop :=
  | default_construct cfg :
      clippedMethod cfg = None ->
      0 <= displayColumns cfg -> 0 <= displayRows cfg ->
      reachable_default (construct cfg)
  | default_clearBuffer d :
      reachable_default d -> reachable_default (clearBuffer d)
  | default_setCursor x y d :
      reachable_default d -> reachable_default (setCursor x y d)
  | default_drawPixels ps d :
      reachable_default d -> reachable_default (drawPixels ps d)
  | default_drawLine x0 y0 x1 y1 c d :
      reachable_default d -> reachable_default (drawLine x0 y0 x1 y1 c d)
  | default_drawFillRect x y w h c d :
      reachable_default d -> reachable_default (drawFillRect x y w h c d)
  | default_drawImage dx dy img d :
      reachable_default d -> reachable_default (drawImage dx dy img d)
  | default_drawString str fim wrap d :
      reachable_default d -> reachable_default (drawString str fim wrap d)
  | default_sendBuffer d :
      reachable_default d -> reachable_default (exec sendBuffer d)
  | default_updateDisplay d :
      reachable_default d -> reachable_default (exec updateDisplay d).

(** The byte buffers handed to [sendData], in the order of the calls. *)
Definition payloads (l : list call) : list (list Z) :=
  flat_map (fun c => match c with
                     | SendData bytes => [bytes]
                     | SendCommand _ => []
                     end) l.

(** The column [x] of page [p] has an entry in the dirty map. *)
Definition recorded (d : display) (p x : Z) : Prop :=
  is_Some (dirtyBytes d !! p ≫= (fun cols => cols !! x)).

(** From [d] to [d'] the configuration and the size of the buffer are kept,
    no dirty entry is lost, and every byte that differs has a dirty entry
    for its page and column. *)
Definition changes_recorded (d d' : display) : Prop :=
  Config d' = Config d
  /\ length (buffer d') = length (buffer d)
  /\ (forall p x, recorded d p x -> recorded d' p x)
  /\ (forall (off : nat) (b b' : Z),
         buffer d !! off = Some b -> buffer d' !! off = Some b' -> b <> b' ->
         exists p x,
           Z.of_nat off = x + displayColumns (Config d) * p
           /\ recorded d' p x).

(** The loop state of [drawImage] inside the column [dxx], relative to the
    display [d] at the start of the call. *)
Definition blit_tracked (d : display) (dxx : Z) (s : blit) : Prop :=
  changes_recorded d (target s)
  /\ state_ok (target s)
  /\ ((dxxByte s = Null /\ page s = -1)
      \/ (0 <= page s /\ 8 * page s < displayRows (Config (target s))
          /\ bufferOffset s
             = page s * displayColumns (Config (target s)) + dxx)).

(** The state of the pixel [(x, y)] in the frame buffer: bit [y mod 8] of
    the byte at [x + displayColumns * floor(y / 8)]. *)
Definition pixelAt (d : display) (x y : Z) : bool :=
  Z.testbit
    (to_int32 (buffer_get (buffer d)
                 (x + displayColumns (Config d) * (y / 8))))
    (y mod 8).

(** What the pixel [p] of a list handed to [drawPixels] does to the state
    [b] of the pixel [(x, y)]. *)
Definition paint (d : display) (x y : Z) (b : bool) (p : pixel) : bool :=
  if visible d p && (fst (fst p) =? x) && (snd (fst p) =? y)
  then if is_on (snd p) then true else if is_off (snd p) then false else b
  else b.



Global Instance color_eq_dec : EqDecision color.
Proof. solve_decision. Defined.

(** The pixel that [drawImage] takes from position [(x, y)] of the image:
    none when the image has an alpha channel that is zero there, else the
    pixel [(dx + x, dy + y)] with the state on when the colour sample is
    truthy and off otherwise (index.js 289-307). *)
Definition imagePixel (img : image) (dx dy x y : Z) : list pixel :=
  let imageOffset :=
    img_width img * img_channels img * y + img_channels img * x in
  if ((img_channels img =? 2) || (img_channels img =? 4))
     && negb (js_truthy (buffer_get (img_data img)
                           (imageOffset + (img_channels img - 1))))
  then []
  else
    let color :=
      if img_channels img <? 3
      then js_truthy (buffer_get (img_data img) imageOffset)
      else js_truthy (buffer_get (img_data img) imageOffset)
           || js_truthy (buffer_get (img_data img) (imageOffset + 1))
           || js_truthy (buffer_get (img_data img) (imageOffset + 2)) in
    [(dx + x, dy + y, if color then Level 1 else Level 0)].

(** The pixels of an image, column by column and from the top row down. *)
Definition imagePixels (img : image) (dx dy : Z) : list pixel :=
  flat_map (fun x =>
      flat_map (imagePixel img dx dy x) (zrange 0 (Z.to_nat (img_height img))))
    (zrange 0 (Z.to_nat (img_width img))).

(** The loop state [s] of [drawImage] in the column [dxx], before the row
    [dy + ynext], against a display [r] on which the same pixels have been
    drawn one by one: either no byte is being worked on and the buffers are
    equal, or the buffers differ at most by the working byte, which is the
    byte that [r] has at [bufferOffset]. *)
Definition blit_sim (r : display) (dxx dy ynext : Z) (s : blit) : Prop :=
  Config (target s) = Config r
  /\ ((page s = -1 /\ dxxByte s = Null /\ buffer (target s) = buffer r)
      \/ exists b : Z,
           0 <= page s
           /\ 8 * page s < displayRows (Config r)
           /\ 8 * page s <= dy + ynext
           /\ bufferOffset s = page s * displayColumns (Config r) + dxx
           /\ dxxByte s = Num b
           /\ 0 <= b < 256
           /\ buffer r
              = <[Z.to_nat (bufferOffset s) := b]> (buffer (target s))).

(** The string is empty or its last character is a space. *)
Fixpoint endsOpen (s : string) : bool :=
  match s with
  | EmptyString => true
  | String ch s' =>
      match s' with
      | EmptyString => Ascii.eqb ch " "
      | String _ _ => endsOpen s'
      end
  end.

(** The characters of [str], followed by one more space when [str] is empty
    or ends in a space. *)
Definition drawnChars (str : string) : list ascii :=
  list_ascii_of_string
    (str ++ (if endsOpen str then " " else ""))%string.

(** The words as the loop of [drawString] spells them: a space after every
    word but the last, and after the last one when it is empty. *)
Fixpoint spacedWords (ws : list string) : list string :=
  match ws with
  | [] => []
  | w :: ws' =>
      match ws' with
      | [] => [if (String.length w =? 0)%nat then (w ++ " ")%string else w]
      | _ :: _ => (w ++ " ")%string :: spacedWords ws'
      end
  end.

(** The loop state of [drawString] under word wrap: [colOffset] is the
    cursor column, the configuration is [cfg], and the column is 0 or
    lies more than a glyph cell before the right edge. *)
Definition wrap_ok (cfg : config) (fim : fontIM) (st : Z * display) : Prop :=
  fst st = cursorx (snd st)
  /\ Config (snd st) = cfg
  /\ (fst st = 0 \/ fst st < displayColumns cfg - fim_width fim).

(** * Properties *)

(** Case analysis on the first conditional of the goal, and on the first
    strict comparison of two byte values. *)
Ltac case_if :=
  match goal with |- context [if ?b then _ else _] => destruct b end.

Ltac case_neq :=
  match goal with
  | |- context [js_strict_neq ?a ?b] => destruct (js_strict_neq a b)
  end.

(** ** The line loop stops *)

Ltac pow_consts :=
  change (2 ^ 50) with 1125899906842624 in *;
  change (2 ^ 53) with 9007199254740992 in *.

Lemma wrap32_range (z : Z) : - 2 ^ 31 <= wrap32 z < 2 ^ 31.
Proof.
  unfold wrap32.
  pose proof (Z.mod_pos_bound (z + 2 ^ 31) (2 ^ 32) ltac:(lia)).
  change (2 ^ 32) with (2 * 2 ^ 31) in *. lia.
Qed.

Lemma wrap32_small (z : Z) : - 2 ^ 31 <= z < 2 ^ 31 -> wrap32 z = z.
Proof.
  intros Hz. unfold wrap32. change (2 ^ 32) with (2 * 2 ^ 31).
  rewrite Z.mod_small by lia. lia.
Qed.

Lemma wrap32_idem (z : Z) : wrap32 (wrap32 z) = wrap32 z.
Proof. apply wrap32_small, wrap32_range. Qed.

Lemma addressHeader_int32 (p : Z) (column : option Z) :
  addressHeader p (int32_of column) = addressHeader p (default 0 column).
Proof. unfold addressHeader, int32_of. by rewrite wrap32_idem. Qed.

Lemma f64_exact (z : Z) : Z.abs z <= 2 ^ 53 -> f64 z = z.
Proof.
  intros Hz. unfold f64.
  destruct (Z.leb_spec (Z.abs z) (2 ^ 53)); [reflexivity | lia].
Qed.

Section LineLoop.
Variables (x1 y1 dx dy sx sy : Z) (c : color).
Hypothesis Hsx : sx = 1 \/ sx = -1.
Hypothesis Hsy : sy = 1 \/ sy = -1.



(** While the coordinates stay below [2^53] and the error term within
    [2 * (dx + dy) <= 2^53], no operation of the loop is rounded. *)
Lemma lineLoop_exact (f : nat) :
  forall (x0 y0 e : Z),
    0 <= dx -> 0 <= dy -> 2 * (dx + dy) <= 2 ^ 53 ->
    Z.abs x0 + Z.of_nat f <= 2 ^ 53 ->
    Z.abs y0 + Z.of_nat f <= 2 ^ 53 ->
    Z.abs e <= 2 * (dx + dy) ->
    lineLoop f x1 y1 dx dy sx sy c x0 y0 e
    = exactLoop f x1 y1 dx dy sx sy c x0 y0 e.
Proof.
  induction f as [|f IH]; intros x0 y0 e Hdx Hdy Hd Hx Hy He;
    [reflexivity|].
  cbn [lineLoop exactLoop].
  destruct ((x0 =? x1) && (y0 =? y1)); [reflexivity|].
  destruct (e >? - (2 * dx)) eqn:Ha; destruct (e <? 2 * dy) eqn:Hb;
    rewrite ?Z.gtb_ltb in Ha;
    try apply Z.ltb_lt in Ha; try apply Z.ltb_ge in Ha;
    try apply Z.ltb_lt in Hb; try apply Z.ltb_ge in Hb;
    rewrite ?(f64_exact (e - 2 * dy)) by lia;
    rewrite ?(f64_exact (x0 + sx)) by lia;
    rewrite ?(f64_exact (y0 + sy)) by lia;
    rewrite ?(f64_exact (e - 2 * dy + 2 * dx)) by lia;
    rewrite ?(f64_exact (e + 2 * dx)) by lia;
    rewrite IH by lia; reflexivity.
Qed.


End LineLoop.

(** Between end points that are [safe] the loop of [drawLine] computes in
    exact arithmetic. *)
Lemma linePixels_exact (f : nat) (x0 y0 x1 y1 : Z) (c : color) :
  safe x0 -> safe y0 -> safe x1 -> safe y1 ->
  Z.of_nat f <= 2 ^ 52 ->
  linePixels f x0 y0 x1 y1 c = exactPixels f x0 y0 x1 y1 c.
Proof.
  unfold safe, linePixels, exactPixels. intros Hx0 Hy0 Hx1 Hy1 Hf.
  change (2 ^ 52) with 4503599627370496 in *. pow_consts.
  rewrite (f64_exact (x1 - x0)), (f64_exact (y1 - y0)) by (pow_consts; lia).
  apply lineLoop_exact; pow_consts;
    try (destruct (_ <? _); auto; fail); try lia.
  destruct (Z.abs (x1 - x0) >? Z.abs (y1 - y0)); lia.
Qed.

Lemma lineFuel_safe (x0 y0 x1 y1 : Z) :
  safe x0 -> safe y0 -> safe x1 -> safe y1 ->
  Z.of_nat (lineFuel x0 y0 x1 y1) <= 2 ^ 52.
Proof.
  unfold safe, lineFuel. change (2 ^ 52) with 4503599627370496.
  pow_consts. lia.
Qed.







(** ** Bytes and bits *)

Lemma byte_high_bits (v : Z) :
  0 <= v < 256 -> forall i, 8 <= i -> Z.testbit v i = false.
Proof.
  intros Hv i Hi.
  rewrite <- (Z.mod_small v (2 ^ 8)) by (change (2 ^ 8) with 256; lia).
  apply Z.mod_pow2_bits_high. lia.
Qed.

Lemma byte_of_bits (v : Z) :
  (forall i, 8 <= i -> Z.testbit v i = false) -> 0 <= v < 256.
Proof.
  intros H.
  assert (E : v = v mod 2 ^ 8).
  { apply Z.bits_inj'. intros i Hi.
    destruct (Z.lt_ge_cases i 8).
    - rewrite Z.mod_pow2_bits_low; auto.
    - rewrite Z.mod_pow2_bits_high by lia. apply H. lia. }
  rewrite E. change (2 ^ 8) with 256. apply Z.mod_pos_bound. lia.
Qed.

(** The mask [0x01 << (y - 8 * floor(y / 8))] has the single bit [y mod 8]. *)
Lemma pixelByte_bits (y i : Z) :
  0 <= i ->
  Z.testbit (Z.shiftl 1 (y - 8 * (y / 8))) i = (i =? y mod 8).
Proof.
  intros Hi.
  replace (y - 8 * (y / 8)) with (y mod 8) by (rewrite Z.mod_eq; lia).
  assert (0 <= y mod 8 < 8) by (apply Z.mod_pos_bound; lia).
  rewrite Z.shiftl_1_l. rewrite Z.pow2_bits_eqb by lia.
  apply Z.eqb_sym.
Qed.

Lemma set_bit_byte (old y : Z) :
  0 <= old < 256 -> 0 <= Z.lor old (Z.shiftl 1 (y - 8 * (y / 8))) < 256.
Proof.
  intros Hold. apply byte_of_bits. intros i Hi.
  rewrite Z.lor_spec, pixelByte_bits by lia.
  rewrite (byte_high_bits old) by auto.
  assert (0 <= y mod 8 < 8) by (apply Z.mod_pos_bound; lia).
  simpl. apply Z.eqb_neq. lia.
Qed.

Lemma clear_bit_byte (old y : Z) :
  0 <= old < 256 ->
  0 <= Z.land old (Z.lnot (Z.shiftl 1 (y - 8 * (y / 8)))) < 256.
Proof.
  intros Hold. apply byte_of_bits. intros i Hi.
  rewrite Z.land_spec. rewrite (byte_high_bits old) by auto. reflexivity.
Qed.

(** ** The dirty map *)

Lemma mark_dirty_lookup (page x : Z) (b : jsval) (m : gmap Z (gmap Z jsval)) :
  mark_dirty page x b m !! page ≫= (fun cols => cols !! x) = Some b.
Proof.
  unfold mark_dirty. rewrite lookup_insert_eq. simpl.
  apply lookup_insert_eq.
Qed.

Lemma mark_dirty_lookup_other_page (page page' x : Z) (b : jsval)
    (m : gmap Z (gmap Z jsval)) :
  page <> page' -> mark_dirty page x b m !! page' = m !! page'.
Proof. intros H. unfold mark_dirty. by rewrite lookup_insert_ne. Qed.

Lemma mark_dirty_lookup_other_column (page x x' : Z) (b : jsval)
    (m : gmap Z (gmap Z jsval)) :
  x <> x' ->
  mark_dirty page x b m !! page ≫= (fun cols => cols !! x')
  = m !! page ≫= (fun cols => cols !! x').
Proof.
  intros H. unfold mark_dirty. rewrite lookup_insert_eq. simpl.
  rewrite lookup_insert_ne by done.
  destruct (m !! page); simpl; [done | apply lookup_empty].
Qed.

(** ** A well-formed frame buffer *)

Lemma construct_buffer_ok (cfg : config) :
  0 <= displayColumns cfg * displayRows cfg -> buffer_ok (construct cfg).
Proof.
  intros H. split; simpl.
  - rewrite length_replicate. lia.
  - apply Forall_replicate. lia.
Qed.

Lemma buffer_get_in (buf : list Z) (i : Z) :
  0 <= i < Z.of_nat (length buf) ->
  exists b, buf !! Z.to_nat i = Some b /\ buffer_get buf i = Num b.
Proof.
  intros Hi. unfold buffer_get.
  destruct (Z.ltb_spec i 0); [lia|].
  destruct (lookup_lt_is_Some_2 buf (Z.to_nat i)) as [b Hb]; [lia|].
  rewrite Hb. eauto.
Qed.

Lemma buffer_set_in (buf : list Z) (i v : Z) :
  0 <= i -> 0 <= v < 256 ->
  buffer_set buf i (Num v) = <[Z.to_nat i := v]> buf.
Proof.
  intros Hi Hv. unfold buffer_set, to_uint8. simpl.
  destruct (Z.ltb_spec i 0); [lia|].
  rewrite Z.mod_small by lia. reflexivity.
Qed.

(** An unclipped pixel inside the geometry addresses a byte of the buffer. *)
Lemma pixel_offset_in (d : display) (x y : Z) :
  buffer_ok d ->
  0 <= x < displayColumns (Config d) ->
  0 <= y < displayRows (Config d) ->
  0 <= x + displayColumns (Config d) * (y / 8)
     < Z.of_nat (length (buffer d)).
Proof.
  intros [Hlen _] Hx Hy. rewrite Hlen.
  assert (0 <= y / 8) by (apply Z.div_pos; lia).
  assert (y / 8 <= y) by (apply Z.div_le_upper_bound; lia).
  nia.
Qed.

(** ** drawPixels on one unclipped pixel *)

Lemma on_off_exclusive (c : color) : is_on c = true -> is_off c = false.
Proof.
  destruct c as [| |n]; simpl; try congruence.
  intros H. apply Z.gtb_lt in H. apply Z.eqb_neq. lia.
Qed.

Lemma js_strict_neq_num (a b : Z) :
  js_strict_neq (Num a) (Num b) = negb (bool_decide (a = b)).
Proof.
  unfold js_strict_neq. f_equal.
  apply bool_decide_ext. split; [congruence | intros ->; reflexivity].
Qed.

(** What the callback of [drawPixels] does to a byte of the buffer when the
    pixel is not clipped: [new] replaces [old] when they differ. *)
Lemma drawPixel_store (d : display) (x y : Z) (c : color) (old new : Z) :
  clipped d (Some x) (Some y) = false ->
  0 <= x + displayColumns (Config d) * (y / 8) ->
  buffer d !! Z.to_nat (x + displayColumns (Config d) * (y / 8)) = Some old ->
  0 <= new < 256 ->
  (if is_on c
   then js_or (if is_off c
               then js_and (Num old) (Z.lnot (Z.shiftl 1 (y - 8 * (y / 8))))
               else Num old) (Z.shiftl 1 (y - 8 * (y / 8)))
   else if is_off c
        then js_and (Num old) (Z.lnot (Z.shiftl 1 (y - 8 * (y / 8))))
        else Num old) = Num new ->
  drawPixel d (x, y, c) =
    {| Config := Config d;
       buffer := <[Z.to_nat (x + displayColumns (Config d) * (y / 8)) := new]>
                   (buffer d);
       dirtyBytes := if decide (new = old) then dirtyBytes d
                     else mark_dirty (y / 8) x (Num new) (dirtyBytes d);
       cursorx := cursorx d;
       cursory := cursory d |}.
Proof.
  intros Hclip Hoff Hold Hnew Hbyte.
  unfold drawPixel. rewrite Hclip.
  assert (Hget : buffer_get (buffer d)
                   (x + displayColumns (Config d) * (y / 8)) = Num old).
  { unfold buffer_get. destruct (Z.ltb_spec (x + displayColumns (Config d) * (y / 8)) 0);
      [lia|]. by rewrite Hold. }
  rewrite Hget.
  replace (if is_on c
           then js_or (if is_off c
                       then js_and (Num old) (Z.lnot (Z.shiftl 1 (y - 8 * (y / 8))))
                       else Num old) (Z.shiftl 1 (y - 8 * (y / 8)))
           else if is_off c
                then js_and (Num old) (Z.lnot (Z.shiftl 1 (y - 8 * (y / 8))))
                else Num old) with (Num new).
  rewrite js_strict_neq_num.
  destruct (decide (new = old)) as [->|Hne].
  - rewrite bool_decide_eq_true_2 by done. simpl.
    rewrite list_insert_id by done. by destruct d.
  - rewrite bool_decide_eq_false_2 by congruence. simpl.
    rewrite buffer_set_in by lia. reflexivity.
Qed.

(** C2 as stated fails for a pixel inside the geometry that an installed
    clip predicate rejects: [drawPixels] returns before it reads the buffer.
    On a 16 x 16 display whose predicate clips everything, setting the pixel
    (3, 10) leaves bit 2 of byte 19 clear and records nothing. *)
Lemma clip_predicate_hides_pixel :
  let d := setClipped clipAll (construct cfg16) in
  (0 <= 3 < displayColumns (Config d) /\ 0 <= 10 < displayRows (Config d))
  /\ Z.to_nat (3 + displayColumns (Config d) * (10 / 8)) = 19%nat
  /\ buffer d !! 19%nat = Some 0
  /\ buffer (drawPixels [(3, 10, WHITE)] d) !! 19%nat = Some 0
  /\ Z.testbit 0 (10 mod 8) = false
  /\ dirtyBytes (drawPixels [(3, 10, WHITE)] d) = ∅
  /\ drawPixels [(3, 10, WHITE)] d = d.
Proof. simpl. repeat split; lia. Qed.

(** C2, amended.  Setting a pixel inside the geometry that passes the clip
    test (no clip predicate is installed, or the predicate returns false for
    it) with state On sets exactly bit [y mod 8] of the byte at offset
    [x + displayColumns * floor(y / 8)], and state Off clears exactly that
    bit: the other bits of the byte and the other bytes of the buffer keep
    their value, and the entry [(page, x) -> new byte] is recorded in the
    dirty map if and only if the new byte differs from the stored one. *)
Theorem drawPixels_writes_one_bit (d : display) (x y : Z) (c : color) :
  buffer_ok d ->
  0 <= x < displayColumns (Config d) ->
  0 <= y < displayRows (Config d) ->
  clipped d (Some x) (Some y) = false ->
  is_on c = true \/ is_off c = true ->
  let bufferPage := y / 8 in
  let offset := Z.to_nat (x + displayColumns (Config d) * bufferPage) in
  let d' := drawPixels [(x, y, c)] d in
  exists old new : Z,
    buffer d !! offset = Some old
    /\ (forall i, 0 <= i ->
          Z.testbit new i = if i =? y mod 8 then is_on c else Z.testbit old i)
    /\ buffer d' = <[offset := new]> (buffer d)
    /\ dirtyBytes d' =
         (if decide (new = old) then dirtyBytes d
          else mark_dirty bufferPage x (Num new) (dirtyBytes d))
    /\ (new <> old ->
        dirtyBytes d' !! bufferPage ≫= (fun cols => cols !! x) = Some (Num new))
    /\ cursorx d' = cursorx d /\ cursory d' = cursory d
    /\ buffer_ok d'.
Proof.
  intros Hok Hx Hy Hclip Hc bufferPage offset d'.
  pose proof (pixel_offset_in d x y Hok Hx Hy) as Hoff.
  destruct (buffer_get_in (buffer d) _ Hoff) as (old & Hold & _).
  assert (Hbyte : 0 <= old < 256).
  { destruct Hok as [_ Hall]. rewrite Forall_lookup in Hall. eauto. }
  set (m := Z.shiftl 1 (y - 8 * (y / 8))).
  set (new := if is_on c then Z.lor old m else Z.land old (Z.lnot m)).
  assert (Hnew : 0 <= new < 256).
  { unfold new, m. destruct (is_on c);
      [apply set_bit_byte | apply clear_bit_byte]; exact Hbyte. }
  assert (Hd' : d' = {| Config := Config d;
                        buffer := <[offset := new]> (buffer d);
                        dirtyBytes := if decide (new = old) then dirtyBytes d
                                      else mark_dirty bufferPage x (Num new)
                                             (dirtyBytes d);
                        cursorx := cursorx d; cursory := cursory d |}).
  { unfold d', drawPixels. simpl fold_left.
    apply drawPixel_store; try assumption; [lia|].
    unfold new. fold m. destruct Hc as [Hon|Hoff'].
    - rewrite Hon, (on_off_exclusive c Hon). reflexivity.
    - rewrite Hoff'. destruct (is_on c) eqn:Hon; [|reflexivity].
      rewrite (on_off_exclusive c Hon) in Hoff'. discriminate. }
  exists old, new. rewrite Hd'. simpl.
  split; [exact Hold|]. split; [|split; [reflexivity|split; [reflexivity|]]].
  - intros i Hi. unfold new, m.
    destruct (is_on c).
    + rewrite Z.lor_spec, pixelByte_bits by lia.
      destruct (i =? y mod 8); [apply orb_true_r | apply orb_false_r].
    + rewrite Z.land_spec, Z.lnot_spec, pixelByte_bits by lia.
      destruct (i =? y mod 8); [apply andb_false_r | apply andb_true_r].
  - split; [|split; [reflexivity|split; [reflexivity|]]].
    + intros Hne. destruct (decide (new = old)); [done|].
      apply mark_dirty_lookup.
    + destruct Hok as [Hlen Hall]. split; simpl.
      * rewrite length_insert. exact Hlen.
      * apply Forall_insert; assumption.
Qed.

Lemma drawPixels_writes_one_bit_witness :
  exists old new : Z,
    buffer (construct cfg16) !! Z.to_nat (3 + 16 * (10 / 8)) = Some old
    /\ (forall i, 0 <= i ->
          Z.testbit new i = if i =? 10 mod 8 then true else Z.testbit old i)
    /\ buffer (drawPixels [(3, 10, WHITE)] (construct cfg16))
       = <[Z.to_nat (3 + 16 * (10 / 8)) := new]> (buffer (construct cfg16))
    /\ dirtyBytes (drawPixels [(3, 10, WHITE)] (construct cfg16)) =
         (if decide (new = old) then dirtyBytes (construct cfg16)
          else mark_dirty (10 / 8) 3 (Num new) (dirtyBytes (construct cfg16)))
    /\ (new <> old ->
        dirtyBytes (drawPixels [(3, 10, WHITE)] (construct cfg16)) !! (10 / 8)
          ≫= (fun cols => cols !! 3) = Some (Num new))
    /\ cursorx (drawPixels [(3, 10, WHITE)] (construct cfg16)) = 0
    /\ cursory (drawPixels [(3, 10, WHITE)] (construct cfg16)) = 0
    /\ buffer_ok (drawPixels [(3, 10, WHITE)] (construct cfg16)).
Proof.
  apply (drawPixels_writes_one_bit (construct cfg16) 3 10 WHITE).
  - apply construct_buffer_ok. simpl. lia.
  - simpl. lia.
  - simpl. lia.
  - reflexivity.
  - left. reflexivity.
Defined.

(** ** Clipping *)

Lemma clipped_Config (d d' : display) (x y : option Z) :
  Config d' = Config d -> clipped d' x y = clipped d x y.
Proof. intros H. unfold clipped. rewrite H. reflexivity. Qed.

Lemma visible_Config (d d' : display) (p : pixel) :
  Config d' = Config d -> visible d' p = visible d p.
Proof. intros H. unfold visible. by rewrite (clipped_Config d d'). Qed.

Lemma drawPixel_Config (d : display) (p : pixel) :
  Config (drawPixel d p) = Config d.
Proof.
  destruct p as [[x y] c]. unfold drawPixel.
  destruct (clipped d (Some x) (Some y)); [reflexivity|].
  case_neq; reflexivity.
Qed.

Lemma drawPixels_Config (ps : list pixel) (d : display) :
  Config (drawPixels ps d) = Config d.
Proof.
  revert d. induction ps as [|p ps IH]; intros d; [reflexivity|].
  unfold drawPixels in *. simpl. rewrite IH. apply drawPixel_Config.
Qed.

Lemma drawPixels_app (ps qs : list pixel) (d : display) :
  drawPixels (ps ++ qs) d = drawPixels qs (drawPixels ps d).
Proof. unfold drawPixels. apply fold_left_app. Qed.

Lemma drawPixel_clipped (d : display) (p : pixel) :
  visible d p = false -> drawPixel d p = d.
Proof.
  destruct p as [[x y] c]. unfold visible, drawPixel. simpl.
  destruct (clipped d (Some x) (Some y)); [reflexivity | discriminate].
Qed.

(** [drawPixels] treats a list of pixels as it treats the pixels of the list
    that pass the clip test. *)
Lemma drawPixels_filter (ps : list pixel) (d : display) :
  drawPixels ps d = drawPixels (List.filter (visible d) ps) d.
Proof.
  revert d. induction ps as [|p ps IH]; intros d; [reflexivity|].
  simpl List.filter. destruct (visible d p) eqn:Hv.
  - change (drawPixels ps (drawPixel d p)
            = drawPixels (List.filter (visible d) ps) (drawPixel d p)).
    rewrite IH. f_equal. apply filter_ext. intros q.
    apply visible_Config, drawPixel_Config.
  - change (drawPixels ps (drawPixel d p)
            = drawPixels (List.filter (visible d) ps) d).
    rewrite drawPixel_clipped by exact Hv. apply IH.
Qed.

Lemma drawPixels_all_clipped (ps : list pixel) (d : display) :
  (forall p, In p ps -> visible d p = false) -> drawPixels ps d = d.
Proof.
  intros H. rewrite drawPixels_filter.
  replace (List.filter (visible d) ps) with (@nil pixel); [reflexivity|].
  symmetry. induction ps as [|p ps IH]; [reflexivity|].
  simpl. rewrite H by (left; reflexivity).
  apply IH. intros q Hq. apply H. right. exact Hq.
Qed.

Lemma drawLine_linePoints (x0 y0 x1 y1 : Z) (c : color) (d : display) :
  drawLine x0 y0 x1 y1 c d = drawPixels (linePoints x0 y0 x1 y1 c) d.
Proof.
  unfold drawLine, linePoints.
  destruct (linePixels (lineFuel x0 y0 x1 y1) x0 y0 x1 y1 c); reflexivity.
Qed.

Lemma drawLine_Config (x0 y0 x1 y1 : Z) (c : color) (d : display) :
  Config (drawLine x0 y0 x1 y1 c d) = Config d.
Proof. rewrite drawLine_linePoints. apply drawPixels_Config. Qed.

Lemma drawFillRect_rectPoints (x y w h : Z) (c : color) (d : display) :
  drawFillRect x y w h c d = drawPixels (rectPoints x y w h c) d.
Proof.
  unfold drawFillRect, rectPoints.
  revert d. induction (zrange x (Z.to_nat w)) as [|i l IH]; intros d;
    [reflexivity|].
  simpl. rewrite drawPixels_app, IH, drawLine_linePoints. reflexivity.
Qed.

Lemma drawFillRect_Config (x y w h : Z) (c : color) (d : display) :
  Config (drawFillRect x y w h c d) = Config d.
Proof. rewrite drawFillRect_rectPoints. apply drawPixels_Config. Qed.

(** A loop whose body does nothing on the skipped elements is the loop over
    the elements that are not skipped; [P] is an invariant of the loop
    state. *)
Lemma fold_left_skip {S A : Type} (P : S -> Prop) (f g : S -> A -> S)
    (skip : A -> bool) :
  (forall s a, P s -> skip a = true -> f s a = s) ->
  (forall s a, P s -> skip a = false -> f s a = g s a) ->
  (forall s a, P s -> P (g s a)) ->
  forall l s, P s ->
    fold_left f l s = fold_left g (List.filter (fun a => negb (skip a)) l) s
    /\ P (fold_left f l s).
Proof.
  intros Hskip Hkeep Hinv l.
  induction l as [|a l IH]; intros s Hs; [split; [reflexivity | exact Hs]|].
  simpl. destruct (skip a) eqn:E; simpl.
  - rewrite Hskip by assumption. apply IH. exact Hs.
  - rewrite Hkeep by assumption. apply IH. apply Hinv. exact Hs.
Qed.

Lemma saveByte_Config (dxx : Z) (s : blit) :
  Config (saveByte dxx s) = Config (target s).
Proof.
  unfold saveByte.
  case_if;
    reflexivity.
Qed.

Lemma blitPixel_Config (img : image) (x dxx y dyy : Z) (s : blit) :
  Config (target (blitPixel img x dxx y dyy s)) = Config (target s).
Proof.
  unfold blitPixel.
  destruct (dyy / 8 >? page s); simpl;
    repeat match goal with
           | |- context [if ?b then _ else _] => destruct b; simpl
           end;
    auto using saveByte_Config.
Qed.

Lemma blitRows_visible (d : display) (dy : Z) (img : image) (x dxx : Z)
    (l : list Z) (s : blit) :
  Config (target s) = Config d ->
  fold_left (blitRow dy img x dxx) l s
  = fold_left (fun s y => blitPixel img x dxx y (dy + y) s)
      (List.filter (fun y => negb (clipped d None (Some (dy + y)))) l) s
  /\ Config (target (fold_left (blitRow dy img x dxx) l s)) = Config d.
Proof.
  apply (fold_left_skip (fun s => Config (target s) = Config d)
           (blitRow dy img x dxx)
           (fun s y => blitPixel img x dxx y (dy + y) s)
           (fun y => clipped d None (Some (dy + y)))).
  - intros s' y Hs Hc. unfold blitRow.
    rewrite (clipped_Config d (target s')) by exact Hs. by rewrite Hc.
  - intros s' y Hs Hc. unfold blitRow.
    rewrite (clipped_Config d (target s')) by exact Hs. by rewrite Hc.
  - intros s' y Hs. rewrite blitPixel_Config. exact Hs.
Qed.

Lemma blitVisibleColumn_rows (d : display) (dy : Z) (img : image) (x dxx : Z)
    (s : blit) :
  Config (target s) = Config d ->
  blitVisibleColumn dy img x dxx s
  = blitColumnRows (visibleRows d dy img) dy img x dxx s
  /\ Config (target (blitVisibleColumn dy img x dxx s)) = Config d.
Proof.
  intros Hs. unfold blitVisibleColumn, blitColumnRows, visibleRows.
  destruct (blitRows_visible d dy img x dxx
              (zrange 0 (Z.to_nat (img_height img)))
              {| page := -1; dxxByte := dxxByte s;
                 bufferOffset := bufferOffset s; target := target s |} Hs)
    as [Heq Hcfg].
  split.
  - rewrite Heq. reflexivity.
  - simpl. rewrite saveByte_Config. exact Hcfg.
Qed.

(** [drawImage] treats an image as it treats the columns and rows of the
    image that pass the clip test. *)
Lemma drawImage_visible (dx dy : Z) (img : image) (d : display) :
  drawImage dx dy img d = drawImageVisible dx dy img d
  /\ Config (drawImage dx dy img d) = Config d.
Proof.
  unfold drawImage, drawImageVisible, visibleColumns.
  destruct (fold_left_skip (fun s => Config (target s) = Config d)
              (blitColumn dx dy img)
              (fun s x => blitColumnRows (visibleRows d dy img) dy img x (dx + x) s)
              (fun x => clipped d (Some (dx + x)) None)) with
    (l := zrange 0 (Z.to_nat (img_width img)))
    (s := {| page := -1; dxxByte := Null; bufferOffset := 0; target := d |})
    as [Heq Hcfg].
  - intros s x Hs Hc. unfold blitColumn.
    rewrite (clipped_Config d (target s)) by exact Hs. by rewrite Hc.
  - intros s x Hs Hc. unfold blitColumn.
    rewrite (clipped_Config d (target s)) by exact Hs. rewrite Hc.
    apply (blitVisibleColumn_rows d dy img x (dx + x) s Hs).
  - intros s x Hs.
    destruct (blitVisibleColumn_rows d dy img x (dx + x) s Hs) as [<- H].
    exact H.
  - reflexivity.
  - rewrite Heq. split; [reflexivity|]. rewrite <- Heq. exact Hcfg.
Qed.

Lemma drawImage_Config (dx dy : Z) (img : image) (d : display) :
  Config (drawImage dx dy img d) = Config d.
Proof. apply drawImage_visible. Qed.

(** Without a visible row no column writes anything. *)
Lemma blitColumnRows_no_rows (dy : Z) (img : image) (dx : Z) (cols : list Z)
    (s : blit) :
  dxxByte s = Null ->
  target (fold_left (fun s x => blitColumnRows [] dy img x (dx + x) s) cols s)
  = target s.
Proof.
  revert s. induction cols as [|x cols IH]; intros s Hs; [reflexivity|].
  simpl. rewrite IH by reflexivity.
  unfold blitColumnRows, saveByte. simpl. rewrite Hs. reflexivity.
Qed.

Lemma drawImageVisible_no_rows (dx dy : Z) (img : image) (d : display) :
  visibleRows d dy img = [] -> drawImageVisible dx dy img d = d.
Proof.
  intros Hrows. unfold drawImageVisible. rewrite Hrows.
  apply (blitColumnRows_no_rows dy img dx). reflexivity.
Qed.

Lemma drawImageVisible_no_columns (dx dy : Z) (img : image) (d : display) :
  visibleColumns d dx img = [] -> drawImageVisible dx dy img d = d.
Proof. intros H. unfold drawImageVisible. rewrite H. reflexivity. Qed.

Lemma filter_nil_all {A : Type} (f : A -> bool) (l : list A) :
  (forall a, In a l -> f a = false) -> List.filter f l = [].
Proof.
  intros H. induction l as [|a l IH]; [reflexivity|].
  simpl. rewrite H by (left; reflexivity).
  apply IH. intros b Hb. apply H. right. exact Hb.
Qed.

Lemma in_zrange (a : Z) (n : nat) (i : Z) :
  In i (zrange a n) <-> a <= i < a + Z.of_nat n.
Proof.
  unfold zrange. rewrite in_map_iff. split.
  - intros (k & <- & Hk). apply in_seq in Hk. lia.
  - intros Hi. exists (Z.to_nat (i - a)). split; [lia|].
    apply in_seq. lia.
Qed.

(** ** Vertical lines and rectangles *)

Lemma exactLoop_vertical (x1 y1 dy sx sy : Z) (c : color) (k : nat) :
  forall (f : nat) (y0 e : Z),
    (k < f)%nat ->
    sy = 1 \/ sy = -1 ->
    y1 - y0 = sy * Z.of_nat k ->
    - (2 * dy) < e <= 0 ->
    exactLoop f x1 y1 0 dy sx sy c x1 y0 e
    = Some (map (fun j => (x1, y0 + sy * Z.of_nat j, c)) (seq 0 (S k))).
Proof.
  induction k as [|k IH]; intros f y0 e Hf Hsy Hy He;
    (destruct f as [|f]; [lia|]); simpl exactLoop.
  - replace (y0 =? y1) with true by (symmetry; apply Z.eqb_eq; lia).
    rewrite Z.eqb_refl. simpl. rewrite Z.mul_0_r, Z.add_0_r. reflexivity.
  - replace (y0 =? y1) with false by (symmetry; apply Z.eqb_neq; nia).
    rewrite andb_false_r.
    change (- (2 * 0)) with 0. change (2 * 0) with 0.
    replace (e >? 0) with false by (symmetry; rewrite Z.gtb_ltb; apply Z.ltb_ge; lia).
    replace (e <? 2 * dy) with true by (symmetry; apply Z.ltb_lt; lia).
    replace (e + 0) with e by lia.
    rewrite (IH f (y0 + sy) e) by lia.
    f_equal. change (seq 0 (S (S k))) with (0%nat :: seq 1 (S k)).
    rewrite <- seq_shift, map_cons, map_map.
    f_equal; [do 2 f_equal; lia|].
    apply map_ext. intros j. do 2 f_equal. lia.
Qed.

(** The pixels of a vertical line, from [ya] towards [yb]. *)
Lemma linePoints_vertical (i ya yb : Z) (c : color) :
  safe i -> safe ya -> safe yb ->
  linePoints i ya i yb c
  = map (fun j => (i, ya + (if ya <? yb then 1 else -1) * Z.of_nat j, c))
        (seq 0 (S (Z.to_nat (Z.abs (yb - ya))))).
Proof.
  intros Hi Hya Hyb. unfold linePoints.
  rewrite linePixels_exact by (auto using lineFuel_safe).
  unfold exactPixels, lineFuel.
  replace (i - i) with 0 by lia. change (Z.abs 0) with 0.
  set (dy := Z.abs (yb - ya)).
  assert (Hdy : 0 <= dy) by (unfold dy; lia).
  replace (Z.max 0 dy) with dy by lia.
  replace (0 >? dy) with false by (symmetry; rewrite Z.gtb_ltb; apply Z.ltb_ge; lia).
  cbv iota.
  destruct (Z.eq_dec dy 0) as [Hz|Hnz].
  - assert (ya = yb) by (unfold dy in Hz; lia). subst yb.
    rewrite Hz. simpl. rewrite !Z.eqb_refl. simpl.
    rewrite Z.mul_0_r, Z.add_0_r. reflexivity.
  - rewrite (exactLoop_vertical i yb dy _ (if ya <? yb then 1 else -1) c
               (Z.to_nat dy)); [reflexivity | lia | | | lia].
    + destruct (ya <? yb); auto.
    + rewrite Z2Nat.id by lia. unfold dy.
      destruct (Z.ltb_spec ya yb); lia.
Qed.

(** ** Text below the last visible row *)

Lemma rows_clipped_default (d : display) :
  clippedMethod (Config d) = None ->
  rows_clipped_from d (displayRows (Config d)).
Proof.
  intros Hnone y Hy. unfold clipped. rewrite Hnone. split.
  - replace (y >=? displayRows (Config d)) with true
      by (symmetry; apply Z.geb_le; lia).
    apply orb_true_r.
  - intros x.
    destruct ((x <? 0) || (x >=? displayColumns (Config d))); [reflexivity|].
    replace (y >=? displayRows (Config d)) with true
      by (symmetry; apply Z.geb_le; lia).
    apply orb_true_r.
Qed.

Lemma rows_clipped_Config (d d' : display) (y0 : Z) :
  Config d' = Config d -> rows_clipped_from d y0 -> rows_clipped_from d' y0.
Proof.
  intros Hc H y Hy. destruct (H y Hy) as [H1 H2]. split.
  - by rewrite (clipped_Config d d').
  - intros x. by rewrite (clipped_Config d d').
Qed.

Lemma drawImage_rows_clipped (d : display) (y0 dx dy : Z) (img : image) :
  rows_clipped_from d y0 -> y0 <= dy -> drawImage dx dy img d = d.
Proof.
  intros Hrows Hdy.
  destruct (drawImage_visible dx dy img d) as [-> _].
  apply drawImageVisible_no_rows. unfold visibleRows.
  apply filter_nil_all. intros y Hy. apply in_zrange in Hy.
  destruct (Hrows (dy + y)) as [-> _]; [lia | reflexivity].
Qed.

Lemma fold_left_invariant {S A : Type} (P : S -> Prop) (f : S -> A -> S) :
  (forall s a, P s -> P (f s a)) ->
  forall l s, P s -> P (fold_left f l s).
Proof.
  intros Hstep l. induction l as [|a l IH]; intros s Hs; [exact Hs|].
  simpl. apply IH, Hstep, Hs.
Qed.

(** A text with glyphs that have an alpha channel is drawn by [drawImage]
    alone. *)
Section TextBelow.
Variables (d0 : display) (y0 : Z) (fim : fontIM) (wrap : bool).
Hypothesis Hrows : rows_clipped_from d0 y0.
Hypothesis Hline : 0 <= fim_height fim + lineSpacing (Config d0).
Hypothesis Hglyphs :
  forall ch g, glyphs fim !! ch = Some g ->
               img_channels g = 2 \/ img_channels g = 4.

Lemma nextLine_below (co co' : Z) (d : display) :
  frame_below d0 y0 (co, d) -> frame_below d0 y0 (co', nextLine fim d).
Proof.
  intros (Hc & Hb & Hd & Hy). unfold frame_below, nextLine. simpl in *.
  rewrite Hc. repeat split; try assumption. lia.
Qed.

Lemma wrapWord_below (wi : nat) (word : string) (st : Z * display) :
  frame_below d0 y0 st -> frame_below d0 y0 (wrapWord wrap fim wi word st).
Proof.
  destruct st as [co d]. intros H. unfold wrapWord.
  case_if;
    [eapply nextLine_below; exact H | exact H].
Qed.

Lemma drawChar_below (st : Z * display) (ch : ascii) :
  frame_below d0 y0 st -> frame_below d0 y0 (drawChar wrap fim st ch).
Proof.
  destruct st as [co d]. intros H. unfold drawChar.
  destruct (Ascii.eqb ch newline); [eapply nextLine_below; exact H|].
  destruct (glyphs fim !! ch) as [g|] eqn:Hg; [|exact H].
  pose proof (Hglyphs ch g Hg) as Hch.
  destruct H as (Hc & Hb & Hd & Hy). simpl in Hc, Hb, Hd, Hy.
  assert (Hrows' : rows_clipped_from d y0)
    by (apply (rows_clipped_Config d0); assumption).
  rewrite (drawImage_rows_clipped d y0) by assumption.
  replace (negb (img_channels g =? 2) && negb (img_channels g =? 4))
    with false
    by (destruct Hch as [-> | ->]; reflexivity).
  case_if.
  - apply (nextLine_below co). repeat split; assumption.
  - repeat split; assumption.
Qed.

Lemma drawWord_below (n : nat) (st : Z * display) (w : nat * string) :
  frame_below d0 y0 st -> frame_below d0 y0 (drawWord wrap fim n st w).
Proof.
  destruct w as [wi word]. intros H. unfold drawWord.
  apply fold_left_invariant; [apply drawChar_below|].
  apply wrapWord_below, H.
Qed.

(** A text whose cursor row is at or below [y0] leaves the frame alone. *)
Lemma drawString_below (str : string) :
  y0 <= cursory d0 ->
  buffer (drawString str fim wrap d0) = buffer d0
  /\ dirtyBytes (drawString str fim wrap d0) = dirtyBytes d0.
Proof.
  intros Hy. unfold drawString.
  assert (H : frame_below d0 y0 (fold_left (drawWord wrap fim (length (split_spaces str)))
                       (zip (seq 0 (length (split_spaces str)))
                            (split_spaces str))
                       (cursorx d0, d0))).
  { apply fold_left_invariant; [apply drawWord_below|].
    repeat split; simpl; auto. }
  destruct H as (_ & Hb & Hd & _). split; assumption.
Qed.
End TextBelow.

(** ** Everything clipped *)

Lemma all_clipped_Config (d d' : display) :
  Config d' = Config d ->
  (forall x y, clipped d x y = true) -> forall x y, clipped d' x y = true.
Proof. intros Hc H x y. by rewrite (clipped_Config d d'). Qed.

Lemma drawPixels_nothing_visible (d : display) (ps : list pixel) :
  (forall x y, clipped d x y = true) -> drawPixels ps d = d.
Proof.
  intros H. apply drawPixels_all_clipped. intros p _.
  unfold visible. by rewrite H.
Qed.

Lemma drawImage_nothing_visible (d : display) (dx dy : Z) (img : image) :
  (forall x y, clipped d x y = true) -> drawImage dx dy img d = d.
Proof.
  intros H. destruct (drawImage_visible dx dy img d) as [-> _].
  apply drawImageVisible_no_columns. unfold visibleColumns.
  apply filter_nil_all. intros x _. by rewrite H.
Qed.

Lemma drawChar_nothing_visible (d0 : display) (wrap : bool) (fim : fontIM)
    (st : Z * display) (ch : ascii) :
  (forall x y, clipped d0 x y = true) ->
  Config (snd st) = Config d0 /\ buffer (snd st) = buffer d0
  /\ dirtyBytes (snd st) = dirtyBytes d0 ->
  Config (snd (drawChar wrap fim st ch)) = Config d0
  /\ buffer (snd (drawChar wrap fim st ch)) = buffer d0
  /\ dirtyBytes (snd (drawChar wrap fim st ch)) = dirtyBytes d0.
Proof.
  destruct st as [co d]. cbn [snd]. intros Hall (Hc & Hb & Hd).
  pose proof (all_clipped_Config d0 d Hc Hall) as Hall'.
  unfold drawChar.
  destruct (Ascii.eqb ch newline); [auto|].
  destruct (glyphs fim !! ch) as [g|]; [|auto].
  rewrite (drawImage_nothing_visible d) by exact Hall'.
  rewrite !drawFillRect_rectPoints.
  rewrite !(drawPixels_nothing_visible d) by exact Hall'.
  destruct (negb (img_channels g =? 2) && negb (img_channels g =? 4));
    case_if; auto.
Qed.

Lemma drawString_nothing_visible (d : display) (str : string) (fim : fontIM)
    (wrap : bool) :
  (forall x y, clipped d x y = true) ->
  buffer (drawString str fim wrap d) = buffer d
  /\ dirtyBytes (drawString str fim wrap d) = dirtyBytes d.
Proof.
  intros Hall. unfold drawString.
  set (P := fun st : Z * display =>
              Config (snd st) = Config d /\ buffer (snd st) = buffer d
              /\ dirtyBytes (snd st) = dirtyBytes d).
  assert (H : P (fold_left (drawWord wrap fim (length (split_spaces str)))
                   (zip (seq 0 (length (split_spaces str)))
                      (split_spaces str))
                   (cursorx d, d))).
  { apply (fold_left_invariant P); [|repeat split].
    intros st [wi word] Hst. unfold drawWord.
    apply (fold_left_invariant P).
    - intros st' ch. by apply drawChar_nothing_visible.
    - destruct st as [co d']. unfold wrapWord. case_if; exact Hst. }
  destruct H as (_ & Hb & Hd). auto.
Qed.

(** ** The text and its unclipped parts *)

Lemma drawFillRect_fillVisible (x y w h : Z) (c : color) (d : display) :
  drawFillRect x y w h c d = fillVisible x y w h c d.
Proof.
  unfold fillVisible. rewrite drawFillRect_rectPoints.
  apply drawPixels_filter.
Qed.

Lemma drawChar_visible (wrap : bool) (fim : fontIM) (st : Z * display)
    (ch : ascii) :
  drawChar wrap fim st ch = drawCharVisible wrap fim st ch.
Proof.
  destruct st as [co d]. unfold drawChar, drawCharVisible.
  destruct (Ascii.eqb ch newline); [reflexivity|].
  destruct (glyphs fim !! ch) as [g|]; [|reflexivity].
  rewrite (proj1 (drawImage_visible co (cursory d) g d)).
  rewrite !drawFillRect_fillVisible. reflexivity.
Qed.

Lemma fold_left_ext_fun {S A : Type} (f g : S -> A -> S) (l : list A) :
  (forall s a, f s a = g s a) ->
  forall s, fold_left f l s = fold_left g l s.
Proof.
  intros H. induction l as [|a l IH]; intros s; [reflexivity|].
  simpl. rewrite H. apply IH.
Qed.

Lemma drawString_visible (str : string) (fim : fontIM) (wrap : bool)
    (d : display) :
  drawString str fim wrap d = drawStringVisible str fim wrap d.
Proof.
  unfold drawString, drawStringVisible. f_equal.
  apply fold_left_ext_fun. intros st [wi word]. unfold drawWord.
  apply fold_left_ext_fun. intros st' ch. apply drawChar_visible.
Qed.

(** ** C1: what a clipped coordinate does *)

Lemma clipped_default (d : display) (x y : Z) :
  clippedMethod (Config d) = None ->
  clipped d (Some x) (Some y) = true <-> outside d x y.
Proof.
  intros Hnone. unfold clipped, outside. rewrite Hnone.
  destruct (Z.ltb_spec x 0), (Z.geb_spec x (displayColumns (Config d))),
    (Z.ltb_spec y 0), (Z.geb_spec y (displayRows (Config d)));
    simpl; split; intros; try reflexivity; try discriminate; lia.
Qed.

(** C1 as stated fails when a clip predicate is installed: [clipped] then
    returns what the predicate returns and skips the bounds test.  On a
    16 x 16 display whose predicate lets everything through, the pixel
    (16, 0) lies outside the columns, and drawing it changes byte 16 of the
    buffer and adds the entry (0, 16) to the dirty map. *)
Lemma clip_predicate_replaces_bounds_test :
  let d := setClipped clipNothing (construct cfg16) in
  outside d 16 0
  /\ buffer (drawPixels [(16, 0, WHITE)] d) !! 16%nat = Some 1
  /\ buffer d !! 16%nat = Some 0
  /\ dirtyBytes (drawPixels [(16, 0, WHITE)] d) !! 0
       ≫= (fun cols => cols !! 16) = Some (Num 1)
  /\ dirtyBytes d = ∅.
Proof.
  simpl. repeat split.
  right. left. simpl. lia.
Qed.

(** C1, amended.  A coordinate is clipped when [clipped] returns true: with
    no clip predicate installed, when it lies outside
    [[0, displayColumns) x [0, displayRows)]; with a predicate installed, when
    the predicate returns true (the bounds are not tested then; [drawImage]
    asks it about a column as [(x, null)] and about a row as [(null, y)]).
    No drawing operation writes anything for a clipped coordinate:
    [drawPixels], [drawLine] and [drawFillRect] leave the display as the
    unclipped pixels alone leave it, [drawImage] as the unclipped columns and
    rows alone leave it, and [drawString] as the unclipped columns and rows
    of its glyph images and the unclipped pixels of its spacing rectangles
    alone leave it (the cursor moves all the same).  When every coordinate
    is clipped, no operation changes the buffer or the dirty map; nor does a
    text in clipped rows whose glyphs have an alpha channel.  None of this
    raises an error. *)
Theorem clipped_coordinates_write_nothing :
  (forall d x y,
      clippedMethod (Config d) = None ->
      clipped d (Some x) (Some y) = true <-> outside d x y)
  /\ (forall d f x y,
         clippedMethod (Config d) = Some f -> clipped d x y = f x y)
  /\ (forall d ps,
         drawPixels ps d = drawPixels (List.filter (visible d) ps) d)
  /\ (forall d ps,
         (forall p, In p ps -> visible d p = false) -> drawPixels ps d = d)
  /\ (forall d x0 y0 x1 y1 c,
         drawLine x0 y0 x1 y1 c d
         = drawPixels (List.filter (visible d) (linePoints x0 y0 x1 y1 c)) d)
  /\ (forall d x y w h c,
         drawFillRect x y w h c d
         = drawPixels (List.filter (visible d) (rectPoints x y w h c)) d)
  /\ (forall d dx dy img,
         drawImage dx dy img d = drawImageVisible dx dy img d)
  /\ (forall d dx dy img,
         visibleColumns d dx img = [] \/ visibleRows d dy img = [] ->
         drawImage dx dy img d = d)
  /\ (forall d str fim wrap,
         drawString str fim wrap d = drawStringVisible str fim wrap d)
  /\ (forall d,
         (forall x y, clipped d x y = true) ->
         (forall ps, drawPixels ps d = d)
         /\ (forall x0 y0 x1 y1 c, drawLine x0 y0 x1 y1 c d = d)
         /\ (forall x y w h c, drawFillRect x y w h c d = d)
         /\ (forall dx dy img, drawImage dx dy img d = d)
         /\ (forall str fim wrap,
                buffer (drawString str fim wrap d) = buffer d
                /\ dirtyBytes (drawString str fim wrap d) = dirtyBytes d))
  /\ (forall d y0 str fim wrap,
         rows_clipped_from d y0 ->
         y0 <= cursory d ->
         0 <= fim_height fim + lineSpacing (Config d) ->
         (forall ch g, glyphs fim !! ch = Some g ->
                       img_channels g = 2 \/ img_channels g = 4) ->
         buffer (drawString str fim wrap d) = buffer d
         /\ dirtyBytes (drawString str fim wrap d) = dirtyBytes d).
Proof.
  split; [exact clipped_default|].
  split; [intros d f x y H; unfold clipped; by rewrite H|].
  split; [intros d ps; apply drawPixels_filter|].
  split; [intros d ps; apply drawPixels_all_clipped|].
  split.
  { intros d x0 y0 x1 y1 c.
    rewrite drawLine_linePoints. apply drawPixels_filter. }
  split.
  { intros d x y w h c.
    rewrite drawFillRect_rectPoints. apply drawPixels_filter. }
  split; [intros d dx dy img; apply drawImage_visible|].
  split.
  { intros d dx dy img H.
    destruct (drawImage_visible dx dy img d) as [-> _].
    destruct H as [H|H];
      [apply drawImageVisible_no_columns | apply drawImageVisible_no_rows];
      exact H. }
  split; [intros; apply drawString_visible|].
  split.
  { intros d Hall.
    split; [intros; by apply drawPixels_nothing_visible|].
    split; [intros; rewrite drawLine_linePoints;
            by apply drawPixels_nothing_visible|].
    split; [intros; rewrite drawFillRect_rectPoints;
            by apply drawPixels_nothing_visible|].
    split; [intros; by apply drawImage_nothing_visible|].
    intros; by apply drawString_nothing_visible. }
  intros d y0 str fim wrap Hrows Hy Hline Hg.
  apply (drawString_below d y0 fim wrap Hrows Hline Hg str Hy).
Qed.

Lemma clipped_coordinates_write_nothing_witness :
  (buffer (drawString "A A" fimAlpha true (setCursor 3 16 (construct cfg16)))
   = buffer (setCursor 3 16 (construct cfg16))
   /\ dirtyBytes
        (drawString "A A" fimAlpha true (setCursor 3 16 (construct cfg16)))
      = dirtyBytes (setCursor 3 16 (construct cfg16)))
  /\ drawString "A A" fimA true (setCursor 13 12 (construct cfg16))
     = drawStringVisible "A A" fimA true (setCursor 13 12 (construct cfg16))
  /\ buffer (drawString "A A" fimA true
               (setClipped clipAll (construct cfg16)))
     = buffer (setClipped clipAll (construct cfg16)).
Proof.
  destruct clipped_coordinates_write_nothing
    as (_ & _ & _ & _ & _ & _ & _ & _ & Hvis & Hall & Hbelow).
  split; [|split].
  - apply (Hbelow (setCursor 3 16 (construct cfg16)) 16
             "A A"%string fimAlpha true).
    + apply (rows_clipped_default (setCursor 3 16 (construct cfg16))).
      reflexivity.
    + simpl. lia.
    + simpl. lia.
    + intros ch g Hg. left.
      change (glyphs fimAlpha)
        with ({[ "A"%char := glyphImage fontA true 0 ]} : gmap ascii image)
        in Hg.
      apply lookup_singleton_Some in Hg as [_ <-]. reflexivity.
  - apply Hvis.
  - apply (Hall (setClipped clipAll (construct cfg16))).
    reflexivity.
Defined.

(** ** fontToImageMap: the rows of a glyph *)

Lemma zrange_cons (a : Z) (n : nat) :
  zrange a (S n) = a :: zrange (a + 1) n.
Proof.
  unfold zrange. simpl. rewrite <- seq_shift, map_map.
  f_equal; [lia|]. apply map_ext. intros i. lia.
Qed.

Lemma length_zrange (a : Z) (n : nat) : length (zrange a n) = n.
Proof. unfold zrange. by rewrite length_map, length_seq. Qed.

Lemma length_flat_map_const {A B : Type} (f : A -> list B) (k : nat)
    (l : list A) :
  (forall a, In a l -> length (f a) = k) ->
  length (flat_map f l) = (k * length l)%nat.
Proof.
  intros H. induction l as [|a l IH]; simpl; [lia|].
  rewrite length_app, H by (left; reflexivity).
  rewrite IH by (intros b Hb; apply H; right; exact Hb). lia.
Qed.










Lemma glyph_fold_other (g : Z -> image) (l : list ascii) :
  forall (a : Z) (m : gmap ascii image) (ch : ascii),
    ch ∉ l ->
    fold_left (fun m '(li, c) => <[c := g li]> m)
      (zip (zrange a (length l)) l) m !! ch
    = m !! ch.
Proof.
  induction l as [|c l IH]; intros a m ch Hch; [reflexivity|].
  cbn [length]. rewrite zrange_cons. cbn [zip zip_with fold_left].
  apply not_elem_of_cons in Hch as [Hne Hch].
  rewrite IH by exact Hch. by rewrite lookup_insert_ne.
Qed.

Lemma glyph_fold_last (g : Z -> image) (l : list ascii) :
  forall (a : Z) (m : gmap ascii image) (i : nat) (ch : ascii),
    l !! i = Some ch ->
    (forall j, (i < j)%nat -> l !! j <> Some ch) ->
    fold_left (fun m '(li, c) => <[c := g li]> m)
      (zip (zrange a (length l)) l) m !! ch
    = Some (g (a + Z.of_nat i)).
Proof.
  induction l as [|c l IH]; intros a m i ch Hi Hlast; [discriminate|].
  cbn [length]. rewrite zrange_cons. cbn [zip zip_with fold_left].
  destruct i as [|i].
  - injection Hi as ->.
    rewrite glyph_fold_other.
    + rewrite lookup_insert_eq. do 2 f_equal. lia.
    + intros Hin. apply list_elem_of_lookup in Hin as [j Hj].
      apply (Hlast (S j)); [lia | exact Hj].
  - rewrite (IH (a + 1) _ i ch Hi).
    + do 2 f_equal. lia.
    + intros j Hj. apply (Hlast (S j)). lia.
Qed.

Lemma last_occurrence (l : list ascii) (ch : ascii) :
  ch ∈ l ->
  exists i, l !! i = Some ch /\ forall j, (i < j)%nat -> l !! j <> Some ch.
Proof.
  induction l as [|c l IH]; intros Hin; [by apply elem_of_nil in Hin|].
  destruct (decide (ch ∈ l)) as [Hl|Hl].
  - destruct (IH Hl) as (i & Hi & Hlast). exists (S i).
    split; [exact Hi|]. intros [|j] Hj; [lia|]. apply Hlast. lia.
  - apply elem_of_cons in Hin as [->|Hin]; [|contradiction].
    exists 0%nat. split; [reflexivity|].
    intros [|j] Hj; [lia|]. intros Hc. apply Hl.
    exact (list_elem_of_lookup_2 l j _ Hc).
Qed.




(** ** sendBuffer *)

(** A loop whose body sends [out s a d], leaves the display alone and steps
    the carried variable by [next]. *)
Lemma forM_reader {A S : Type} (body : S -> A -> io S) (next : S -> S)
    (out : S -> A -> display -> list call) :
  (forall s a d, body s a d = (next s, d, out s a d)) ->
  forall (l : list A) (s : S) (d : display),
    snd (fst (forM l body s d)) = d
    /\ snd (forM l body s d)
       = concat (snd (fold_left
                        (fun acc a => (next (fst acc),
                                       snd acc ++ [out (fst acc) a d]))
                        l (s, []))).
Proof.
  intros Hbody l.
  assert (Hgen : forall (s : S) (d : display) (pre : list (list call)),
             snd (fst (forM l body s d)) = d
             /\ concat pre ++ snd (forM l body s d)
                = concat (snd (fold_left
                                 (fun acc a => (next (fst acc),
                                                snd acc ++ [out (fst acc) a d]))
                                 l (s, pre)))).
  { induction l as [|a l IH]; intros s d pre.
    - simpl. split; [reflexivity | apply app_nil_r].
    - cbn [forM fold_left]. unfold mbind, io_bind, bind.
      rewrite Hbody. cbn [fst snd].
      destruct (IH (next s) d (pre ++ [out s a d])) as [IH1 IH2].
      destruct (forM l body (next s) d) as [[s' d'] log'] eqn:E.
      cbn [fst snd] in *. split; [exact IH1|].
      rewrite <- IH2, concat_app. cbn [concat].
      rewrite app_nil_r, app_assoc. reflexivity. }
  intros s d. destruct (Hgen s d []) as [H1 H2].
  split; [exact H1 | exact H2].
Qed.

Lemma sendBuffer_pages (low high : Z) (d : display) (n : nat) :
  forall (a : Z) (pre : list (list call)),
    concat (snd (fold_left
                   (fun acc y =>
                      (fst acc + 1,
                       snd acc ++
                         [[SendCommand [fst acc; low; high];
                           SendData (buffer_slice (buffer d)
                                       (y * displayColumns (Config d))
                                       (y * displayColumns (Config d)
                                        + displayColumns (Config d)))]]))
                   (zrange a n) (Constants.SET_PAGE_ADDRESS + a, pre)))
    = concat pre
      ++ flat_map (fun y =>
             [SendCommand [Constants.SET_PAGE_ADDRESS + y; low; high];
              SendData (buffer_slice (buffer d) (y * displayColumns (Config d))
                          (y * displayColumns (Config d)
                           + displayColumns (Config d)))])
           (zrange a n).
Proof.
  induction n as [|n IH]; intros a pre.
  - simpl. by rewrite app_nil_r.
  - rewrite zrange_cons. cbn [fold_left flat_map fst snd].
    replace (Constants.SET_PAGE_ADDRESS + a + 1)
      with (Constants.SET_PAGE_ADDRESS + (a + 1)) by lia.
    rewrite IH, concat_app. cbn [concat].
    rewrite app_nil_r, <- app_assoc. reflexivity.
Qed.

Lemma sendBuffer_run (d : display) :
  sendBuffer d
  = (tt, d, flat_map (pageTransfer d)
              (zrange 0 (Z.to_nat (ceil8 (displayRows (Config d)))))).
Proof.
  unfold sendBuffer, mbind, io_bind.
  unfold bind at 1. unfold this at 1.
  unfold bind at 1.
  match goal with
  | |- context [forM ?l0 ?body0 ?s0 d] =>
      destruct (forM_reader body0 (fun s => s + 1)
                  (fun s y d' =>
                     [SendCommand
                        [s; Z.lor Constants.SET_COL_ADDR_LB
                              (int32_of (columnOffset (Config d)));
                         Z.lor Constants.SET_COL_ADDR_HB 0];
                      SendData (buffer_slice (buffer d')
                                  (y * displayColumns (Config d'))
                                  (y * displayColumns (Config d')
                                   + displayColumns (Config d')))])
                  ltac:(reflexivity) l0 s0 d) as [H1 H2];
      destruct (forM l0 body0 s0 d) as [[s' d'] log'] eqn:E
  end.
  cbn [fst snd] in H1, H2. subst d'. rewrite H2.
  unfold mret, io_ret, ret. rewrite app_nil_r.
  change (Z.lor Constants.SET_PAGE_ADDRESS 0)
    with (Constants.SET_PAGE_ADDRESS + 0).
  rewrite sendBuffer_pages. reflexivity.
Qed.

Lemma sendBuffer_reads_only_state (d : display) :
  exec sendBuffer d = d /\ sendBuffer d = (tt, d, calls sendBuffer d).
Proof.
  unfold exec, calls. rewrite sendBuffer_run. split; reflexivity.
Qed.

(** C9. [sendBuffer] only reads the display object: the frame buffer, the
    dirty map with all its page and column entries, the cursor and the
    configuration are after the call what they were before.  It does not
    delete the pending dirty entries, so an [updateDisplay] that follows
    runs on the same dirty map and sends the same pages again. *)
Theorem sendBuffer_reads_only (d : display) :
  exec sendBuffer d = d
  /\ buffer (exec sendBuffer d) = buffer d
  /\ dirtyBytes (exec sendBuffer d) = dirtyBytes d
  /\ (forall p x, dirtyBytes (exec sendBuffer d) !! p ≫= (fun cols => cols !! x)
                  = dirtyBytes d !! p ≫= (fun cols => cols !! x))
  /\ cursorx (exec sendBuffer d) = cursorx d
  /\ cursory (exec sendBuffer d) = cursory d
  /\ calls updateDisplay (exec sendBuffer d) = calls updateDisplay d
  /\ exec updateDisplay (exec sendBuffer d) = exec updateDisplay d.
Proof.
  destruct (sendBuffer_reads_only_state d) as [H _].
  rewrite H. repeat split.
Qed.

Lemma sendBuffer_calls (d : display) :
  calls sendBuffer d
  = flat_map (pageTransfer d)
      (zrange 0 (Z.to_nat (ceil8 (displayRows (Config d))))).
Proof. unfold calls. rewrite sendBuffer_run. reflexivity. Qed.

(** A slice that lies inside the buffer. *)
Lemma buffer_slice_in (buf : list Z) (a b : Z) :
  0 <= a <= b -> b <= Z.of_nat (length buf) ->
  buffer_slice buf a b = take (Z.to_nat (b - a)) (drop (Z.to_nat a) buf)
  /\ Z.of_nat (length (buffer_slice buf a b)) = b - a.
Proof.
  intros Hab Hb. unfold buffer_slice, clamp_index.
  destruct (Z.ltb_spec a 0), (Z.ltb_spec b 0); try lia.
  rewrite !Z.min_l by lia. split; [reflexivity|].
  rewrite length_take, length_drop. lia.
Qed.

Lemma ceil8_le (h : Z) : 0 <= h -> 0 <= ceil8 h <= h /\ h <= 8 * ceil8 h.
Proof.
  intros Hh. unfold ceil8.
  pose proof (Z.div_mod (- h) 8 ltac:(lia)).
  pose proof (Z.mod_pos_bound (- h) 8 ltac:(lia)).
  lia.
Qed.

(** Small ranges are settled by evaluation. *)
Lemma forallb_zrange (P : Z -> bool) (a : Z) (n : nat) (i : Z) :
  forallb P (zrange a n) = true -> a <= i < a + Z.of_nat n -> P i = true.
Proof.
  intros H Hi. rewrite forallb_forall in H. apply H, in_zrange, Hi.
Qed.

(** With a column offset below 16 and at most 16 pages, [sendBuffer] sends
    for every page that header and then the [displayColumns] bytes of the
    page. *)
Lemma sendBuffer_small_offset (d : display) (off y : Z) :
  buffer_ok d ->
  columnOffset (Config d) = Some off ->
  0 <= off < 16 ->
  0 <= displayColumns (Config d) ->
  0 <= y < ceil8 (displayRows (Config d)) ->
  y < 16 ->
  exists bytes,
    pageTransfer d y = [SendCommand (addressHeader y off); SendData bytes]
    /\ bytes = take (Z.to_nat (displayColumns (Config d)))
                    (drop (Z.to_nat (y * displayColumns (Config d))) (buffer d))
    /\ Z.of_nat (length bytes) = displayColumns (Config d).
Proof.
  intros [Hlen _] Hoff Hrange Hcols Hy Hy16.
  assert (Hrows : 0 <= displayRows (Config d)).
  { destruct (Z_lt_le_dec (displayRows (Config d)) 0) as [Hneg|]; [|lia].
    unfold ceil8 in Hy.
    assert (0 <= - displayRows (Config d) / 8) by (apply Z.div_pos; lia).
    lia. }
  pose proof (ceil8_le _ Hrows) as Hc.
  destruct (buffer_slice_in (buffer d) (y * displayColumns (Config d))
              (y * displayColumns (Config d) + displayColumns (Config d)))
    as [Hs Hl]; [nia | nia |].
  eexists. split; [|split].
  - unfold pageTransfer, addressHeader. rewrite Hoff.
    change (int32_of (Some off)) with (wrap32 off).
    pose proof (forallb_zrange
                  (fun y => Constants.SET_PAGE_ADDRESS + y
                            =? Z.lor Constants.SET_PAGE_ADDRESS (wrap32 y))
                  0 16 y ltac:(vm_compute; reflexivity) ltac:(lia)) as Hp.
    pose proof (forallb_zrange
                  (fun off => (Z.land (wrap32 off) 0x0F =? wrap32 off)
                              && (Z.shiftr (Z.land (wrap32 off) 0xF0) 4 =? 0))
                  0 16 off ltac:(vm_compute; reflexivity) ltac:(lia)) as Ho.
    cbv beta in Hp, Ho. apply Z.eqb_eq in Hp.
    apply andb_true_iff in Ho as [Ho1 Ho2].
    apply Z.eqb_eq in Ho1, Ho2.
    rewrite Hp, Ho1, Ho2. reflexivity.
  - rewrite Hs. f_equal. f_equal. lia.
  - rewrite Hl. lia.
Qed.

(** C5 does not hold of [sendBuffer] for a column offset of 16 or more.
    With offset 0x22 every header is [[0xB0 + y; 0x22; 0x10]]: the offset is
    or-ed whole into the low-nibble command and the high-nibble command
    carries 0, where the low and high nibbles give [[0xB0 + y; 0x02; 0x12]].
    [updateDisplay] sends the latter for the same column. *)
Theorem sendBuffer_offset_not_split :
  let d := construct cfgNarrow in
  map (fun c => match c with
                | SendCommand bytes => bytes
                | SendData bytes => [Z.of_nat (length bytes)]
                end) (calls sendBuffer d)
  = [[0xB0; 0x22; 0x10]; [64]; [0xB1; 0x22; 0x10]; [64];
     [0xB2; 0x22; 0x10]; [64]; [0xB3; 0x22; 0x10]; [64];
     [0xB4; 0x22; 0x10]; [64]; [0xB5; 0x22; 0x10]; [64]]
  /\ addressHeader 0 0x22 = [0xB0; 0x02; 0x12]
  /\ map (fun c => match c with
                   | SendCommand bytes => bytes
                   | SendData bytes => [Z.of_nat (length bytes)]
                   end)
         (calls updateDisplay (drawPixels [(0, 0, WHITE)] d))
     = [[0xB0; 0x02; 0x12]; [1]].
Proof. vm_compute. repeat split. Qed.

(** ** updateDisplay *)

Lemma elem_of_sortedKeys {V : Type} (m : gmap Z V) (k : Z) :
  k ∈ sortedKeys m <-> is_Some (m !! k).
Proof.
  unfold sortedKeys. rewrite merge_sort_Permutation.
  rewrite list_elem_of_fmap. split.
  - intros ([k' v] & -> & H). apply elem_of_map_to_list in H. eauto.
  - intros [v Hv]. exists (k, v). split; [reflexivity|].
    by apply elem_of_map_to_list.
Qed.

Lemma NoDup_sortedKeys {V : Type} (m : gmap Z V) : NoDup (sortedKeys m).
Proof.
  unfold sortedKeys. rewrite merge_sort_Permutation.
  apply NoDup_fst_map_to_list.
Qed.

Lemma sortedKeys_nil {V : Type} (m : gmap Z V) :
  sortedKeys m = [] <-> m = ∅.
Proof.
  split.
  - intros H. apply map_empty. intros k.
    destruct (m !! k) as [v|] eqn:E; [|reflexivity].
    assert (Hk : k ∈ sortedKeys m) by (apply elem_of_sortedKeys; eauto).
    rewrite H in Hk. by apply elem_of_nil in Hk.
  - intros ->. unfold sortedKeys. rewrite map_to_list_empty. reflexivity.
Qed.

Lemma fold_min_spec (l : list Z) (a : Z) :
  (fold_left Z.min l a = a \/ In (fold_left Z.min l a) l)
  /\ fold_left Z.min l a <= a
  /\ forall x, In x l -> fold_left Z.min l a <= x.
Proof.
  revert a. induction l as [|b l IH]; intros a; simpl.
  - split; [auto|]. split; [lia | tauto].
  - destruct (IH (Z.min a b)) as (H1 & H2 & H3).
    split; [|split].
    + destruct H1 as [H1|H1]; [|auto]. rewrite H1.
      destruct (Z.min_spec a b) as [[_ ->]|[_ ->]]; auto.
    + lia.
    + intros x [<-|Hx]; [lia | auto].
Qed.

Lemma fold_max_spec (l : list Z) (a : Z) :
  (fold_left Z.max l a = a \/ In (fold_left Z.max l a) l)
  /\ a <= fold_left Z.max l a
  /\ forall x, In x l -> x <= fold_left Z.max l a.
Proof.
  revert a. induction l as [|b l IH]; intros a; simpl.
  - split; [auto|]. split; [lia | tauto].
  - destruct (IH (Z.max a b)) as (H1 & H2 & H3).
    split; [|split].
    + destruct H1 as [H1|H1]; [|auto]. rewrite H1.
      destruct (Z.max_spec a b) as [[_ ->]|[_ ->]]; auto.
    + lia.
    + intros x [<-|Hx]; [lia | auto].
Qed.

(** [minList] and [maxList] are the least and the greatest element. *)
Lemma minList_spec (l : list Z) :
  l <> [] -> In (minList l) l /\ forall x, In x l -> minList l <= x.
Proof.
  destruct l as [|a l]; [congruence|]. intros _. simpl.
  destruct (fold_min_spec l a) as (H1 & H2 & H3). split.
  - destruct H1; auto.
  - intros x [<-|Hx]; auto.
Qed.

Lemma maxList_spec (l : list Z) :
  l <> [] -> In (maxList l) l /\ forall x, In x l -> x <= maxList l.
Proof.
  destruct l as [|a l]; [congruence|]. intros _. simpl.
  destruct (fold_max_spec l a) as (H1 & H2 & H3). split.
  - destruct H1; auto.
  - intros x [<-|Hx]; auto.
Qed.

Lemma pageCalls_frame (d d' : display) (p : Z) :
  Config d' = Config d -> buffer d' = buffer d ->
  dirtyBytes d' !! p = dirtyBytes d !! p ->
  pageCalls d' p = pageCalls d p.
Proof. intros Hc Hb Hp. unfold pageCalls. by rewrite Hc, Hb, Hp. Qed.

Lemma updateBody_run (u : unit) (p : Z) (d : display) :
  updateBody u p d
  = (tt, set_dirtyBytes d (delete p (dirtyBytes d)), pageCalls d p).
Proof.
  unfold updateBody, pageCalls, mbind, io_bind, bind, this.
  destruct (bool_decide (sortedKeys (default ∅ (dirtyBytes d !! p)) = [])).
  - reflexivity.
  - unfold updatePage, mbind, io_bind, bind, sendCommand, sendData, this,
      deleteDirty, addressHeader, int32_of. simpl.
    rewrite wrap32_idem. reflexivity.
Qed.

Lemma flat_map_ext_in' {A B : Type} (f g : A -> list B) (l : list A) :
  (forall a, In a l -> f a = g a) -> flat_map f l = flat_map g l.
Proof.
  intros H. induction l as [|a l IH]; [reflexivity|].
  simpl. rewrite H by (left; reflexivity).
  rewrite IH by (intros b Hb; apply H; right; exact Hb). reflexivity.
Qed.

Lemma updateDisplay_loop (pages : list Z) :
  forall d : display,
    NoDup pages ->
    forM pages updateBody tt d
    = (tt,
       set_dirtyBytes d (fold_left (fun m p => delete p m) pages (dirtyBytes d)),
       flat_map (pageCalls d) pages).
Proof.
  induction pages as [|p pages IH]; intros d Hnd.
  - simpl. unfold ret. by destruct d.
  - apply NoDup_cons in Hnd as [Hp Hnd].
    cbn [forM fold_left flat_map]. unfold mbind, io_bind, bind.
    rewrite updateBody_run, IH by exact Hnd.
    simpl. do 2 f_equal.
    apply flat_map_ext_in'. intros q Hq.
    apply pageCalls_frame; try reflexivity. simpl.
    apply lookup_delete_ne. intros ->.
    apply Hp, list_elem_of_In, Hq.
Qed.

Lemma updateDisplay_run (d : display) :
  updateDisplay d
  = (tt,
     set_dirtyBytes d
       (fold_left (fun m p => delete p m) (sortedKeys (dirtyBytes d))
                  (dirtyBytes d)),
     flat_map (pageCalls d) (sortedKeys (dirtyBytes d))).
Proof.
  unfold updateDisplay, mbind, io_bind. unfold bind at 1. unfold this at 1.
  pose proof (updateDisplay_loop (sortedKeys (dirtyBytes d)) d
                (NoDup_sortedKeys _)) as Hloop.
  destruct (bool_decide (sortedKeys (dirtyBytes d) = [])) eqn:E.
  - apply bool_decide_eq_true in E. rewrite E. simpl. unfold mret, io_ret, ret.
    by destruct d.
  - rewrite Hloop. reflexivity.
Qed.

Lemma lookup_fold_delete {V : Type} (l : list Z) (m : gmap Z V) (k : Z) :
  fold_left (fun m p => delete p m) l m !! k
  = if decide (k ∈ l) then None else m !! k.
Proof.
  revert m. induction l as [|p l IH]; intros m; simpl.
  - destruct (decide (k ∈ [])) as [H|]; [by apply elem_of_nil in H | done].
  - rewrite IH.
    destruct (decide (k ∈ l)) as [Hin|Hnin].
    + rewrite decide_True by (by right). reflexivity.
    + destruct (decide (k = p)) as [->|Hne].
      * rewrite decide_True by (by left). apply lookup_delete_eq.
      * rewrite decide_False by (rewrite elem_of_cons; tauto).
        by apply lookup_delete_ne.
Qed.

(** [updateDisplay] leaves no dirty page behind. *)
Lemma updateDisplay_clears (d : display) :
  dirtyBytes (exec updateDisplay d) = ∅.
Proof.
  unfold exec. rewrite updateDisplay_run. simpl.
  apply map_empty. intros k. rewrite lookup_fold_delete.
  destruct (decide (k ∈ sortedKeys (dirtyBytes d))) as [|Hk]; [reflexivity|].
  rewrite elem_of_sortedKeys in Hk.
  destruct (dirtyBytes d !! k); [|reflexivity].
  exfalso. apply Hk. eauto.
Qed.

Lemma updateDisplay_calls (d : display) :
  calls updateDisplay d = flat_map (pageCalls d) (sortedKeys (dirtyBytes d)).
Proof. unfold calls. rewrite updateDisplay_run. reflexivity. Qed.

(** The transfer of one dirty page by [updateDisplay]. *)
Lemma updateDisplay_page_transfer (d : display) (p off : Z)
    (cols : gmap Z jsval) :
  dirtyBytes d !! p = Some cols ->
  cols <> ∅ ->
  columnOffset (Config d) = Some off ->
  let minX := minList (sortedKeys cols) in
  let maxX := maxList (sortedKeys cols) in
  0 <= p * displayColumns (Config d) + minX ->
  p * displayColumns (Config d) + maxX < Z.of_nat (length (buffer d)) ->
  (is_Some (cols !! minX) /\ is_Some (cols !! maxX)
   /\ forall x, is_Some (cols !! x) -> minX <= x <= maxX)
  /\ exists (l1 l2 : list Z) (bytes : list Z),
       sortedKeys (dirtyBytes d) = l1 ++ p :: l2
       /\ (p ∉ l1) /\ (p ∉ l2)
       /\ calls updateDisplay d
          = flat_map (pageCalls d) l1
            ++ [SendCommand (addressHeader p (minX + off)); SendData bytes]
            ++ flat_map (pageCalls d) l2
       /\ bytes = take (Z.to_nat (maxX - minX + 1))
                       (drop (Z.to_nat (p * displayColumns (Config d) + minX))
                             (buffer d))
       /\ Z.of_nat (length bytes) = maxX - minX + 1
       /\ dirtyBytes (exec updateDisplay d) !! p = None.
Proof.
  intros Hp Hcols Hoff minX maxX Hlo Hhi.
  assert (Hne : sortedKeys cols <> []) by (by rewrite sortedKeys_nil).
  destruct (minList_spec _ Hne) as [Hmin_in Hmin].
  destruct (maxList_spec _ Hne) as [Hmax_in Hmax].
  fold minX in Hmin_in, Hmin. fold maxX in Hmax_in, Hmax.
  assert (Hle : minX <= maxX) by (apply Hmin, Hmax_in).
  split.
  { split; [|split].
    - apply elem_of_sortedKeys, list_elem_of_In, Hmin_in.
    - apply elem_of_sortedKeys, list_elem_of_In, Hmax_in.
    - intros x Hx. apply elem_of_sortedKeys, list_elem_of_In in Hx.
      split; [apply Hmin | apply Hmax]; exact Hx. }
  assert (Hin : p ∈ sortedKeys (dirtyBytes d))
    by (apply elem_of_sortedKeys; eauto).
  apply list_elem_of_split in Hin as (l1 & l2 & Hsplit).
  pose proof (NoDup_sortedKeys (dirtyBytes d)) as Hnd.
  rewrite Hsplit in Hnd. apply NoDup_app in Hnd as (_ & Hl1 & Hnd).
  apply NoDup_cons in Hnd as [Hl2 _].
  destruct (buffer_slice_in (buffer d)
              (p * displayColumns (Config d) + minX)
              (p * displayColumns (Config d) + minX + (maxX - minX) + 1))
    as [Hs Hl]; [lia | lia |].
  exists l1, l2,
    (buffer_slice (buffer d) (p * displayColumns (Config d) + minX)
       (p * displayColumns (Config d) + minX + (maxX - minX) + 1)).
  split; [exact Hsplit|].
  split; [intros H; apply (Hl1 p H); by left|]. split; [exact Hl2|].
  split; [|split; [|split]].
  - rewrite updateDisplay_calls, Hsplit, flat_map_app. f_equal.
    cbn [flat_map]. f_equal.
    unfold pageCalls at 1. rewrite Hp. cbn [default].
    rewrite bool_decide_eq_false_2 by exact Hne.
    fold minX maxX. rewrite Hoff, addressHeader_int32. reflexivity.
  - rewrite Hs. do 2 f_equal. lia.
  - rewrite Hl. lia.
  - rewrite updateDisplay_clears. apply lookup_empty.
Qed.

(** C4 as stated fails in two places.  With no [columnOffset] configured,
    [minx + this.Config.columnOffset] is NaN and the header addresses column
    0 whatever [minX] is: for the dirty columns 2, 5 and 9 the eight bytes
    from column 2 on are sent behind the header of column 0.  And a clip
    predicate that lets a row beyond the buffer through leaves a dirty entry
    whose byte does not exist: for the pixel (0, 2048) page 256 is dirty and
    [updateDisplay] sends a header followed by no byte at all, not
    [maxX - minX + 1 = 1]. *)
Lemma updateDisplay_column_zero_and_no_byte :
  (let d := drawPixels [(2, 0, WHITE); (5, 0, WHITE); (9, 0, WHITE)]
              (construct cfgNoOffset) in
   sortedKeys (default ∅ (dirtyBytes d !! 0)) = [2; 5; 9]
   /\ calls updateDisplay d
      = [SendCommand [0xB0; 0x00; 0x10]; SendData [1; 0; 0; 1; 0; 0; 0; 1]]
   /\ addressHeader 0 2 = [0xB0; 0x02; 0x10])
  /\ (let d := drawPixels [(0, 2048, WHITE)]
                 (setClipped clipNothing (construct cfg16)) in
      sortedKeys (dirtyBytes d) = [256]
      /\ sortedKeys (default ∅ (dirtyBytes d !! 256)) = [0]
      /\ calls updateDisplay d
         = [SendCommand (addressHeader 256 (0 + 2)); SendData []]).
Proof. vm_compute. repeat split. Qed.

(** C4, amended.  On a display with a configured [columnOffset], for a page
    [p] whose dirty set of touched columns is not empty and lies inside the
    buffer (as it always does when no clip predicate is installed),
    [updateDisplay] sends, exactly once, the 3-command address header of page
    [p] for the column [minX + columnOffset], followed by the
    [maxX - minX + 1] consecutive buffer bytes of the page that start at
    column [minX], where [minX] and [maxX] are the least and the greatest
    dirty column; afterwards the dirty set of the page is deleted. *)
Theorem updateDisplay_dirty_page (d : display) (p off : Z)
    (cols : gmap Z jsval) :
  dirtyBytes d !! p = Some cols ->
  cols <> ∅ ->
  columnOffset (Config d) = Some off ->
  let minX := minList (sortedKeys cols) in
  let maxX := maxList (sortedKeys cols) in
  0 <= p * displayColumns (Config d) + minX ->
  p * displayColumns (Config d) + maxX < Z.of_nat (length (buffer d)) ->
  (is_Some (cols !! minX) /\ is_Some (cols !! maxX)
   /\ forall x, is_Some (cols !! x) -> minX <= x <= maxX)
  /\ exists (l1 l2 : list Z) (bytes : list Z),
       sortedKeys (dirtyBytes d) = l1 ++ p :: l2
       /\ (p ∉ l1) /\ (p ∉ l2)
       /\ calls updateDisplay d
          = flat_map (pageCalls d) l1
            ++ [SendCommand (addressHeader p (minX + off)); SendData bytes]
            ++ flat_map (pageCalls d) l2
       /\ bytes = take (Z.to_nat (maxX - minX + 1))
                       (drop (Z.to_nat (p * displayColumns (Config d) + minX))
                             (buffer d))
       /\ Z.of_nat (length bytes) = maxX - minX + 1
       /\ dirtyBytes (exec updateDisplay d) !! p = None.
Proof.
  intros Hp Hcols Hoff minX maxX Hlo Hhi.
  exact (updateDisplay_page_transfer d p off cols Hp Hcols Hoff Hlo Hhi).
Qed.


Lemma updateDisplay_dirty_page_witness :
  sortedKeys (default ∅ (dirtyBytes dirty259 !! 0)) = [2; 5; 9]
  /\ calls updateDisplay dirty259
     = [SendCommand [0xB0; 0x04; 0x10]; SendData [1; 0; 0; 1; 0; 0; 0; 1]]
  /\ exists (l1 l2 : list Z) (bytes : list Z),
       sortedKeys (dirtyBytes dirty259) = l1 ++ 0 :: l2
       /\ (0 ∉ l1) /\ (0 ∉ l2)
       /\ calls updateDisplay dirty259
          = flat_map (pageCalls dirty259) l1
            ++ [SendCommand (addressHeader 0 (2 + 2)); SendData bytes]
            ++ flat_map (pageCalls dirty259) l2
       /\ bytes = take (Z.to_nat (9 - 2 + 1))
                       (drop (Z.to_nat (0 * 16 + 2)) (buffer dirty259))
       /\ Z.of_nat (length bytes) = 9 - 2 + 1
       /\ dirtyBytes (exec updateDisplay dirty259) !! 0 = None.
Proof.
  split; [reflexivity|]. split; [reflexivity|].
  refine (proj2 (updateDisplay_dirty_page dirty259 0 2
                   {[ 2 := Num 1; 5 := Num 1; 9 := Num 1 ]} _ _ _ _ _)).
  - reflexivity.
  - intros H. apply (f_equal (fun m => m !! 2)) in H. discriminate H.
  - reflexivity.
  - vm_compute. discriminate.
  - vm_compute. reflexivity.
Defined.

(** ** Full sync followed by incremental sync *)

(** C8 as stated fails: [sendBuffer] does not empty the dirty map.  After
    one pixel has been drawn, [sendBuffer] followed at once by
    [updateDisplay] makes [updateDisplay] send the header and the byte of the
    dirty page. *)
Lemma updateDisplay_after_sendBuffer_sends :
  reachable (drawPixels [(0, 0, WHITE)] (construct cfg16))
  /\ calls updateDisplay
       (exec sendBuffer (drawPixels [(0, 0, WHITE)] (construct cfg16)))
     = [SendCommand [0xB0; 0x02; 0x10]; SendData [1]]
  /\ calls updateDisplay
       (exec sendBuffer (drawPixels [(0, 0, WHITE)] (construct cfg16)))
     <> [].
Proof.
  split; [apply reach_drawPixels, reach_construct|].
  split; [reflexivity | discriminate].
Qed.

Lemma updateDisplay_idle (d : display) :
  dirtyBytes d = ∅ -> calls updateDisplay d = [] /\ exec updateDisplay d = d.
Proof.
  intros H. unfold calls, exec. rewrite updateDisplay_run, H.
  unfold sortedKeys. rewrite map_to_list_empty. simpl.
  split; [reflexivity|]. destruct d; simpl in *. by rewrite H.
Qed.

(** C8, amended.  In a state whose dirty map is empty - right after the
    constructor, or after an [updateDisplay] that no drawing has followed -
    [sendBuffer] followed at once by [updateDisplay] makes [updateDisplay]
    issue no transport call and leaves the state as it was.  [sendBuffer]
    itself keeps the dirty map. *)
Theorem updateDisplay_after_sendBuffer_idle (d : display) :
  dirtyBytes d = ∅ ->
  calls updateDisplay (exec sendBuffer d) = []
  /\ exec updateDisplay (exec sendBuffer d) = d
  /\ dirtyBytes (exec sendBuffer d) = ∅.
Proof.
  intros H.
  destruct (sendBuffer_reads_only_state d) as [-> _].
  destruct (updateDisplay_idle d H) as [H1 H2].
  repeat split; assumption.
Qed.

Lemma updateDisplay_after_sendBuffer_idle_witness :
  calls updateDisplay (exec sendBuffer (exec updateDisplay dirty259)) = []
  /\ exec updateDisplay (exec sendBuffer (exec updateDisplay dirty259))
     = exec updateDisplay dirty259
  /\ dirtyBytes (exec sendBuffer (exec updateDisplay dirty259)) = ∅.
Proof.
  apply (updateDisplay_after_sendBuffer_idle (exec updateDisplay dirty259)).
  reflexivity.
Defined.

(** ** drawFillRect with an empty extent *)

Lemma drawFillRect_no_width (x y w h : Z) (c : color) (d : display) :
  w <= 0 -> drawFillRect x y w h c d = d.
Proof.
  intros Hw. unfold drawFillRect.
  replace (Z.to_nat w) with 0%nat by lia. reflexivity.
Qed.

Lemma length_linePoints_vertical (i ya yb : Z) (c : color) :
  safe i -> safe ya -> safe yb ->
  length (linePoints i ya i yb c) = S (Z.to_nat (Z.abs (yb - ya))).
Proof.
  intros Hi Hya Hyb. rewrite linePoints_vertical by assumption.
  by rewrite length_map, length_seq.
Qed.

Lemma safe_between (a b i : Z) : safe a -> safe b -> a <= i <= b -> safe i.
Proof. unfold safe. lia. Qed.

(** With [h <= 0] every column of the rectangle is the line from [y] up to
    [y + h - 1], which has [2 - h] pixels. *)
Lemma length_rectPoints_no_height (x y w h : Z) (c : color) :
  safe x -> safe (x + w) -> safe y -> safe (y + h - 1) ->
  0 <= w -> h <= 0 ->
  Z.of_nat (length (rectPoints x y w h c)) = w * (2 - h).
Proof.
  intros Hx Hxw Hy Hyh Hw Hh. unfold rectPoints.
  rewrite (length_flat_map_const _ (S (Z.to_nat (Z.abs (y + h - 1 - y))))).
  - rewrite length_zrange. lia.
  - intros i Hi. apply in_zrange in Hi.
    apply length_linePoints_vertical; auto.
    apply (safe_between x (x + w)); auto. lia.
Qed.

(** C6 does not hold of [drawFillRect] for [h <= 0] when [w > 0]: the loop
    over the columns still runs, and each column is drawn as the line from
    [(i, y)] to [(i, y + h - 1)], which [drawLine] walks upwards.  On an
    empty 16 x 16 display [drawFillRect(0, 1, 1, 0, 'WHITE')] sets the pixels
    (0, 1) and (0, 0): byte 0 becomes 3 and the entry (0, 0) -> 3 is
    recorded.  For [w <= 0] nothing is drawn. *)
Theorem drawFillRect_no_height_draws :
  rectPoints 0 1 1 0 WHITE = [(0, 1, WHITE); (0, 0, WHITE)]
  /\ buffer (construct cfg16) !! 0%nat = Some 0
  /\ buffer (drawFillRect 0 1 1 0 WHITE (construct cfg16)) !! 0%nat = Some 3
  /\ dirtyBytes (construct cfg16) = ∅
  /\ dirtyBytes (drawFillRect 0 1 1 0 WHITE (construct cfg16))
     = {[ 0 := {[ 0 := Num 3 ]} ]}
  /\ (forall x y w h c,
         safe x -> safe (x + w) -> safe y -> safe (y + h - 1) ->
         0 <= w -> h <= 0 ->
         Z.of_nat (length (rectPoints x y w h c)) = w * (2 - h))
  /\ (forall x y w h c d, w <= 0 -> drawFillRect x y w h c d = d).
Proof.
  split; [reflexivity|]. split; [reflexivity|]. split; [reflexivity|].
  split; [reflexivity|]. split; [reflexivity|].
  split; [exact length_rectPoints_no_height | exact drawFillRect_no_width].
Qed.

(** ** Word wrap *)

Lemma zip_seq_lookup {A : Type} (l : list A) :
  forall (k i : nat) (a : A),
    l !! i = Some a -> zip (seq k (length l)) l !! i = Some ((k + i)%nat, a).
Proof.
  induction l as [|b l IH]; intros k i a Hi; [discriminate|].
  destruct i as [|i]; simpl in *.
  - injection Hi as ->. by rewrite Nat.add_0_r.
  - rewrite (IH (S k) i a Hi). do 2 f_equal. lia.
Qed.

Lemma fold_left_take_drop {S A : Type} (f : S -> A -> S) (l : list A)
    (n : nat) (s : S) :
  fold_left f l s = fold_left f (drop n l) (fold_left f (take n l) s).
Proof. by rewrite <- fold_left_app, take_drop. Qed.

(** [colOffset] is the cursor column whenever a word or a character is
    reached. *)
Lemma drawChar_colOffset (wrap : bool) (fim : fontIM) (st : Z * display)
    (ch : ascii) :
  fst st = cursorx (snd st) ->
  fst (drawChar wrap fim st ch) = cursorx (snd (drawChar wrap fim st ch)).
Proof.
  destruct st as [co d]. cbn [fst snd]. intros Hco. unfold drawChar.
  destruct (Ascii.eqb ch newline); [reflexivity|].
  destruct (glyphs fim !! ch) as [g|]; [|exact Hco].
  case_if; reflexivity.
Qed.

Lemma drawWord_colOffset (wrap : bool) (fim : fontIM) (n : nat)
    (st : Z * display) (w : nat * string) :
  fst st = cursorx (snd st) ->
  fst (drawWord wrap fim n st w) = cursorx (snd (drawWord wrap fim n st w)).
Proof.
  destruct w as [wi word]. intros Hco. unfold drawWord.
  apply (fold_left_invariant
           (fun st : Z * display => fst st = cursorx (snd st))).
  - intros st' ch. apply drawChar_colOffset.
  - destruct st as [co d]. unfold wrapWord. case_if; [reflexivity|exact Hco].
Qed.

Lemma beforeWord_colOffset (str : string) (fim : fontIM) (wrap : bool)
    (d : display) (wi : nat) :
  fst (beforeWord str fim wrap d wi)
  = cursorx (snd (beforeWord str fim wrap d wi)).
Proof.
  unfold beforeWord.
  apply (fold_left_invariant
           (fun st : Z * display => fst st = cursorx (snd st)));
    [|reflexivity].
  intros st w. apply drawWord_colOffset.
Qed.

(** [drawString] is its loop over the words, cut at any word. *)
Lemma drawString_from_word (str : string) (fim : fontIM) (wrap : bool)
    (d : display) (wi : nat) (word : string) :
  split_spaces str !! wi = Some word ->
  beforeWord str fim wrap d (S wi)
  = drawWord wrap fim (length (split_spaces str))
      (beforeWord str fim wrap d wi) (wi, word)
  /\ drawString str fim wrap d
     = snd (fold_left (drawWord wrap fim (length (split_spaces str)))
              (wordsAfter str wi) (beforeWord str fim wrap d (S wi))).
Proof.
  intros Hw. unfold beforeWord, drawString, wordsAfter. split.
  - rewrite (take_S_r _ wi (wi, word)) by (by apply (zip_seq_lookup _ 0)).
    by rewrite fold_left_app.
  - f_equal. apply fold_left_take_drop.
Qed.

(** C7 as stated fails for the first word: the wrap test contains [wi], so
    it is skipped when [wi = 0].  On a 16-column display with the cursor at
    column 14, the word "AA" of a 2-pixel-wide font needs 4 columns; the
    cursor is not moved before the word, and the first glyph is drawn at
    column 14 of row 0.  It fails as well for a later word when the cursor
    column is not zero but negative, since the test is [colOffset > 0]: with
    the cursor at column -27 the second word of [" AAAAAAAAAAAAAAAAAAAAAA"],
    44 columns wide, is not moved to the next line, and its tenth glyph is
    drawn at column 0 of row 0. *)
Lemma first_word_and_negative_column_are_not_wrapped :
  (let d := setCursor 14 0 (construct cfg16) in
   split_spaces "AA" !! 0%nat = Some "AA"%string
   /\ beforeWord "AA" fimA true d 0 = (cursorx d, d)
   /\ cursorx d <> 0
   /\ cursorx d + fim_width fimA * Z.of_nat (String.length "AA")
      > displayColumns (Config d)
   /\ wrapWord true fimA 0 "AA" (cursorx d, d) = (cursorx d, d)
   /\ wrapWord true fimA 0 "AA" (cursorx d, d) <> (0, nextLine fimA d)
   /\ buffer (drawString "AA" fimA true d) !! 14%nat = Some 0x41
   /\ buffer (drawString "AA" fimA true d) !! 15%nat = Some 0x3f)
  /\ (let d := setCursor (-27) 0 (construct cfg16) in
      let str := " AAAAAAAAAAAAAAAAAAAAAA"%string in
      let word := "AAAAAAAAAAAAAAAAAAAAAA"%string in
      split_spaces str !! 1%nat = Some word
      /\ beforeWord str fimA true d 1 = (-27, d)
      /\ cursorx d = -27
      /\ -27 + fim_width fimA * Z.of_nat (String.length word)
         > displayColumns (Config d)
      /\ wrapWord true fimA 1 word (-27, d) = (-27, d)
      /\ wrapWord true fimA 1 word (-27, d) <> (0, nextLine fimA d)
      /\ buffer (drawString str fimA true d) !! 0%nat = Some 0x41
      /\ buffer (drawString str fimA true d) !! 1%nat = Some 0x3f).
Proof.
  split.
  - simpl. split; [reflexivity|]. split; [reflexivity|].
    split; [discriminate|]. split; [reflexivity|].
    split; [reflexivity|]. split; [discriminate|]. split; reflexivity.
  - cbv zeta. split; [reflexivity|]. split; [reflexivity|].
    split; [reflexivity|]. split; [reflexivity|].
    split; [reflexivity|]. split; [discriminate|].
    split; vm_compute; reflexivity.
Qed.

(** C7, amended.  In [drawString] with wrapping enabled, for every word of
    the string but the first such that, when the loop reaches the word, the
    cursor column is positive and
    [cursorColumn + glyphWidth * wordLength] exceeds [displayColumns], the
    layout moves to the next line (column 0, row increased by
    [glyphHeight + lineSpacing], nothing drawn) before any character of the
    word is drawn: the characters of the word are drawn from that position,
    and the rest of the string follows. *)
Theorem later_words_are_wrapped (str : string) (fim : fontIM) (d : display)
    (wi : nat) (word : string) :
  split_spaces str !! wi = Some word ->
  wi <> 0%nat ->
  let st := beforeWord str fim true d wi in
  let line := nextLine fim (snd st) in
  0 < cursorx (snd st) ->
  cursorx (snd st) + fim_width fim * Z.of_nat (String.length word)
  > displayColumns (Config (snd st)) ->
  fst st = cursorx (snd st)
  /\ (cursorx line = 0
      /\ cursory line
         = cursory (snd st) + (fim_height fim + lineSpacing (Config (snd st)))
      /\ buffer line = buffer (snd st)
      /\ dirtyBytes line = dirtyBytes (snd st)
      /\ Config line = Config (snd st))
  /\ beforeWord str fim true d (S wi)
     = fold_left (drawChar true fim) (wordChars str wi word) (0, line)
  /\ drawString str fim true d
     = snd (fold_left (drawWord true fim (length (split_spaces str)))
              (wordsAfter str wi) (beforeWord str fim true d (S wi))).
Proof.
  intros Hw Hwi st line Hco Hwide.
  pose proof (beforeWord_colOffset str fim true d wi) as Hcol.
  fold st in Hcol.
  destruct (drawString_from_word str fim true d wi word Hw) as [Hnext Hrest].
  split; [exact Hcol|]. split; [repeat split|]. split; [|exact Hrest].
  rewrite Hnext. fold st. unfold drawWord, wordChars.
  replace (wrapWord true fim wi word st) with (0, line); [reflexivity|].
  unfold line. destruct st as [co dw]. cbn [fst snd] in *. subst co.
  unfold wrapWord.
  replace (Nat.eqb wi 0) with false by (symmetry; apply Nat.eqb_neq; exact Hwi).
  replace (cursorx dw >? 0) with true by (symmetry; apply Z.gtb_lt; lia).
  replace (cursorx dw + fim_width fim * Z.of_nat (String.length word)
           >? displayColumns (Config dw)) with true
    by (symmetry; apply Z.gtb_lt; lia).
  reflexivity.
Qed.

Lemma later_words_are_wrapped_witness :
  let st := beforeWord "AAAA AAA" fimA true (construct cfg16) 1 in
  let line := nextLine fimA (snd st) in
  (cursorx (snd st) = 12 /\ cursory (snd st) = 0)
  /\ fst st = cursorx (snd st)
  /\ (cursorx line = 0
      /\ cursory line
         = cursory (snd st)
           + (fim_height fimA + lineSpacing (Config (snd st)))
      /\ buffer line = buffer (snd st)
      /\ dirtyBytes line = dirtyBytes (snd st)
      /\ Config line = Config (snd st))
  /\ beforeWord "AAAA AAA" fimA true (construct cfg16) 2
     = fold_left (drawChar true fimA) (wordChars "AAAA AAA" 1 "AAA")
         (0, line)
  /\ drawString "AAAA AAA" fimA true (construct cfg16)
     = snd (fold_left
              (drawWord true fimA (length (split_spaces "AAAA AAA")))
              (wordsAfter "AAAA AAA" 1)
              (beforeWord "AAAA AAA" fimA true (construct cfg16) 2)).
Proof.
  cbv zeta. split; [split; reflexivity|].
  apply (later_words_are_wrapped "AAAA AAA" fimA (construct cfg16) 1 "AAA").
  - reflexivity.
  - lia.
  - vm_compute. reflexivity.
  - vm_compute. reflexivity.
Defined.

(** ** The invariant of the display without clip predicate *)

Lemma buffer_set_length (buf : list Z) (i : Z) (v : jsval) :
  length (buffer_set buf i v) = length buf.
Proof.
  unfold buffer_set. destruct (i <? 0); [reflexivity | apply length_insert].
Qed.

Lemma buffer_set_bytes (buf : list Z) (i : Z) (v : jsval) :
  Forall (fun b => 0 <= b < 256) buf ->
  Forall (fun b => 0 <= b < 256) (buffer_set buf i v).
Proof.
  intros H. unfold buffer_set. destruct (i <? 0); [exact H|].
  destruct (decide (Z.to_nat i < length buf)%nat) as [Hlt|Hge].
  - apply Forall_insert; [exact H|].
    unfold to_uint8. apply Z.mod_pos_bound. lia.
  - rewrite list_insert_ge by lia. exact H.
Qed.

Lemma mark_dirty_in (page x : Z) (b : jsval) (m : gmap Z (gmap Z jsval))
    (p : Z) (cols : gmap Z jsval) (x' : Z) :
  mark_dirty page x b m !! p = Some cols -> is_Some (cols !! x') ->
  (p = page /\ x' = x)
  \/ exists cols', m !! p = Some cols' /\ is_Some (cols' !! x').
Proof.
  unfold mark_dirty. intros Hp Hx.
  destruct (decide (p = page)) as [->|Hne].
  - rewrite lookup_insert_eq in Hp. inversion Hp; subst cols.
    destruct (decide (x' = x)) as [->|Hnx]; [left; auto|].
    rewrite lookup_insert_ne in Hx by congruence.
    destruct (m !! page) as [cols'|] eqn:E; simpl in Hx.
    + right. eauto.
    + rewrite lookup_empty in Hx. by destruct Hx.
  - rewrite lookup_insert_ne in Hp by congruence. right. eauto.
Qed.

(** A store of the drawing code keeps the invariant when the dirty entry it
    records names a column and a page of the display. *)
Lemma store_ok (d : display) (off page x : Z) (b : jsval) :
  state_ok d ->
  0 <= x < displayColumns (Config d) ->
  0 <= page -> 8 * page < displayRows (Config d) ->
  state_ok {| Config := Config d;
              buffer := buffer_set (buffer d) off b;
              dirtyBytes := mark_dirty page x b (dirtyBytes d);
              cursorx := cursorx d; cursory := cursory d |}.
Proof.
  intros (Hnone & [Hlen Hbytes] & Hdirty) Hx Hp0 Hp1.
  split; [exact Hnone|]. split.
  - split; simpl; [by rewrite buffer_set_length | by apply buffer_set_bytes].
  - intros p cols x' Hl Hx'. simpl in *.
    destruct (mark_dirty_in _ _ _ _ _ _ _ Hl Hx') as [[-> ->]|(c & Hc & Hx'')].
    + auto.
    + eapply Hdirty; eauto.
Qed.

Lemma unclipped_default (d : display) (x y : option Z) :
  clippedMethod (Config d) = None ->
  clipped d x y = false ->
  (forall x', x = Some x' -> 0 <= x' < displayColumns (Config d))
  /\ (forall y', y = Some y' -> 0 <= y' < displayRows (Config d)).
Proof.
  intros Hnone. unfold clipped. rewrite Hnone.
  destruct x as [x'|], y as [y'|]; intros H; split; intros z Hz;
    inversion Hz; subst;
    repeat match type of H with
           | context [Z.ltb ?a ?b] => destruct (Z.ltb_spec a b); simpl in H
           | context [Z.geb ?a ?b] => destruct (Z.geb_spec a b); simpl in H
           end; try discriminate; lia.
Qed.

Lemma page_of_row (rows y : Z) :
  0 <= y < rows -> 0 <= y / 8 /\ 8 * (y / 8) < rows.
Proof.
  intros Hy. pose proof (Z.div_mod y 8 ltac:(lia)).
  pose proof (Z.mod_pos_bound y 8 ltac:(lia)). lia.
Qed.

Lemma drawPixel_ok (d : display) (p : pixel) :
  state_ok d -> state_ok (drawPixel d p).
Proof.
  intros Hok. destruct p as [[x y] c]. unfold drawPixel.
  destruct (clipped d (Some x) (Some y)) eqn:Hclip; [exact Hok|].
  destruct (unclipped_default d _ _ (proj1 Hok) Hclip) as [Hx Hy].
  specialize (Hx x eq_refl). specialize (Hy y eq_refl).
  destruct (page_of_row _ _ Hy).
  case_neq; [|exact Hok].
  apply store_ok; assumption.
Qed.

Lemma drawPixels_ok (ps : list pixel) (d : display) :
  state_ok d -> state_ok (drawPixels ps d).
Proof. apply fold_left_invariant. intros; by apply drawPixel_ok. Qed.

Lemma saveByte_ok (dxx : Z) (s : blit) :
  blit_ok s -> 0 <= dxx < displayColumns (Config (target s)) ->
  state_ok (saveByte dxx s).
Proof.
  intros [Hok Hpage] Hdxx. unfold saveByte.
  destruct (js_strict_neq (dxxByte s) Null) eqn:Hnull; simpl; [|exact Hok].
  case_neq; [|exact Hok].
  destruct Hpage as [[Hn _]|[Hp0 Hp1]].
  - rewrite Hn in Hnull. discriminate.
  - apply store_ok; assumption.
Qed.

Lemma blitPixel_ok (img : image) (x dxx y dyy : Z) (s : blit) :
  blit_ok s ->
  0 <= dxx < displayColumns (Config (target s)) ->
  0 <= dyy < displayRows (Config (target s)) ->
  blit_ok (blitPixel img x dxx y dyy s)
  /\ 0 <= page (blitPixel img x dxx y dyy s).
Proof.
  intros Hs Hdxx Hdyy.
  destruct (page_of_row _ _ Hdyy) as [Hp0 Hp1].
  assert (Hentered :
            exists s', blit_ok s' /\ 0 <= page s'
                       /\ 8 * page s' < displayRows (Config (target s'))
                       /\ (if dyy / 8 >? page s then
                             {| page := dyy / 8;
                                dxxByte :=
                                  buffer_get (buffer (saveByte dxx s))
                                    (dyy / 8
                                     * displayColumns (Config (saveByte dxx s))
                                     + dxx);
                                bufferOffset :=
                                  dyy / 8
                                  * displayColumns (Config (saveByte dxx s))
                                  + dxx;
                                target := saveByte dxx s |}
                           else s) = s').
  { destruct (dyy / 8 >? page s) eqn:Hgt.
    - eexists. split; [|split; [|split; [|reflexivity]]]; simpl.
      + split; simpl; [by apply saveByte_ok|].
        right. rewrite saveByte_Config. auto.
      + exact Hp0.
      + rewrite saveByte_Config. exact Hp1.
    - exists s. rewrite Z.gtb_ltb in Hgt. apply Z.ltb_ge in Hgt.
      destruct Hs as [Hok [[_ Hm]|[Hq0 Hq1]]]; [lia|].
      split; [split; auto|]. auto. }
  destruct Hentered as (s' & [Hok' _] & Hq0 & Hq1 & Heq).
  unfold blitPixel. rewrite Heq.
  match goal with |- context [if ?b then s' else _] => destruct b end.
  - split; [split; auto | exact Hq0].
  - split; [split; simpl; auto | exact Hq0].
Qed.

Lemma blitRow_ok (dy : Z) (img : image) (x dxx : Z) (s : blit) (y : Z) :
  blit_ok s ->
  0 <= dxx < displayColumns (Config (target s)) ->
  blit_ok (blitRow dy img x dxx s y)
  /\ Config (target (blitRow dy img x dxx s y)) = Config (target s).
Proof.
  intros Hs Hdxx. unfold blitRow.
  destruct (clipped (target s) None (Some (dy + y))) eqn:Hclip; [auto|].
  destruct (unclipped_default _ _ _ (proj1 (proj1 Hs)) Hclip) as [_ Hy].
  split; [apply blitPixel_ok; auto | apply blitPixel_Config].
Qed.

Lemma blitColumn_ok (dx dy : Z) (img : image) (s : blit) (x : Z) :
  state_ok (target s) /\ dxxByte s = Null ->
  state_ok (target (blitColumn dx dy img s x))
  /\ dxxByte (blitColumn dx dy img s x) = Null.
Proof.
  intros [Hok Hnull]. unfold blitColumn.
  destruct (clipped (target s) (Some (dx + x)) None) eqn:Hclip; [auto|].
  destruct (unclipped_default _ _ _ (proj1 Hok) Hclip) as [Hx _].
  specialize (Hx _ eq_refl).
  unfold blitVisibleColumn. simpl. split; [|reflexivity].
  set (s0 := {| page := -1; dxxByte := dxxByte s;
                bufferOffset := bufferOffset s; target := target s |}).
  assert (H : blit_ok (fold_left (blitRow dy img x (dx + x))
                         (zrange 0 (Z.to_nat (img_height img))) s0)
              /\ Config (target (fold_left (blitRow dy img x (dx + x))
                                   (zrange 0 (Z.to_nat (img_height img))) s0))
                 = Config (target s)).
  { apply (fold_left_invariant
             (fun s' => blit_ok s' /\ Config (target s') = Config (target s))).
    - intros s' y [Hs' Hc'].
      destruct (blitRow_ok dy img x (dx + x) s' y Hs') as [H1 H2];
        [by rewrite Hc'|].
      split; [exact H1 | by rewrite H2].
    - split; [|reflexivity]. split; [exact Hok|]. left. auto. }
  destruct H as [Hb Hc]. apply saveByte_ok; [exact Hb | by rewrite Hc].
Qed.

Lemma drawImage_ok (dx dy : Z) (img : image) (d : display) :
  state_ok d -> state_ok (drawImage dx dy img d).
Proof.
  intros Hok. unfold drawImage.
  apply (fold_left_invariant
           (fun s => state_ok (target s) /\ dxxByte s = Null)
           (blitColumn dx dy img)).
  - intros s x. apply blitColumn_ok.
  - split; [exact Hok | reflexivity].
Qed.

Lemma drawLine_ok (x0 y0 x1 y1 : Z) (c : color) (d : display) :
  state_ok d -> state_ok (drawLine x0 y0 x1 y1 c d).
Proof. rewrite drawLine_linePoints. apply drawPixels_ok. Qed.

Lemma drawFillRect_ok (x y w h : Z) (c : color) (d : display) :
  state_ok d -> state_ok (drawFillRect x y w h c d).
Proof. rewrite drawFillRect_rectPoints. apply drawPixels_ok. Qed.

Lemma setCursor_ok (x y : Z) (d : display) :
  state_ok d -> state_ok (setCursor x y d).
Proof. intros H. exact H. Qed.

Lemma clearBuffer_ok (d : display) : state_ok d -> state_ok (clearBuffer d).
Proof.
  intros (Hnone & [Hlen _] & Hdirty). split; [exact Hnone|]. split.
  - split; simpl; [by rewrite length_replicate|].
    apply Forall_replicate. lia.
  - exact Hdirty.
Qed.

Lemma drawChar_ok (wrap : bool) (fim : fontIM) (st : Z * display) (ch : ascii) :
  state_ok (snd st) -> state_ok (snd (drawChar wrap fim st ch)).
Proof.
  destruct st as [co d]. simpl. intros Hok. unfold drawChar.
  destruct (Ascii.eqb ch newline); [exact Hok|].
  destruct (glyphs fim !! ch) as [g|]; [|exact Hok].
  match goal with
  | |- context [drawFillRect ?a ?b ?c ?e ?f (drawFillRect ?a' ?b' ?c' ?e' ?f' ?d')] =>
      assert (H2 : state_ok (drawFillRect a b c e f
                               (drawFillRect a' b' c' e' f' d')))
        by (apply drawFillRect_ok, drawFillRect_ok, drawImage_ok, Hok)
  end.
  pose proof (drawImage_ok co (cursory d) g d Hok) as H1.
  destruct (negb (img_channels g =? 2) && negb (img_channels g =? 4));
    case_if;
    assumption.
Qed.

Lemma drawString_ok (str : string) (fim : fontIM) (wrap : bool) (d : display) :
  state_ok d -> state_ok (drawString str fim wrap d).
Proof.
  intros Hok. unfold drawString.
  apply (fold_left_invariant (fun st : Z * display => state_ok (snd st)));
    [|exact Hok].
  intros st [wi word] Hst. unfold drawWord.
  apply (fold_left_invariant (fun st : Z * display => state_ok (snd st))).
  - intros st' ch. apply drawChar_ok.
  - destruct st as [co d']. unfold wrapWord.
    case_if;
      exact Hst.
Qed.

Lemma updateDisplay_ok (d : display) :
  state_ok d -> state_ok (exec updateDisplay d).
Proof.
  intros (Hnone & Hbuf & _).
  pose proof (updateDisplay_clears d) as Hclear.
  unfold exec in *. rewrite updateDisplay_run in *. simpl in *.
  split; [exact Hnone|]. split; [exact Hbuf|].
  intros p cols x Hp. simpl in Hp. rewrite Hclear, lookup_empty in Hp.
  discriminate.
Qed.

(** Every state reached without clip predicate satisfies the invariant. *)
Lemma reachable_default_ok (d : display) : reachable_default d -> state_ok d.
Proof.
  induction 1 as [cfg Hnone Hc Hr| | | | | | | | |].
  - split; [exact Hnone|]. split.
    + apply construct_buffer_ok. simpl. nia.
    + intros p cols x Hp. simpl in Hp. rewrite lookup_empty in Hp.
      discriminate.
  - by apply clearBuffer_ok.
  - by apply setCursor_ok.
  - by apply drawPixels_ok.
  - by apply drawLine_ok.
  - by apply drawFillRect_ok.
  - by apply drawImage_ok.
  - by apply drawString_ok.
  - by destruct (sendBuffer_reads_only_state d) as [-> _].
  - by apply updateDisplay_ok.
Qed.

(** In such a state the bytes between the least and the greatest dirty
    column of a page lie inside the buffer. *)
Lemma dirty_span_in_buffer (d : display) (p : Z) (cols : gmap Z jsval) :
  state_ok d ->
  dirtyBytes d !! p = Some cols -> cols <> ∅ ->
  0 <= p * displayColumns (Config d) + minList (sortedKeys cols)
  /\ p * displayColumns (Config d) + maxList (sortedKeys cols)
     < Z.of_nat (length (buffer d)).
Proof.
  intros (_ & [Hlen _] & Hdirty) Hp Hcols.
  assert (Hne : sortedKeys cols <> []) by (by rewrite sortedKeys_nil).
  destruct (minList_spec _ Hne) as [Hmin _].
  destruct (maxList_spec _ Hne) as [Hmax _].
  apply list_elem_of_In, elem_of_sortedKeys in Hmin, Hmax.
  destruct (Hdirty p cols _ Hp Hmin) as (H1 & H2 & H3).
  destruct (Hdirty p cols _ Hp Hmax) as (H4 & _ & _).
  rewrite Hlen. nia.
Qed.

(** For a display without clip predicate the transfer of a dirty page needs
    no assumption on the dirty columns. *)
Lemma updateDisplay_page_transfer_default (d : display) (p off : Z)
    (cols : gmap Z jsval) :
  reachable_default d ->
  dirtyBytes d !! p = Some cols ->
  cols <> ∅ ->
  columnOffset (Config d) = Some off ->
  exists (l1 l2 : list Z) (bytes : list Z),
    sortedKeys (dirtyBytes d) = l1 ++ p :: l2
    /\ (p ∉ l1) /\ (p ∉ l2)
    /\ calls updateDisplay d
       = flat_map (pageCalls d) l1
         ++ [SendCommand (addressHeader p (minList (sortedKeys cols) + off));
             SendData bytes]
         ++ flat_map (pageCalls d) l2
    /\ Z.of_nat (length bytes)
       = maxList (sortedKeys cols) - minList (sortedKeys cols) + 1.
Proof.
  intros Hreach Hp Hcols Hoff.
  destruct (dirty_span_in_buffer d p cols (reachable_default_ok d Hreach)
              Hp Hcols) as [Hlo Hhi].
  destruct (updateDisplay_page_transfer d p off cols Hp Hcols Hoff Hlo Hhi)
    as (_ & l1 & l2 & bytes & H1 & H2 & H3 & H4 & _ & H5 & _).
  exists l1, l2, bytes. auto.
Qed.

(** The font image map used in the examples is the one [fontToImageMap]
    builds. *)
Lemma fontToImageMap_fontA : fontToImageMap fontA false = fimA.
Proof. reflexivity. Qed.

(** * Further properties of the code *)

(** ** The constructor *)

Lemma clearBuffer_construct (cfg : config) :
  clearBuffer (construct cfg) = construct cfg.
Proof.
  unfold clearBuffer, construct, set_buffer. simpl.
  by rewrite length_replicate.
Qed.

Lemma firstMissing_None (s : settings) :
  firstMissing s = None
  <-> is_Some (s_displayColumns s) /\ is_Some (s_displayRows s)
      /\ s_sendCommand s = true /\ s_sendData s = true
      /\ s_hardwareReset s = true.
Proof.
  unfold firstMissing.
  destruct (s_displayColumns s), (s_displayRows s), (s_sendCommand s),
    (s_sendData s), (s_hardwareReset s); simpl;
    (split; [try discriminate; intros _; eauto 10 |]);
    intros (H1 & H2 & H3 & H4 & H5);
    try reflexivity; try discriminate;
    try (destruct H1; discriminate); destruct H2; discriminate.
Qed.

(** X1. The constructor returns a display object exactly when the settings
    have the five required properties and [displayColumns * displayRows] is
    a size that [Buffer.alloc] accepts: not negative and not above the
    maximal buffer length of the runtime.  The object then has a zero-filled
    buffer of [displayColumns * displayRows] bytes, an empty dirty map, the
    cursor at (0, 0) and the defaults 1, 1, 0x3F and 0x12 for the missing
    optional numbers.  Without settings the error is 'Display settings
    required'; with a required property missing it names the first one
    missing; with all five present and a size out of range the error is the
    one of [Buffer.alloc]. *)
Theorem newDisplay_checks (kMaxLength : Z) :
  newDisplay kMaxLength None = inl DisplaySettingsRequired
  /\ (forall s d,
         newDisplay kMaxLength (Some s) = inr d
         <-> exists cols rows,
               s_displayColumns s = Some cols /\ s_displayRows s = Some rows
               /\ s_sendCommand s = true /\ s_sendData s = true
               /\ s_hardwareReset s = true
               /\ 0 <= cols * rows <= kMaxLength
               /\ d = construct (withDefaults s))
  /\ (forall s name,
         newDisplay kMaxLength (Some s) = inl (MissingRequiredProperty name)
         <-> firstMissing s = Some name)
  /\ (forall s,
         newDisplay kMaxLength (Some s) = inl BufferSizeOutOfRange
         <-> exists cols rows,
               s_displayColumns s = Some cols /\ s_displayRows s = Some rows
               /\ s_sendCommand s = true /\ s_sendData s = true
               /\ s_hardwareReset s = true
               /\ (cols * rows < 0 \/ kMaxLength < cols * rows))
  /\ (forall s d,
         newDisplay kMaxLength (Some s) = inr d ->
         buffer d
         = replicate (Z.to_nat (displayColumns (Config d)
                                * displayRows (Config d))) 0
         /\ buffer_ok d
         /\ dirtyBytes d = ∅ /\ cursorx d = 0 /\ cursory d = 0
         /\ lineSpacing (Config d) = default 1 (s_lineSpacing s)
         /\ letterSpacing (Config d) = default 1 (s_letterSpacing s)
         /\ multiplexRatio (Config d) = default 0x3F (s_multiplexRatio s)
         /\ commonPadConfig (Config d) = default 0x12 (s_commonPadConfig s)
         /\ columnOffset (Config d) = s_columnOffset s).
Proof.
  split; [reflexivity|].
  assert (Hok : forall s d,
             newDisplay kMaxLength (Some s) = inr d ->
             firstMissing s = None
             /\ 0 <= displayColumns (withDefaults s)
                     * displayRows (withDefaults s) <= kMaxLength
             /\ d = construct (withDefaults s)).
  { intros s d. unfold newDisplay.
    destruct (firstMissing s); [discriminate|]. cbv zeta.
    destruct (Z.ltb_spec (displayColumns (withDefaults s)
                          * displayRows (withDefaults s)) 0);
      [discriminate|].
    destruct (Z.ltb_spec kMaxLength
                (displayColumns (withDefaults s)
                 * displayRows (withDefaults s)));
      [discriminate|].
    cbn [orb]. rewrite clearBuffer_construct. intros Hd. inversion Hd. auto. }
  split; [|split; [|split]].
  - intros s d. split.
    + intros H. destruct (Hok s d H) as (Hm & Hsize & ->).
      apply firstMissing_None in Hm as ([cols Hc] & [rows Hr] & H1 & H2 & H3).
      exists cols, rows. simpl in Hsize. rewrite Hc, Hr in Hsize.
      repeat split; auto; apply Hsize.
    + intros (cols & rows & Hc & Hr & H1 & H2 & H3 & Hsize & ->).
      unfold newDisplay.
      replace (firstMissing s) with (@None string)
        by (symmetry; apply firstMissing_None; rewrite Hc, Hr; eauto 10).
      simpl. rewrite Hc, Hr. simpl.
      destruct (Z.ltb_spec (cols * rows) 0); [lia|].
      destruct (Z.ltb_spec kMaxLength (cols * rows)); [lia|].
      cbn [orb]. by rewrite clearBuffer_construct.
  - intros s name. unfold newDisplay.
    destruct (firstMissing s) as [n|].
    + split; intros H; inversion H; reflexivity.
    + split; [|discriminate]. cbv zeta.
      destruct (_ || _); discriminate.
  - intros s. unfold newDisplay.
    destruct (firstMissing s) as [n|] eqn:Hm.
    + split; [discriminate|].
      intros (cols & rows & Hc & Hr & H1 & H2 & H3 & _).
      assert (Hnone : firstMissing s = None)
        by (apply firstMissing_None; rewrite Hc, Hr; eauto 10).
      congruence.
    + apply firstMissing_None in Hm as ([cols Hc] & [rows Hr] & H1 & H2 & H3).
      simpl. rewrite Hc, Hr. simpl.
      destruct (Z.ltb_spec (cols * rows) 0);
        destruct (Z.ltb_spec kMaxLength (cols * rows)); cbn [orb].
      all: split;
        [ try discriminate; intros _; exists cols, rows;
          repeat split; auto; lia
        | intros (c' & r' & Hc' & Hr' & _ & _ & _ & Hsz);
          try reflexivity;
          assert (c' = cols) by congruence;
          assert (r' = rows) by congruence; subst; lia ].
  - intros s d H. destruct (Hok s d H) as (_ & Hsize & ->).
    split; [reflexivity|]. split; [apply construct_buffer_ok, Hsize|].
    repeat split.
Qed.

(** ** The display commands *)

(** X2. Whatever number is passed, [displayContrast] issues the one command
    [[0x81; b]] where [b] is the low eight bits of the number, a byte; the
    display object is left as it is. *)
Theorem displayContrast_sends_byte (c : Z) (d : display) :
  calls (displayContrast c) d = [SendCommand [0x81; c mod 256]]
  /\ 0 <= c mod 256 < 256
  /\ exec (displayContrast c) d = d.
Proof.
  unfold calls, exec, displayContrast, sendCommand. simpl.
  change 255 with (Z.ones 8). rewrite Z.land_ones by lia.
  split; [reflexivity|]. split; [|reflexivity].
  apply Z.mod_pos_bound. lia.
Qed.

Lemma bind_run {A B : Type} (m : io A) (k : A -> io B) (d : display) :
  (m ≫= k) d
  = (fst (fst (k (fst (fst (m d))) (snd (fst (m d))))),
     snd (fst (k (fst (fst (m d))) (snd (fst (m d))))),
     snd (m d) ++ snd (k (fst (fst (m d))) (snd (fst (m d))))).
Proof.
  unfold mbind, io_bind, bind.
  destruct (m d) as [[a d1] l1]. simpl.
  destruct (k a d1) as [[b d2] l2]. reflexivity.
Qed.

Lemma initTransport_run (d : display) :
  initTransport d
  = (tt, d,
     SendCommand [0xAE] :: SendCommand (getInitSequence d)
       :: calls sendBuffer d ++ [SendCommand [0xAF]]).
Proof.
  unfold initTransport. rewrite !bind_run. unfold calls.
  unfold displayOff, displayOn, sendCommand, this. simpl.
  rewrite sendBuffer_run. reflexivity.
Qed.

(** X3. [init] resets the hardware first, then switches the display off
    (0xAE), sends the 17 bytes of the init sequence in one command, pushes
    the whole buffer page by page as [sendBuffer] does, and switches the
    display on (0xAF) last; it makes [2 * ceil(displayRows / 8) + 4] calls
    and leaves the display object (buffer, dirty map, cursor) as it is. *)
Theorem init_sequence (d : display) :
  init d
  = (tt, d,
     [HardwareReset; Transport (SendCommand [0xAE]);
      Transport (SendCommand (getInitSequence d))]
       ++ map Transport (calls sendBuffer d)
       ++ [Transport (SendCommand [0xAF])])
  /\ length (getInitSequence d) = 17%nat
  /\ length (snd (init d))
     = (2 * Z.to_nat (ceil8 (displayRows (Config d))) + 4)%nat.
Proof.
  assert (H : init d
              = (tt, d,
                 [HardwareReset; Transport (SendCommand [0xAE]);
                  Transport (SendCommand (getInitSequence d))]
                   ++ map Transport (calls sendBuffer d)
                   ++ [Transport (SendCommand [0xAF])])).
  { unfold init. rewrite initTransport_run. simpl.
    rewrite map_app. reflexivity. }
  split; [exact H|]. split; [reflexivity|].
  rewrite H. simpl. rewrite length_app, length_map, sendBuffer_calls.
  rewrite (length_flat_map_const _ 2%nat) by (intros; reflexivity).
  rewrite length_zrange. simpl. lia.
Qed.

(** ** clearBuffer *)

Lemma buffer_slice_Forall (P : Z -> Prop) (buf : list Z) (a b : Z) :
  Forall P buf -> Forall P (buffer_slice buf a b).
Proof. intros H. unfold buffer_slice. by apply Forall_take, Forall_drop. Qed.

(** X4. [clearBuffer] sets every byte of the buffer to zero and keeps its
    length, and it touches neither the dirty map nor the cursor.  So the
    clear does not reach the device through [updateDisplay]: with an empty
    dirty map [updateDisplay] issues no call after it.  A [sendBuffer] after
    it transfers zero bytes only. *)
Theorem clearBuffer_is_not_marked_dirty (d : display) :
  Forall (fun b => b = 0) (buffer (clearBuffer d))
  /\ length (buffer (clearBuffer d)) = length (buffer d)
  /\ dirtyBytes (clearBuffer d) = dirtyBytes d
  /\ cursorx (clearBuffer d) = cursorx d
  /\ cursory (clearBuffer d) = cursory d
  /\ (dirtyBytes d = ∅ -> calls updateDisplay (clearBuffer d) = [])
  /\ (forall bytes,
         In (SendData bytes) (calls sendBuffer (clearBuffer d)) ->
         Forall (fun b => b = 0) bytes).
Proof.
  assert (Hz : Forall (fun b => b = 0) (buffer (clearBuffer d)))
    by (simpl; by apply Forall_replicate).
  split; [exact Hz|]. split; [simpl; apply length_replicate|].
  repeat split.
  - intros H. apply updateDisplay_idle. exact H.
  - intros bytes Hin. rewrite sendBuffer_calls in Hin.
    apply in_flat_map in Hin as (y & _ & Hin).
    unfold pageTransfer in Hin. destruct Hin as [Hin|[Hin|[]]];
      [discriminate|]. inversion Hin.
    by apply buffer_slice_Forall.
Qed.

(** ** What the two synchronisations transfer *)

Lemma payloads_pageTransfer (d : display) (l : list Z) :
  payloads (flat_map (pageTransfer d) l)
  = map (fun y => buffer_slice (buffer d) (y * displayColumns (Config d))
                    (y * displayColumns (Config d)
                     + displayColumns (Config d))) l.
Proof.
  induction l as [|y l IH]; [reflexivity|].
  cbn [flat_map map]. unfold payloads in *.
  rewrite flat_map_app, IH. reflexivity.
Qed.

Lemma concat_page_slices (buf : list Z) (cols : Z) (n : nat) :
  forall a : Z,
    0 <= cols -> 0 <= a ->
    (a + Z.of_nat n) * cols <= Z.of_nat (length buf) ->
    concat (map (fun y => buffer_slice buf (y * cols) (y * cols + cols))
                (zrange a n))
    = take (Z.to_nat (Z.of_nat n * cols)) (drop (Z.to_nat (a * cols)) buf).
Proof.
  induction n as [|n IH]; intros a Hc Ha Hlen.
  - reflexivity.
  - rewrite zrange_cons. cbn [map concat].
    rewrite IH by lia.
    destruct (buffer_slice_in buf (a * cols) (a * cols + cols)) as [-> _];
      [nia | nia |].
    replace (a * cols + cols - a * cols) with cols by lia.
    replace (Z.to_nat ((a + 1) * cols))
      with (Z.to_nat (a * cols) + Z.to_nat cols)%nat by nia.
    rewrite <- drop_drop, take_take_drop. f_equal. nia.
Qed.

(** X5. [sendBuffer] makes two calls per page, [sendCommand] then
    [sendData], and the data of the pages, put end to end, are the first
    [displayColumns * ceil(displayRows / 8)] bytes of the buffer, in buffer
    order: the rest of the [displayColumns * displayRows] bytes allocated is
    never transferred. *)
Theorem sendBuffer_transfers_prefix (d : display) :
  buffer_ok d ->
  0 <= displayColumns (Config d) ->
  0 <= displayRows (Config d) ->
  concat (payloads (calls sendBuffer d))
  = take (Z.to_nat (displayColumns (Config d)
                    * ceil8 (displayRows (Config d))))
         (buffer d)
  /\ length (calls sendBuffer d)
     = (2 * Z.to_nat (ceil8 (displayRows (Config d))))%nat
  /\ length (payloads (calls sendBuffer d))
     = Z.to_nat (ceil8 (displayRows (Config d))).
Proof.
  intros [Hlen _] Hc Hr.
  pose proof (ceil8_le _ Hr) as Hceil.
  rewrite sendBuffer_calls, payloads_pageTransfer.
  split; [|split].
  - rewrite concat_page_slices by (rewrite ?Z2Nat.id; nia).
    simpl drop. f_equal. rewrite Z2Nat.id by lia. lia.
  - rewrite (length_flat_map_const _ 2%nat) by (intros; reflexivity).
    by rewrite length_zrange.
  - by rewrite length_map, length_zrange.
Qed.

Lemma sendBuffer_transfers_prefix_witness :
  concat (payloads (calls sendBuffer dirty259))
  = take (Z.to_nat (16 * ceil8 16)) (buffer dirty259)
  /\ length (calls sendBuffer dirty259) = (2 * Z.to_nat (ceil8 16))%nat
  /\ length (payloads (calls sendBuffer dirty259)) = Z.to_nat (ceil8 16).
Proof.
  apply (sendBuffer_transfers_prefix dirty259).
  - apply drawPixels_ok. apply reachable_default_ok.
    apply default_construct; [reflexivity | simpl; lia | simpl; lia].
  - simpl. lia.
  - simpl. lia.
Defined.

Lemma updateDisplay_frame (d : display) :
  Config (exec updateDisplay d) = Config d
  /\ buffer (exec updateDisplay d) = buffer d
  /\ cursorx (exec updateDisplay d) = cursorx d
  /\ cursory (exec updateDisplay d) = cursory d.
Proof. unfold exec. rewrite updateDisplay_run. repeat split. Qed.

(** X6. [updateDisplay] empties the dirty map and changes nothing else of
    the display object, so a second [updateDisplay] right after the first
    issues no transport call and changes nothing; the first one makes at
    most two calls per dirty page. *)
Theorem updateDisplay_twice (d : display) :
  dirtyBytes (exec updateDisplay d) = ∅
  /\ buffer (exec updateDisplay d) = buffer d
  /\ cursorx (exec updateDisplay d) = cursorx d
  /\ cursory (exec updateDisplay d) = cursory d
  /\ Config (exec updateDisplay d) = Config d
  /\ calls updateDisplay (exec updateDisplay d) = []
  /\ exec updateDisplay (exec updateDisplay d) = exec updateDisplay d
  /\ (length (calls updateDisplay d) <= 2 * size (dirtyBytes d))%nat.
Proof.
  destruct (updateDisplay_frame d) as (Hc & Hb & Hx & Hy).
  pose proof (updateDisplay_clears d) as Hclear.
  destruct (updateDisplay_idle _ Hclear) as [Hcalls Hexec].
  repeat split; try assumption.
  rewrite updateDisplay_calls.
  assert (Hlen : forall l, (length (flat_map (pageCalls d) l)
                            <= 2 * length l)%nat).
  { induction l as [|p l IH]; simpl; [lia|].
    rewrite length_app. unfold pageCalls at 1.
    destruct (bool_decide _); simpl; lia. }
  etransitivity; [apply Hlen|].
  unfold sortedKeys. rewrite merge_sort_Permutation, length_fmap.
  by rewrite length_map_to_list.
Qed.

(** ** Every change of the buffer is recorded *)

Lemma changes_recorded_refl (d : display) : changes_recorded d d.
Proof.
  repeat split; auto. intros off b b' H1 H2 Hne. congruence.
Qed.

Lemma changes_recorded_trans (d1 d2 d3 : display) :
  changes_recorded d1 d2 -> changes_recorded d2 d3 -> changes_recorded d1 d3.
Proof.
  intros (Hc1 & Hl1 & Hm1 & Ht1) (Hc2 & Hl2 & Hm2 & Ht2).
  split; [congruence|]. split; [congruence|]. split; [auto|].
  intros off b b'' Hb Hb'' Hne.
  destruct (lookup_lt_is_Some_2 (buffer d2) off) as [b' Hb'].
  { rewrite Hl1. eapply lookup_lt_Some; eauto. }
  destruct (decide (b = b')) as [->|Hne'].
  - destruct (Ht2 off b' b'' Hb' Hb'' Hne) as (p & x & Hoff & Hrec).
    exists p, x. rewrite <- Hc1. auto.
  - destruct (Ht1 off b b' Hb Hb' Hne') as (p & x & Hoff & Hrec).
    exists p, x. auto.
Qed.

Lemma recorded_mark_dirty (page x : Z) (b : jsval) (d d' : display) :
  dirtyBytes d' = mark_dirty page x b (dirtyBytes d) ->
  recorded d' page x /\ forall p x', recorded d p x' -> recorded d' p x'.
Proof.
  intros Hd. unfold recorded. rewrite Hd. split.
  - rewrite mark_dirty_lookup. eauto.
  - intros p x' H.
    destruct (decide (p = page)) as [->|Hp].
    + destruct (decide (x' = x)) as [->|Hx].
      * rewrite mark_dirty_lookup. eauto.
      * rewrite mark_dirty_lookup_other_column by congruence. exact H.
    + rewrite mark_dirty_lookup_other_page by congruence. exact H.
Qed.

(** A store at the offset of [(page, x)] that records [(page, x)]. *)
Lemma store_recorded (d : display) (page x : Z) (b : jsval) :
  changes_recorded d
    {| Config := Config d;
       buffer := buffer_set (buffer d) (x + displayColumns (Config d) * page) b;
       dirtyBytes := mark_dirty page x b (dirtyBytes d);
       cursorx := cursorx d; cursory := cursory d |}.
Proof.
  set (d' := {| Config := Config d;
                buffer := buffer_set (buffer d)
                            (x + displayColumns (Config d) * page) b;
                dirtyBytes := mark_dirty page x b (dirtyBytes d);
                cursorx := cursorx d; cursory := cursory d |}).
  destruct (recorded_mark_dirty page x b d d' eq_refl) as [Hrec Hmono].
  split; [reflexivity|]. split; [apply buffer_set_length|].
  split; [exact Hmono|].
  intros off v v' Hv Hv' Hne. exists page, x. split; [|exact Hrec].
  simpl in Hv'. unfold buffer_set in Hv'.
  destruct (Z.ltb_spec (x + displayColumns (Config d) * page) 0);
    [congruence|].
  destruct (decide (off = Z.to_nat (x + displayColumns (Config d) * page)))
    as [->|Hoff]; [lia|].
  rewrite list_lookup_insert_ne in Hv' by congruence. congruence.
Qed.

Lemma drawPixel_recorded (d : display) (p : pixel) :
  changes_recorded d (drawPixel d p).
Proof.
  destruct p as [[x y] c]. unfold drawPixel.
  destruct (clipped d (Some x) (Some y)); [apply changes_recorded_refl|].
  case_neq; [apply store_recorded | apply changes_recorded_refl].
Qed.

Lemma drawPixels_recorded (ps : list pixel) (d : display) :
  changes_recorded d (drawPixels ps d).
Proof.
  unfold drawPixels.
  apply (fold_left_invariant (changes_recorded d));
    [|apply changes_recorded_refl].
  intros d' p H. eapply changes_recorded_trans; [exact H|].
  apply drawPixel_recorded.
Qed.

Lemma saveByte_recorded (d : display) (dxx : Z) (s : blit) :
  blit_tracked d dxx s -> changes_recorded d (saveByte dxx s).
Proof.
  intros (Hrec & _ & Hpage). unfold saveByte.
  destruct (js_strict_neq (dxxByte s) Null) eqn:Hnull; simpl; [|exact Hrec].
  case_neq; [|exact Hrec].
  destruct Hpage as [[Hn _]|(_ & _ & Hoff)];
    [rewrite Hn in Hnull; discriminate|].
  eapply changes_recorded_trans; [exact Hrec|].
  rewrite Hoff.
  replace (page s * displayColumns (Config (target s)) + dxx)
    with (dxx + displayColumns (Config (target s)) * page s) by lia.
  apply store_recorded.
Qed.

Lemma blit_tracked_ok (d : display) (dxx : Z) (s : blit) :
  blit_tracked d dxx s -> blit_ok s.
Proof.
  intros (_ & Hok & [H|(H1 & H2 & _)]); split; auto.
Qed.

Lemma blitPixel_tracked (d : display) (img : image) (x dxx y dyy : Z)
    (s : blit) :
  blit_tracked d dxx s ->
  0 <= dxx < displayColumns (Config (target s)) ->
  0 <= dyy < displayRows (Config (target s)) ->
  blit_tracked d dxx (blitPixel img x dxx y dyy s).
Proof.
  intros Hs Hdxx Hdyy.
  destruct (page_of_row _ _ Hdyy) as [Hp0 Hp1].
  pose proof (blit_tracked_ok _ _ _ Hs) as Hbok.
  assert (Hentered :
            exists s', blit_tracked d dxx s' /\ 0 <= page s'
                       /\ (if dyy / 8 >? page s then
                             {| page := dyy / 8;
                                dxxByte :=
                                  buffer_get (buffer (saveByte dxx s))
                                    (dyy / 8
                                     * displayColumns (Config (saveByte dxx s))
                                     + dxx);
                                bufferOffset :=
                                  dyy / 8
                                  * displayColumns (Config (saveByte dxx s))
                                  + dxx;
                                target := saveByte dxx s |}
                           else s) = s').
  { destruct (dyy / 8 >? page s) eqn:Hgt.
    - eexists. split; [|split; [|reflexivity]]; simpl; [|exact Hp0].
      split; [|split]; simpl.
      + by apply saveByte_recorded.
      + by apply saveByte_ok.
      + right. rewrite saveByte_Config. auto.
    - exists s. rewrite Z.gtb_ltb in Hgt. apply Z.ltb_ge in Hgt.
      split; [exact Hs|]. split; [|reflexivity].
      destruct Hs as (_ & _ & [[_ Hm]|(Hq0 & _)]); lia. }
  destruct Hentered as (s' & Hs' & Hq0 & Heq).
  unfold blitPixel. rewrite Heq.
  match goal with |- context [if ?b then s' else _] => destruct b end;
    [exact Hs'|].
  destruct Hs' as (H1 & H2 & [[_ Hm]|H3]); [lia|].
  split; [exact H1|]. split; [exact H2|]. right. exact H3.
Qed.

Lemma blitColumn_tracked (d : display) (dx dy : Z) (img : image) (s : blit)
    (x : Z) :
  changes_recorded d (target s) /\ state_ok (target s) /\ dxxByte s = Null ->
  changes_recorded d (target (blitColumn dx dy img s x))
  /\ state_ok (target (blitColumn dx dy img s x))
  /\ dxxByte (blitColumn dx dy img s x) = Null.
Proof.
  intros (Hrec & Hok & Hnull).
  destruct (blitColumn_ok dx dy img s x (conj Hok Hnull)) as [Hok' Hnull'].
  split; [|auto].
  unfold blitColumn in *.
  destruct (clipped (target s) (Some (dx + x)) None) eqn:Hclip; [exact Hrec|].
  destruct (unclipped_default _ _ _ (proj1 Hok) Hclip) as [Hx _].
  specialize (Hx _ eq_refl).
  unfold blitVisibleColumn. simpl.
  set (s0 := {| page := -1; dxxByte := dxxByte s;
                bufferOffset := bufferOffset s; target := target s |}).
  assert (H : blit_tracked d (dx + x)
                (fold_left (blitRow dy img x (dx + x))
                   (zrange 0 (Z.to_nat (img_height img))) s0)
              /\ Config (target (fold_left (blitRow dy img x (dx + x))
                                   (zrange 0 (Z.to_nat (img_height img))) s0))
                 = Config (target s)).
  { apply (fold_left_invariant
             (fun s' => blit_tracked d (dx + x) s'
                        /\ Config (target s') = Config (target s))).
    - intros s' y [Hs' Hc']. unfold blitRow.
      destruct (clipped (target s') None (Some (dy + y))) eqn:Hrow;
        [auto|].
      destruct (unclipped_default _ _ _ (proj1 (proj1 (proj2 Hs'))) Hrow)
        as [_ Hy].
      split; [apply blitPixel_tracked; auto; by rewrite Hc'|].
      by rewrite blitPixel_Config.
    - split; [|reflexivity]. split; [exact Hrec|]. split; [exact Hok|].
      left. auto. }
  destruct H as [Hb Hc]. by apply saveByte_recorded.
Qed.

Lemma drawImage_recorded (dx dy : Z) (img : image) (d : display) :
  state_ok d -> changes_recorded d (drawImage dx dy img d).
Proof.
  intros Hok. unfold drawImage.
  apply (fold_left_invariant
           (fun s => changes_recorded d (target s) /\ state_ok (target s)
                     /\ dxxByte s = Null)
           (blitColumn dx dy img)).
  - intros s x. apply blitColumn_tracked.
  - split; [apply changes_recorded_refl|]. split; [exact Hok | reflexivity].
Qed.

Lemma drawFillRect_recorded (x y w h : Z) (c : color) (d : display) :
  changes_recorded d (drawFillRect x y w h c d).
Proof. rewrite drawFillRect_rectPoints. apply drawPixels_recorded. Qed.

Lemma setCursor_recorded (d d' : display) (x y : Z) :
  changes_recorded d d' -> changes_recorded d (setCursor x y d').
Proof. intros H. exact H. Qed.

Lemma drawChar_recorded (d : display) (wrap : bool) (fim : fontIM)
    (st : Z * display) (ch : ascii) :
  changes_recorded d (snd st) /\ state_ok (snd st) ->
  changes_recorded d (snd (drawChar wrap fim st ch))
  /\ state_ok (snd (drawChar wrap fim st ch)).
Proof.
  intros [Hrec Hok]. split; [|by apply drawChar_ok].
  destruct st as [co d']. simpl in *. unfold drawChar.
  destruct (Ascii.eqb ch newline); [exact Hrec|].
  destruct (glyphs fim !! ch) as [g|]; [|exact Hrec].
  pose proof (drawImage_recorded co (cursory d') g d' Hok) as H1.
  assert (H1' : changes_recorded d (drawImage co (cursory d') g d'))
    by (eapply changes_recorded_trans; eauto).
  match goal with
  | |- context [drawFillRect ?a ?b ?c ?e ?f (drawFillRect ?a' ?b' ?c' ?e' ?f' ?d'')] =>
      assert (H2 : changes_recorded d
                     (drawFillRect a b c e f
                        (drawFillRect a' b' c' e' f' d'')))
        by (eapply changes_recorded_trans;
            [eapply changes_recorded_trans;
             [exact H1' | apply drawFillRect_recorded]
            | apply drawFillRect_recorded])
  end.
  destruct (negb (img_channels g =? 2) && negb (img_channels g =? 4));
    case_if; assumption.
Qed.

Lemma drawString_recorded (str : string) (fim : fontIM) (wrap : bool)
    (d : display) :
  state_ok d -> changes_recorded d (drawString str fim wrap d).
Proof.
  intros Hok. unfold drawString.
  apply (fold_left_invariant
           (fun st : Z * display =>
              changes_recorded d (snd st) /\ state_ok (snd st)));
    [|split; [apply changes_recorded_refl | exact Hok]].
  intros st [wi word] Hst. unfold drawWord.
  apply (fold_left_invariant
           (fun st : Z * display =>
              changes_recorded d (snd st) /\ state_ok (snd st))).
  - intros st' ch. apply drawChar_recorded.
  - destruct st as [co d']. unfold wrapWord. case_if; exact Hst.
Qed.

(** X7. On a display without clip predicate no drawing operation loses a
    change: after [drawPixels], [drawLine], [drawFillRect], [drawImage] or
    [drawString] every byte of the buffer that differs from its value
    before the call lies at the offset [x + displayColumns * page] of a
    column [x] and page [page] that have an entry in the dirty map, and no
    earlier dirty entry has been removed. *)
Theorem drawing_records_every_change (d : display) :
  state_ok d ->
  (forall ps, changes_recorded d (drawPixels ps d))
  /\ (forall x0 y0 x1 y1 c, changes_recorded d (drawLine x0 y0 x1 y1 c d))
  /\ (forall x y w h c, changes_recorded d (drawFillRect x y w h c d))
  /\ (forall dx dy img, changes_recorded d (drawImage dx dy img d))
  /\ (forall str fim wrap, changes_recorded d (drawString str fim wrap d)).
Proof.
  intros Hok. split; [intros; apply drawPixels_recorded|].
  split; [intros; rewrite drawLine_linePoints; apply drawPixels_recorded|].
  split; [intros; apply drawFillRect_recorded|].
  split; [intros; by apply drawImage_recorded|].
  intros; by apply drawString_recorded.
Qed.

Lemma drawing_records_every_change_witness :
  (forall ps, changes_recorded (construct cfg16) (drawPixels ps (construct cfg16)))
  /\ (forall x0 y0 x1 y1 c,
         changes_recorded (construct cfg16)
           (drawLine x0 y0 x1 y1 c (construct cfg16)))
  /\ (forall x y w h c,
         changes_recorded (construct cfg16)
           (drawFillRect x y w h c (construct cfg16)))
  /\ (forall dx dy img,
         changes_recorded (construct cfg16)
           (drawImage dx dy img (construct cfg16)))
  /\ (forall str fim wrap,
         changes_recorded (construct cfg16)
           (drawString str fim wrap (construct cfg16))).
Proof.
  apply (drawing_records_every_change (construct cfg16)).
  apply reachable_default_ok.
  apply default_construct; [reflexivity | simpl; lia | simpl; lia].
Defined.

(** The transfer of the page of a recorded column contains the byte of that
    column. *)
Lemma pageCalls_recorded (d : display) (p x : Z) :
  state_ok d ->
  recorded d p x ->
  exists (cols : gmap Z jsval) (bytes : list Z) (b : Z),
    dirtyBytes d !! p = Some cols
    /\ is_Some (cols !! minList (sortedKeys cols))
    /\ (forall x', is_Some (cols !! x') -> minList (sortedKeys cols) <= x')
    /\ p ∈ sortedKeys (dirtyBytes d)
    /\ pageCalls d p
       = [SendCommand
            (addressHeader p (headerColumn d (minList (sortedKeys cols))));
          SendData bytes]
    /\ buffer d !! Z.to_nat (x + displayColumns (Config d) * p) = Some b
    /\ bytes !! Z.to_nat (x - minList (sortedKeys cols)) = Some b.
Proof.
  intros Hok Hrec. unfold recorded in Hrec.
  destruct (dirtyBytes d !! p) as [cols|] eqn:Hp; simpl in Hrec;
    [|by destruct Hrec].
  assert (Hcols : cols <> ∅).
  { intros ->. rewrite lookup_empty in Hrec. by destruct Hrec. }
  assert (Hne : sortedKeys cols <> []) by (by rewrite sortedKeys_nil).
  destruct (minList_spec _ Hne) as [Hmin_in Hmin].
  destruct (maxList_spec _ Hne) as [_ Hmax].
  assert (Hx : In x (sortedKeys cols))
    by (by apply list_elem_of_In, elem_of_sortedKeys).
  pose proof (Hmin x Hx) as Hminx. pose proof (Hmax x Hx) as Hmaxx.
  destruct (dirty_span_in_buffer d p cols Hok Hp Hcols) as [Hlo Hhi].
  set (minX := minList (sortedKeys cols)) in *.
  set (maxX := maxList (sortedKeys cols)) in *.
  destruct (buffer_slice_in (buffer d)
              (p * displayColumns (Config d) + minX)
              (p * displayColumns (Config d) + minX + (maxX - minX) + 1))
    as [Hs _]; [lia | lia |].
  destruct (lookup_lt_is_Some_2 (buffer d)
              (Z.to_nat (x + displayColumns (Config d) * p)))
    as [b Hb]; [lia|].
  exists cols,
    (buffer_slice (buffer d) (p * displayColumns (Config d) + minX)
       (p * displayColumns (Config d) + minX + (maxX - minX) + 1)), b.
  split; [reflexivity|].
  split; [apply elem_of_sortedKeys, list_elem_of_In, Hmin_in|].
  split.
  { intros x' Hx'. apply Hmin, list_elem_of_In, elem_of_sortedKeys, Hx'. }
  split; [apply elem_of_sortedKeys; eauto|].
  split; [|split; [exact Hb|]].
  - unfold pageCalls. rewrite Hp. cbn [default].
    rewrite bool_decide_eq_false_2 by exact Hne. fold minX maxX.
    rewrite addressHeader_int32. unfold headerColumn.
    by destruct (columnOffset (Config d)).
  - rewrite Hs, lookup_take_lt by lia. rewrite lookup_drop, <- Hb.
    f_equal. lia.
Qed.

Lemma pageCalls_in_order (d : display) (p : Z) :
  p ∈ sortedKeys (dirtyBytes d) ->
  exists l1 l2 : list call,
    calls updateDisplay d = l1 ++ pageCalls d p ++ l2.
Proof.
  intros Hin. apply list_elem_of_split in Hin as (k1 & k2 & Hsplit).
  exists (flat_map (pageCalls d) k1), (flat_map (pageCalls d) k2).
  rewrite updateDisplay_calls, Hsplit, flat_map_app. reflexivity.
Qed.

(** X8. On a display without clip predicate [updateDisplay] transfers the
    current byte of every column that has a dirty entry.  For the page of
    the entry it sends the address header and, right behind it, the data:
    the header is the one of the page for the least dirty column [minX] of
    the page, shifted by [columnOffset] (column 0 when no offset is
    configured), and the data hold the byte of column [x] at position
    [x - minX].  Hence every byte that drawing operations have changed since
    a state [d0] is transferred, at the position of its column behind the
    header of its page. *)
Theorem updateDisplay_sends_every_change (d : display) :
  state_ok d ->
  (forall p x,
      recorded d p x ->
      exists (cols : gmap Z jsval) (l1 l2 : list call) (bytes : list Z)
             (b : Z),
        dirtyBytes d !! p = Some cols
        /\ is_Some (cols !! minList (sortedKeys cols))
        /\ (forall x', is_Some (cols !! x') -> minList (sortedKeys cols) <= x')
        /\ calls updateDisplay d
           = l1
             ++ [SendCommand
                   (addressHeader p
                      (headerColumn d (minList (sortedKeys cols))));
                 SendData bytes]
             ++ l2
        /\ buffer d !! Z.to_nat (x + displayColumns (Config d) * p) = Some b
        /\ bytes !! Z.to_nat (x - minList (sortedKeys cols)) = Some b)
  /\ (forall d0 (off : nat) (b b' : Z),
         changes_recorded d0 d ->
         buffer d0 !! off = Some b -> buffer d !! off = Some b' -> b <> b' ->
         exists (p x : Z) (cols : gmap Z jsval) (l1 l2 : list call)
                (bytes : list Z),
           Z.of_nat off = x + displayColumns (Config d) * p
           /\ dirtyBytes d !! p = Some cols
           /\ calls updateDisplay d
              = l1
                ++ [SendCommand
                      (addressHeader p
                         (headerColumn d (minList (sortedKeys cols))));
                    SendData bytes]
                ++ l2
           /\ bytes !! Z.to_nat (x - minList (sortedKeys cols)) = Some b').
Proof.
  intros Hok.
  assert (Hsend : forall p x,
             recorded d p x ->
             exists (cols : gmap Z jsval) (l1 l2 : list call)
                    (bytes : list Z) (b : Z),
               dirtyBytes d !! p = Some cols
               /\ is_Some (cols !! minList (sortedKeys cols))
               /\ (forall x', is_Some (cols !! x') ->
                              minList (sortedKeys cols) <= x')
               /\ calls updateDisplay d
                  = l1
                    ++ [SendCommand
                          (addressHeader p
                             (headerColumn d (minList (sortedKeys cols))));
                        SendData bytes]
                    ++ l2
               /\ buffer d !! Z.to_nat (x + displayColumns (Config d) * p)
                  = Some b
               /\ bytes !! Z.to_nat (x - minList (sortedKeys cols)) = Some b).
  { intros p x Hrec.
    destruct (pageCalls_recorded d p x Hok Hrec)
      as (cols & bytes & b & Hp & Hmin & Hleast & Hin & Hcalls & Hb & Hbyte).
    destruct (pageCalls_in_order d p Hin) as (l1 & l2 & Hall).
    exists cols, l1, l2, bytes, b. rewrite Hall, Hcalls. auto 10. }
  split; [exact Hsend|].
  intros d0 off b b' (Hc & _ & _ & Htrack) Hb Hb' Hne.
  destruct (Htrack off b b' Hb Hb' Hne) as (p & x & Hoff & Hrec).
  destruct (Hsend p x Hrec)
    as (cols & l1 & l2 & bytes & b1 & Hp & _ & _ & Hcalls & Hb1 & Hbyte).
  exists p, x, cols, l1, l2, bytes.
  rewrite <- Hc in Hoff.
  split; [exact Hoff|]. split; [exact Hp|].
  split; [exact Hcalls|].
  rewrite Hbyte, <- Hb1, <- Hoff, Nat2Z.id. exact Hb'.
Qed.

Lemma updateDisplay_sends_every_change_witness :
  (recorded dirty259 0 5
   /\ calls updateDisplay dirty259
      = [SendCommand (addressHeader 0 (2 + 2));
         SendData [1; 0; 0; 1; 0; 0; 0; 1]])
  /\ (forall p x,
         recorded dirty259 p x ->
         exists (cols : gmap Z jsval) (l1 l2 : list call) (bytes : list Z)
                (b : Z),
           dirtyBytes dirty259 !! p = Some cols
           /\ is_Some (cols !! minList (sortedKeys cols))
           /\ (forall x', is_Some (cols !! x') ->
                          minList (sortedKeys cols) <= x')
           /\ calls updateDisplay dirty259
              = l1
                ++ [SendCommand
                      (addressHeader p
                         (headerColumn dirty259 (minList (sortedKeys cols))));
                    SendData bytes]
                ++ l2
           /\ buffer dirty259
                !! Z.to_nat (x + displayColumns (Config dirty259) * p)
              = Some b
           /\ bytes !! Z.to_nat (x - minList (sortedKeys cols)) = Some b)
  /\ (forall d0 (off : nat) (b b' : Z),
         changes_recorded d0 dirty259 ->
         buffer d0 !! off = Some b -> buffer dirty259 !! off = Some b' ->
         b <> b' ->
         exists (p x : Z) (cols : gmap Z jsval) (l1 l2 : list call)
                (bytes : list Z),
           Z.of_nat off = x + displayColumns (Config dirty259) * p
           /\ dirtyBytes dirty259 !! p = Some cols
           /\ calls updateDisplay dirty259
              = l1
                ++ [SendCommand
                      (addressHeader p
                         (headerColumn dirty259
                            (minList (sortedKeys cols))));
                    SendData bytes]
                ++ l2
           /\ bytes !! Z.to_nat (x - minList (sortedKeys cols)) = Some b').
Proof.
  split; [split; [by exists (Num 1) | reflexivity]|].
  apply (updateDisplay_sends_every_change dirty259).
  apply drawPixels_ok. apply reachable_default_ok.
  apply default_construct; [reflexivity | simpl; lia | simpl; lia].
Defined.

(** ** drawPixels, pixel by pixel *)

(** The byte that an unclipped pixel inside the geometry leaves in the
    buffer. *)
Lemma drawPixel_byte (d : display) (x y : Z) (c : color) :
  buffer_ok d ->
  0 <= x < displayColumns (Config d) ->
  0 <= y < displayRows (Config d) ->
  clipped d (Some x) (Some y) = false ->
  exists old new : Z,
    buffer d !! Z.to_nat (x + displayColumns (Config d) * (y / 8)) = Some old
    /\ buffer (drawPixel d (x, y, c))
       = <[Z.to_nat (x + displayColumns (Config d) * (y / 8)) := new]>
           (buffer d)
    /\ forall i, 0 <= i ->
         Z.testbit new i
         = if i =? y mod 8
           then if is_on c then true
                else if is_off c then false else Z.testbit old i
           else Z.testbit old i.
Proof.
  intros Hok Hx Hy Hclip.
  pose proof (pixel_offset_in d x y Hok Hx Hy) as Hoff.
  destruct (buffer_get_in (buffer d) _ Hoff) as (old & Hold & _).
  assert (Hbyte : 0 <= old < 256).
  { destruct Hok as [_ Hall]. rewrite Forall_lookup in Hall. eauto. }
  set (m := Z.shiftl 1 (y - 8 * (y / 8))).
  set (new := if is_on c then Z.lor old m
              else if is_off c then Z.land old (Z.lnot m) else old).
  assert (Hnew : 0 <= new < 256).
  { unfold new, m. destruct (is_on c); [by apply set_bit_byte|].
    destruct (is_off c); [by apply clear_bit_byte | exact Hbyte]. }
  exists old, new. split; [exact Hold|]. split.
  - rewrite (drawPixel_store d x y c old new); try assumption; [reflexivity | lia |].
    unfold new. fold m. destruct (is_on c) eqn:Hon.
    + by rewrite (on_off_exclusive c Hon).
    + by destruct (is_off c).
  - intros i Hi. unfold new, m. destruct (is_on c).
    + rewrite Z.lor_spec, pixelByte_bits by lia.
      destruct (i =? y mod 8); [apply orb_true_r | apply orb_false_r].
    + destruct (is_off c).
      * rewrite Z.land_spec, Z.lnot_spec, pixelByte_bits by lia.
        destruct (i =? y mod 8); [apply andb_false_r | apply andb_true_r].
      * by destruct (i =? y mod 8).
Qed.

(** Two pixels inside the geometry share a byte and a bit only when they
    are the same pixel. *)
Lemma pixel_address_inj (cols x y x' y' : Z) :
  0 <= x < cols -> 0 <= x' < cols ->
  x + cols * (y / 8) = x' + cols * (y' / 8) ->
  y mod 8 = y' mod 8 ->
  x = x' /\ y = y'.
Proof.
  intros Hx Hx' Hoff Hbit.
  assert (Hp : y / 8 = y' / 8) by nia.
  split; [nia|].
  rewrite (Z.div_mod y 8), (Z.div_mod y' 8) by lia. lia.
Qed.

Lemma drawPixel_pixelAt (d : display) (p : pixel) (x y : Z) :
  state_ok d ->
  0 <= x < displayColumns (Config d) ->
  0 <= y < displayRows (Config d) ->
  pixelAt (drawPixel d p) x y = paint d x y (pixelAt d x y) p.
Proof.
  intros Hok Hx Hy. destruct p as [[px py] c]. unfold paint. cbn [fst snd].
  destruct (visible d (px, py, c)) eqn:Hvis; cbn [andb];
    [|by rewrite drawPixel_clipped].
  assert (Hclip : clipped d (Some px) (Some py) = false).
  { unfold visible in Hvis. simpl in Hvis. by destruct (clipped _ _ _). }
  destruct (unclipped_default d _ _ (proj1 Hok) Hclip) as [Hpx Hpy].
  specialize (Hpx _ eq_refl). specialize (Hpy _ eq_refl).
  destruct Hok as (_ & Hbuf & _).
  destruct (drawPixel_byte d px py c Hbuf Hpx Hpy Hclip)
    as (old & new & Hold & Hnew & Hbits).
  pose proof (pixel_offset_in d px py Hbuf Hpx Hpy) as Hoff.
  pose proof (pixel_offset_in d x y Hbuf Hx Hy) as Hoff'.
  assert (Hbit : 0 <= y mod 8 < 8) by (apply Z.mod_pos_bound; lia).
  unfold pixelAt. rewrite drawPixel_Config, Hnew.
  unfold buffer_get.
  destruct (Z.ltb_spec (x + displayColumns (Config d) * (y / 8)) 0); [lia|].
  destruct (decide (x + displayColumns (Config d) * (y / 8)
                    = px + displayColumns (Config d) * (py / 8)))
    as [Heq|Hne].
  - rewrite Heq, list_lookup_insert_eq, Hold by lia. simpl.
    rewrite Hbits by lia.
    destruct (Z.eqb_spec (y mod 8) (py mod 8)) as [Hm|Hm].
    + destruct (pixel_address_inj _ _ _ _ _ Hx Hpx Heq Hm) as [-> ->].
      by rewrite !Z.eqb_refl.
    + replace ((px =? x) && (py =? y)) with false; [reflexivity|].
      symmetry. apply andb_false_iff. right. apply Z.eqb_neq. congruence.
  - rewrite list_lookup_insert_ne by lia.
    replace ((px =? x) && (py =? y)) with false; [reflexivity|].
    symmetry. apply andb_false_iff.
    destruct (Z.eqb_spec px x), (Z.eqb_spec py y); subst; auto.
    by contradict Hne.
Qed.

(** X9. On a display without clip predicate [drawPixels] works pixel by
    pixel: for every pixel [(x, y)] of the display, its state after the call
    is the state asked for by the last unclipped entry of the list with
    these coordinates and a colour that is on ('WHITE', a number above 0)
    or off ('BLACK', 0), and its state before the call when there is no
    such entry.  No entry changes the state of a pixel other than its
    own. *)
Theorem drawPixels_pixel_states (d : display) (ps : list pixel) (x y : Z) :
  state_ok d ->
  0 <= x < displayColumns (Config d) ->
  0 <= y < displayRows (Config d) ->
  pixelAt (drawPixels ps d) x y = fold_left (paint d x y) ps (pixelAt d x y)
  /\ ((forall p, In p ps -> (fst (fst p), snd (fst p)) <> (x, y)) ->
      pixelAt (drawPixels ps d) x y = pixelAt d x y).
Proof.
  intros Hok Hx Hy.
  assert (Hfold : forall ps d',
             state_ok d' -> Config d' = Config d ->
             pixelAt (drawPixels ps d') x y
             = fold_left (paint d x y) ps (pixelAt d' x y)).
  { clear ps. induction ps as [|p ps IH]; intros d' Hok' Hc; [reflexivity|].
    change (drawPixels (p :: ps) d') with (drawPixels ps (drawPixel d' p)).
    rewrite IH; [|by apply drawPixel_ok | by rewrite drawPixel_Config].
    simpl. rewrite drawPixel_pixelAt by (rewrite ?Hc; auto).
    unfold paint. by rewrite (visible_Config d d'). }
  split; [by apply Hfold|].
  intros Hnone. rewrite Hfold by auto.
  generalize (pixelAt d x y). induction ps as [|p ps IH]; intros b;
    [reflexivity|].
  simpl. rewrite IH by (intros q Hq; apply Hnone; by right).
  unfold paint.
  destruct (Z.eqb_spec (fst (fst p)) x), (Z.eqb_spec (snd (fst p)) y);
    rewrite ?andb_false_r; try reflexivity.
  exfalso. apply (Hnone p); [by left | congruence].
Qed.

Lemma drawPixels_pixel_states_witness :
  pixelAt (drawPixels [(3, 10, WHITE); (3, 10, BLACK); (4, 2, WHITE)]
             (construct cfg16)) 3 10
  = fold_left (paint (construct cfg16) 3 10)
      [(3, 10, WHITE); (3, 10, BLACK); (4, 2, WHITE)]
      (pixelAt (construct cfg16) 3 10)
  /\ ((forall p, In p [(3, 10, WHITE); (3, 10, BLACK); (4, 2, WHITE)] ->
                 (fst (fst p), snd (fst p)) <> (3, 10)) ->
      pixelAt (drawPixels [(3, 10, WHITE); (3, 10, BLACK); (4, 2, WHITE)]
                 (construct cfg16)) 3 10
      = pixelAt (construct cfg16) 3 10).
Proof.
  apply (drawPixels_pixel_states (construct cfg16)).
  - apply reachable_default_ok.
    apply default_construct; [reflexivity | simpl; lia | simpl; lia].
  - simpl. lia.
  - simpl. lia.
Defined.

(** ** Drawing a pixel again *)

Lemma mark_dirty_idem (page x : Z) (b : jsval) (m : gmap Z (gmap Z jsval)) :
  mark_dirty page x b (mark_dirty page x b m) = mark_dirty page x b m.
Proof.
  unfold mark_dirty. rewrite lookup_insert_eq. simpl.
  rewrite (insert_insert_eq m). f_equal. apply insert_insert_eq.
Qed.

Lemma mod256_bits (a i : Z) :
  0 <= i -> Z.testbit (a mod 256) i = (i <? 8) && Z.testbit a i.
Proof.
  intros Hi. change 256 with (2 ^ 8).
  destruct (Z.ltb_spec i 8).
  - by rewrite Z.mod_pow2_bits_low.
  - by rewrite Z.mod_pow2_bits_high by lia.
Qed.

Lemma set_bit_again (a y : Z) :
  Z.lor (Z.lor a (Z.shiftl 1 (y - 8 * (y / 8))) mod 256)
        (Z.shiftl 1 (y - 8 * (y / 8)))
  = Z.lor a (Z.shiftl 1 (y - 8 * (y / 8))) mod 256.
Proof.
  assert (0 <= y mod 8 < 8) by (apply Z.mod_pos_bound; lia).
  apply Z.bits_inj'. intros i Hi.
  rewrite Z.lor_spec, !mod256_bits, Z.lor_spec, pixelByte_bits by lia.
  destruct (Z.eqb_spec i (y mod 8)), (Z.ltb_spec i 8), (Z.testbit a i);
    simpl; try reflexivity; lia.
Qed.

Lemma clear_bit_again (a y : Z) :
  Z.land (Z.land a (Z.lnot (Z.shiftl 1 (y - 8 * (y / 8)))) mod 256)
         (Z.lnot (Z.shiftl 1 (y - 8 * (y / 8))))
  = Z.land a (Z.lnot (Z.shiftl 1 (y - 8 * (y / 8)))) mod 256.
Proof.
  apply Z.bits_inj'. intros i Hi.
  rewrite Z.land_spec, !mod256_bits, Z.land_spec, Z.lnot_spec,
    pixelByte_bits by lia.
  destruct (i =? y mod 8), (i <? 8), (Z.testbit a i); reflexivity.
Qed.

Lemma buffer_get_set (buf : list Z) (i : Z) (v : jsval) :
  (exists old, buffer_get buf i = Num old
               /\ buffer_get (buffer_set buf i v) i = Num (to_uint8 v))
  \/ (buffer_get buf i = Undefined /\ buffer_set buf i v = buf).
Proof.
  unfold buffer_get, buffer_set.
  destruct (Z.ltb_spec i 0); [right; auto|].
  destruct (buf !! Z.to_nat i) as [old|] eqn:E.
  - left. exists old. split; [reflexivity|].
    rewrite list_lookup_insert_eq; [reflexivity|].
    by eapply lookup_lt_Some.
  - right. split; [reflexivity|].
    apply list_insert_ge. by apply lookup_ge_None.
Qed.

(** X10. Drawing a pixel a second time changes nothing: whatever the
    display, the coordinates and the colour, [drawPixels] of the pixel on
    the display that [drawPixels] of the same pixel has left is that
    display - same buffer, same dirty map.  A pixel that already has the
    state asked for adds no dirty entry. *)
Theorem drawPixels_again (d : display) (p : pixel) :
  drawPixels [p] (drawPixels [p] d) = drawPixels [p] d.
Proof.
  unfold drawPixels. cbn [fold_left].
  destruct p as [[x y] c].
  destruct (clipped d (Some x) (Some y)) eqn:Hclip.
  { assert (H : drawPixel d (x, y, c) = d)
      by (unfold drawPixel; by rewrite Hclip).
    by rewrite !H. }
  set (m := Z.shiftl 1 (y - 8 * (y / 8))).
  set (off := x + displayColumns (Config d) * (y / 8)).
  set (paintByte := fun r : jsval =>
         if is_on c
         then js_or (if is_off c then js_and r (Z.lnot m) else r) m
         else if is_off c then js_and r (Z.lnot m) else r).
  assert (Hstep : forall d',
             Config d' = Config d ->
             drawPixel d' (x, y, c)
             = if js_strict_neq (buffer_get (buffer d') off)
                    (paintByte (buffer_get (buffer d') off))
               then {| Config := Config d';
                       buffer := buffer_set (buffer d') off
                                   (paintByte (buffer_get (buffer d') off));
                       dirtyBytes :=
                         mark_dirty (y / 8) x
                           (paintByte (buffer_get (buffer d') off))
                           (dirtyBytes d');
                       cursorx := cursorx d'; cursory := cursory d' |}
               else d').
  { intros d' Hc. unfold drawPixel.
    rewrite (clipped_Config d d') by exact Hc. rewrite Hclip, Hc.
    reflexivity. }
  rewrite (Hstep d eq_refl).
  destruct (js_strict_neq (buffer_get (buffer d) off)
              (paintByte (buffer_get (buffer d) off))) eqn:Hneq.
  2: { rewrite (Hstep d eq_refl), Hneq. reflexivity. }
  rewrite Hstep by reflexivity. cbn [buffer dirtyBytes Config cursorx cursory].
  destruct (buffer_get_set (buffer d) off
              (paintByte (buffer_get (buffer d) off)))
    as [(old & Hold & Hnew)|[Hundef Hsame]].
  - rewrite Hnew, Hold.
    assert (Hfix : paintByte (Num (to_uint8 (paintByte (Num old))))
                   = Num (to_uint8 (paintByte (Num old)))).
    { unfold paintByte, to_uint8, js_or, js_and. cbn [to_int32].
      destruct (is_on c) eqn:Hon.
      - rewrite (on_off_exclusive c Hon). cbn [to_int32].
        f_equal. apply set_bit_again.
      - destruct (is_off c); cbn [to_int32]; [|reflexivity].
        f_equal. apply clear_bit_again. }
    rewrite Hfix. unfold js_strict_neq.
    rewrite bool_decide_eq_true_2 by reflexivity. reflexivity.
  - rewrite !Hsame, Hneq, mark_dirty_idem. reflexivity.
Qed.

(** ** The shape of a line *)

Section LineShape.
Variables (x1 y1 dx dy sx sy : Z) (c : color).
Hypothesis Hsx : sx = 1 \/ sx = -1.
Hypothesis Hsy : sy = 1 \/ sy = -1.



End LineShape.





(** ** The pixels of a filled rectangle *)

Lemma drawPixels_paint (d : display) (x y : Z) (ps : list pixel) :
  forall d',
    state_ok d' -> Config d' = Config d ->
    0 <= x < displayColumns (Config d) ->
    0 <= y < displayRows (Config d) ->
    pixelAt (drawPixels ps d') x y
    = fold_left (paint d x y) ps (pixelAt d' x y).
Proof.
  induction ps as [|p ps IH]; intros d' Hok' Hc Hx Hy; [reflexivity|].
  change (drawPixels (p :: ps) d') with (drawPixels ps (drawPixel d' p)).
  rewrite IH; auto; [|by apply drawPixel_ok | by rewrite drawPixel_Config].
  simpl. rewrite drawPixel_pixelAt by (rewrite ?Hc; auto).
  unfold paint. by rewrite (visible_Config d d').
Qed.







(** ** drawImage against drawPixels *)

Lemma page_offset_in (r : display) (pg dxx : Z) :
  buffer_ok r ->
  0 <= dxx < displayColumns (Config r) ->
  0 <= pg -> 8 * pg < displayRows (Config r) ->
  0 <= pg * displayColumns (Config r) + dxx < Z.of_nat (length (buffer r)).
Proof. intros [Hlen _] Hx Hp0 Hp1. rewrite Hlen. nia. Qed.

(** Saving the working byte makes the buffers equal. *)
Lemma saveByte_sim (r : display) (dxx dy ynext : Z) (s : blit) :
  blit_sim r dxx dy ynext s ->
  buffer_ok r ->
  0 <= dxx < displayColumns (Config r) ->
  buffer (saveByte dxx s) = buffer r /\ Config (saveByte dxx s) = Config r.
Proof.
  intros [Hc Hs] Hok Hdxx. split; [|by rewrite saveByte_Config].
  unfold saveByte.
  destruct Hs as [(_ & Hnull & Hbuf)|(b & Hp0 & Hp1 & _ & Hoff & Hbyte & Hb & Hbuf)].
  - rewrite Hnull. simpl. exact Hbuf.
  - pose proof (page_offset_in r _ _ Hok Hdxx Hp0 Hp1) as Hin.
    rewrite <- Hoff in Hin.
    assert (Hlen : length (buffer (target s)) = length (buffer r))
      by (by rewrite Hbuf, length_insert).
    rewrite <- Hlen in Hin.
    destruct (buffer_get_in (buffer (target s)) _ Hin) as (old & Hold & Hget).
    rewrite Hbyte, Hget, js_strict_neq_num.
    change (js_strict_neq (Num b) Null) with true. cbn [andb].
    destruct (decide (b = old)) as [->|Hne].
    + rewrite bool_decide_eq_true_2 by reflexivity. simpl.
      rewrite Hbuf. by rewrite list_insert_id.
    + rewrite bool_decide_eq_false_2 by exact Hne. simpl.
      rewrite buffer_set_in by lia. by rewrite Hbuf.
Qed.

(** Entering the page of an unclipped row: the working byte is then the
    byte that [r] has for that page. *)
Lemma enter_page_sim (r : display) (dxx dy ynext dyy : Z) (s : blit) :
  blit_sim r dxx dy ynext s ->
  buffer_ok r ->
  0 <= dxx < displayColumns (Config r) ->
  0 <= dyy < displayRows (Config r) ->
  dy + ynext <= dyy ->
  exists (s1 : blit) (b : Z),
    (if dyy / 8 >? page s then
       {| page := dyy / 8;
          dxxByte := buffer_get (buffer (saveByte dxx s))
                       (dyy / 8 * displayColumns (Config (saveByte dxx s))
                        + dxx);
          bufferOffset := dyy / 8 * displayColumns (Config (saveByte dxx s))
                          + dxx;
          target := saveByte dxx s |}
     else s) = s1
    /\ Config (target s1) = Config r
    /\ page s1 = dyy / 8
    /\ bufferOffset s1 = dyy / 8 * displayColumns (Config r) + dxx
    /\ dxxByte s1 = Num b
    /\ 0 <= b < 256
    /\ buffer r = <[Z.to_nat (bufferOffset s1) := b]> (buffer (target s1)).
Proof.
  intros Hs Hok Hdxx Hdyy Hnext.
  destruct (page_of_row _ _ Hdyy) as [Hp0 Hp1].
  destruct (dyy / 8 >? page s) eqn:Hgt.
  - destruct (saveByte_sim r dxx dy ynext s Hs Hok Hdxx) as [Hbuf Hcfg].
    pose proof (page_offset_in r _ _ Hok Hdxx Hp0 Hp1) as Hin.
    destruct (buffer_get_in (buffer r) _ Hin) as (b & Hb & Hget).
    eexists. exists b. split; [reflexivity|]. cbn [page dxxByte bufferOffset target].
    rewrite Hcfg, Hbuf, Hget.
    repeat split; auto.
    + destruct Hok as [_ Hall]. rewrite Forall_lookup in Hall.
      apply (Hall _ _ Hb).
    + destruct Hok as [_ Hall]. rewrite Forall_lookup in Hall.
      apply (Hall _ _ Hb).
    + by rewrite list_insert_id.
  - rewrite Z.gtb_ltb in Hgt. apply Z.ltb_ge in Hgt.
    destruct Hs as [Hc [(Hm & _)|(b & Hq0 & Hq1 & Hle & Hoff & Hbyte & Hb & Hbuf)]];
      [lia|].
    assert (Hpage : page s = dyy / 8).
    { assert (page s <= dyy / 8) by (apply Z.div_le_lower_bound; lia). lia. }
    exists s, b. rewrite <- Hpage. repeat split; auto; lia.
Qed.

Lemma drawPixel_sim (r : display) (dxx dyy b new : Z) (c : color)
    (buf : list Z) :
  buffer_ok r ->
  clippedMethod (Config r) = None ->
  0 <= dxx < displayColumns (Config r) ->
  0 <= dyy < displayRows (Config r) ->
  0 <= b < 256 ->
  buffer r
  = <[Z.to_nat (dyy / 8 * displayColumns (Config r) + dxx) := b]> buf ->
  (c = Level 1 /\ new = Z.lor b (Z.shiftl 1 (dyy - 8 * (dyy / 8)))
   \/ c = Level 0
      /\ new = Z.land b (Z.lnot (Z.shiftl 1 (dyy - 8 * (dyy / 8))))) ->
  0 <= new < 256
  /\ buffer (drawPixel r (dxx, dyy, c))
     = <[Z.to_nat (dyy / 8 * displayColumns (Config r) + dxx) := new]> buf.
Proof.
  intros Hok Hnone Hdxx Hdyy Hb Hbuf Hc.
  pose proof (pixel_offset_in r dxx dyy Hok Hdxx Hdyy) as Hin.
  replace (dyy / 8 * displayColumns (Config r) + dxx)
    with (dxx + displayColumns (Config r) * (dyy / 8)) in * by lia.
  assert (Hold : buffer r
                 !! Z.to_nat (dxx + displayColumns (Config r) * (dyy / 8))
                 = Some b).
  { rewrite Hbuf. apply list_lookup_insert_eq.
    rewrite Hbuf, length_insert in Hin. lia. }
  assert (Hnew : 0 <= new < 256).
  { destruct Hc as [[_ ->]|[_ ->]];
      [by apply set_bit_byte | by apply clear_bit_byte]. }
  split; [exact Hnew|].
  assert (Hclip : clipped r (Some dxx) (Some dyy) = false).
  { destruct (clipped r (Some dxx) (Some dyy)) eqn:E; [|reflexivity].
    apply (clipped_default r dxx dyy Hnone) in E. unfold outside in E. lia. }
  rewrite (drawPixel_store r dxx dyy c b new Hclip); try assumption; [|lia|].
  - simpl. rewrite Hbuf. apply list_insert_insert_eq.
  - destruct Hc as [[-> ->]|[-> ->]]; reflexivity.
Qed.

Lemma clipped_row_default (r : display) (x y : Z) :
  clippedMethod (Config r) = None ->
  clipped r None (Some y) = true -> clipped r (Some x) (Some y) = true.
Proof.
  intros Hnone. unfold clipped. rewrite Hnone. intros H.
  destruct ((x <? 0) || (x >=? displayColumns (Config r))); [reflexivity|].
  exact H.
Qed.

Lemma clipped_column_default (r : display) (x y : Z) :
  clippedMethod (Config r) = None ->
  clipped r (Some x) None = true -> clipped r (Some x) (Some y) = true.
Proof.
  intros Hnone. unfold clipped. rewrite Hnone.
  destruct ((x <? 0) || (x >=? displayColumns (Config r)));
    [reflexivity | discriminate].
Qed.

Lemma imagePixel_at (img : image) (dx dy x y : Z) (p : pixel) :
  In p (imagePixel img dx dy x y) ->
  fst (fst p) = dx + x /\ snd (fst p) = dy + y.
Proof.
  unfold imagePixel. case_if; [intros []|].
  intros [<-|[]]. auto.
Qed.

(** One row of one column: the loop of [drawImage] against [drawPixels] of
    the pixel of that row. *)
Lemma blitRow_sim (r : display) (img : image) (dx dy x y : Z) (s : blit) :
  blit_sim r (dx + x) dy y s ->
  state_ok r ->
  0 <= dx + x < displayColumns (Config r) ->
  blit_sim (drawPixels (imagePixel img dx dy x y) r) (dx + x) dy (y + 1)
    (blitRow dy img x (dx + x) s y)
  /\ state_ok (drawPixels (imagePixel img dx dy x y) r).
Proof.
  intros Hs Hok Hdxx.
  split; [|by apply drawPixels_ok].
  destruct Hok as (Hnone & Hbuf & _).
  pose proof Hs as [Hc Hs'].
  unfold blitRow. rewrite (clipped_Config r (target s)) by exact Hc.
  destruct (clipped r None (Some (dy + y))) eqn:Hclip.
  - rewrite drawPixels_all_clipped.
    + split; [exact Hc|].
      destruct Hs' as [H|(b & H1 & H2 & H3 & H4)]; [by left|].
      right. exists b. repeat split; try tauto; lia.
    + intros p Hp. apply imagePixel_at in Hp as [Hpx Hpy].
      unfold visible. rewrite Hpx, Hpy.
      by rewrite (clipped_row_default r _ _ Hnone Hclip).
  - destruct (unclipped_default r _ _ Hnone Hclip) as [_ Hy].
    specialize (Hy _ eq_refl).
    destruct (enter_page_sim r (dx + x) dy y (dy + y) s Hs Hbuf Hdxx Hy
                ltac:(lia))
      as (s1 & b & Heq & Hc1 & Hpage & Hoff & Hbyte & Hb & Hbuf1).
    unfold blitPixel, imagePixel. rewrite Heq.
    destruct (((img_channels img =? 2) || (img_channels img =? 4))
              && negb (js_truthy
                         (buffer_get (img_data img)
                            (img_width img * img_channels img * y
                             + img_channels img * x
                             + (img_channels img - 1))))).
    + change (drawPixels [] r) with r. split; [exact Hc1|].
      right. exists b.
      destruct (page_of_row _ _ Hy) as [Hp0 Hp1].
      pose proof (Z.div_mod (dy + y) 8 ltac:(lia)).
      pose proof (Z.mod_pos_bound (dy + y) 8 ltac:(lia)).
      rewrite Hpage. repeat split; auto; lia.
    + match goal with
      | |- context [drawPixels [(_, _, if ?C then _ else _)] r] =>
          set (color := C)
      end.
      set (new := if color
                  then Z.lor b (Z.shiftl 1 (dy + y - 8 * ((dy + y) / 8)))
                  else Z.land b (Z.lnot (Z.shiftl 1
                                           (dy + y - 8 * ((dy + y) / 8))))).
      rewrite Hoff in Hbuf1.
      destruct (drawPixel_sim r (dx + x) (dy + y) b new
                  (if color then Level 1 else Level 0)
                  (buffer (target s1)) Hbuf Hnone Hdxx Hy Hb Hbuf1)
        as [Hnew Hbuf'].
      { unfold new. destruct color; auto. }
      split; [cbn [target]; by rewrite drawPixels_Config|].
      right. exists new. cbn [page dxxByte bufferOffset target].
      rewrite drawPixels_Config.
      destruct (page_of_row _ _ Hy) as [Hp0 Hp1].
      pose proof (Z.div_mod (dy + y) 8 ltac:(lia)).
      pose proof (Z.mod_pos_bound (dy + y) 8 ltac:(lia)).
      rewrite Hpage, Hbyte, Hoff.
      split; [lia|]. split; [lia|]. split; [lia|]. split; [reflexivity|].
      split; [unfold new, js_or, js_and; by destruct color|].
      split; [exact Hnew|].
      exact Hbuf'.
Qed.

Lemma blitRows_sim (img : image) (dx dy x : Z) (n : nat) :
  forall (a : Z) (s : blit) (r : display),
    blit_sim r (dx + x) dy a s ->
    state_ok r ->
    0 <= dx + x < displayColumns (Config r) ->
    blit_sim (drawPixels (flat_map (imagePixel img dx dy x) (zrange a n)) r)
      (dx + x) dy (a + Z.of_nat n)
      (fold_left (blitRow dy img x (dx + x)) (zrange a n) s)
    /\ state_ok (drawPixels (flat_map (imagePixel img dx dy x) (zrange a n)) r).
Proof.
  induction n as [|n IH]; intros a s r Hs Hok Hdxx.
  - cbn [zrange flat_map fold_left]. change (drawPixels [] r) with r.
    change (Z.of_nat 0) with 0. rewrite Z.add_0_r. auto.
  - rewrite zrange_cons. cbn [flat_map fold_left].
    rewrite drawPixels_app.
    destruct (blitRow_sim r img dx dy x a s Hs Hok Hdxx) as [Hs1 Hok1].
    replace (a + Z.of_nat (S n)) with (a + 1 + Z.of_nat n) by lia.
    apply IH; auto. by rewrite drawPixels_Config.
Qed.

Lemma blitColumn_sim (img : image) (dx dy : Z) (s : blit) (r : display)
    (x : Z) :
  dxxByte s = Null ->
  buffer (target s) = buffer r ->
  Config (target s) = Config r ->
  state_ok r ->
  let r' := drawPixels
              (flat_map (imagePixel img dx dy x)
                 (zrange 0 (Z.to_nat (img_height img)))) r in
  dxxByte (blitColumn dx dy img s x) = Null
  /\ buffer (target (blitColumn dx dy img s x)) = buffer r'
  /\ Config (target (blitColumn dx dy img s x)) = Config r'
  /\ state_ok r'.
Proof.
  intros Hnull Hbuf Hc Hok r'.
  assert (Hok' : state_ok r') by (by apply drawPixels_ok).
  unfold blitColumn. rewrite (clipped_Config r (target s)) by exact Hc.
  destruct (clipped r (Some (dx + x)) None) eqn:Hclip.
  - unfold r'. rewrite drawPixels_all_clipped; [auto|].
    intros p Hp. apply in_flat_map in Hp as (y & _ & Hp).
    apply imagePixel_at in Hp as [Hpx Hpy]. unfold visible.
    rewrite Hpx. by rewrite (clipped_column_default r _ _ (proj1 Hok) Hclip).
  - destruct (unclipped_default r _ _ (proj1 Hok) Hclip) as [Hx _].
    specialize (Hx _ eq_refl).
    unfold blitVisibleColumn.
    set (s0 := {| page := -1; dxxByte := dxxByte s;
                  bufferOffset := bufferOffset s; target := target s |}).
    destruct (blitRows_sim img dx dy x (Z.to_nat (img_height img)) 0 s0 r)
      as [Hsim _]; auto.
    { split; [exact Hc|]. left. auto. }
    fold r' in Hsim.
    destruct (saveByte_sim r' (dx + x) dy _ _ Hsim (proj1 (proj2 Hok')))
      as [Hb' Hc'].
    { unfold r'. by rewrite drawPixels_Config. }
    cbn [dxxByte target]. auto.
Qed.

Lemma blitColumns_sim (img : image) (dx dy : Z) (l : list Z) :
  forall (s : blit) (r : display),
    dxxByte s = Null ->
    buffer (target s) = buffer r ->
    Config (target s) = Config r ->
    state_ok r ->
    buffer (target (fold_left (blitColumn dx dy img) l s))
    = buffer (drawPixels
                (flat_map (fun x =>
                     flat_map (imagePixel img dx dy x)
                       (zrange 0 (Z.to_nat (img_height img)))) l) r).
Proof.
  induction l as [|x l IH]; intros s r Hnull Hbuf Hc Hok; [exact Hbuf|].
  cbn [fold_left flat_map]. rewrite drawPixels_app.
  destruct (blitColumn_sim img dx dy s r x Hnull Hbuf Hc Hok)
    as (H1 & H2 & H3 & H4).
  by apply IH.
Qed.

(** X13. On a display without clip predicate [drawImage] leaves the buffer
    that [drawPixels] leaves when it is given the pixels of the image one
    by one, column by column: for each position of the image whose alpha
    sample (2 and 4 channels) is not zero, the pixel [(dx + x, dy + y)],
    on when the colour sample is truthy (for 3 and 4 channels, when one of
    the first three samples is) and off otherwise.  The batching of the
    writes by page changes no byte. *)
Theorem drawImage_draws_its_pixels (d : display) (dx dy : Z) (img : image) :
  state_ok d ->
  buffer (drawImage dx dy img d)
  = buffer (drawPixels (imagePixels img dx dy) d)
  /\ forall x y,
       0 <= x < displayColumns (Config d) ->
       0 <= y < displayRows (Config d) ->
       pixelAt (drawImage dx dy img d) x y
       = fold_left (paint d x y) (imagePixels img dx dy) (pixelAt d x y).
Proof.
  intros Hok.
  assert (Hbuf : buffer (drawImage dx dy img d)
                 = buffer (drawPixels (imagePixels img dx dy) d)).
  { unfold drawImage, imagePixels.
    by apply blitColumns_sim. }
  split; [exact Hbuf|].
  intros x y Hx Hy.
  rewrite <- (drawPixels_paint d x y) by auto.
  unfold pixelAt. by rewrite Hbuf, drawImage_Config, drawPixels_Config.
Qed.

Lemma drawImage_draws_its_pixels_witness :
  buffer (drawImage 3 5 (glyphImage fontA false 0) (construct cfg16))
  = buffer (drawPixels (imagePixels (glyphImage fontA false 0) 3 5)
              (construct cfg16)).
Proof.
  refine (proj1 (drawImage_draws_its_pixels (construct cfg16) 3 5
                   (glyphImage fontA false 0) _)).
  apply reachable_default_ok.
  apply default_construct; [reflexivity | simpl; lia | simpl; lia].
Defined.

(** ** drawString without word wrap *)

Lemma list_ascii_of_string_app (s t : string) :
  list_ascii_of_string (s ++ t)
  = list_ascii_of_string s ++ list_ascii_of_string t.
Proof. induction s as [|c s IH]; simpl; [reflexivity|]. by rewrite IH. Qed.

Lemma wrapWord_off (fim : fontIM) (wi : nat) (word : string)
    (st : Z * display) :
  wrapWord false fim wi word st = st.
Proof. by destruct st. Qed.

Lemma drawWords_chars (fim : fontIM) (ws : list string) :
  forall (k : nat) (st : Z * display),
    fold_left (drawWord false fim (k + length ws))
      (zip (seq k (length ws)) ws) st
    = fold_left (drawChar false fim)
        (flat_map list_ascii_of_string (spacedWords ws)) st.
Proof.
  induction ws as [|w ws IH]; intros k st; [reflexivity|].
  cbn [length seq zip zip_with fold_left].
  replace (k + S (length ws))%nat with (S k + length ws)%nat by lia.
  rewrite IH. unfold drawWord at 1. rewrite wrapWord_off.
  destruct ws as [|w' ws].
  - cbn [length spacedWords flat_map fold_left app].
    replace (k <? S k + 0 - 1)%nat with false
      by (symmetry; apply Nat.ltb_ge; lia).
    rewrite app_nil_r. reflexivity.
  - cbn [spacedWords flat_map]. rewrite fold_left_app.
    replace (k <? S k + length (w' :: ws) - 1)%nat with true
      by (symmetry; apply Nat.ltb_lt; simpl; lia).
    reflexivity.
Qed.

Lemma split_spaces_nonempty (s : string) : split_spaces s <> [].
Proof.
  destruct s as [|c s]; simpl; [discriminate|].
  destruct (Ascii.eqb c " "); [discriminate|].
  destruct (split_spaces s); discriminate.
Qed.

Lemma split_spaces_single (s w : string) : split_spaces s = [w] -> w = s.
Proof.
  revert w. induction s as [|c s IH]; intros w; simpl.
  - by intros [= <-].
  - destruct (Ascii.eqb c " ").
    + intros [= _ H]. by destruct (split_spaces_nonempty s).
    + destruct (split_spaces s) as [|w' ws] eqn:E.
      * by destruct (split_spaces_nonempty s).
      * intros [= <- ->]. by rewrite (IH w').
Qed.

Lemma spacedWords_split (s : string) :
  flat_map list_ascii_of_string (spacedWords (split_spaces s))
  = drawnChars s.
Proof.
  unfold drawnChars. induction s as [|c s IH]; [reflexivity|].
  cbn [split_spaces].
  destruct (split_spaces s) as [|w ws] eqn:E;
    [by destruct (split_spaces_nonempty s)|].
  destruct (Ascii.eqb_spec c " ") as [->|Hc].
  - cbn [spacedWords flat_map]. cbn [spacedWords] in IH. rewrite IH.
    destruct s; reflexivity.
  - destruct ws as [|w2 ws2].
    + apply split_spaces_single in E as ->.
      destruct s as [|c' s'].
      * simpl. apply Ascii.eqb_neq in Hc. by rewrite Hc.
      * cbn [spacedWords flat_map String.length Nat.eqb] in IH |- *.
        transitivity
          (c :: list_ascii_of_string
                  (String c' s'
                   ++ (if endsOpen (String c' s') then " " else ""))%string);
          [|reflexivity].
        rewrite <- IH. reflexivity.
    + destruct s as [|c' s']; [discriminate E|].
      transitivity
        (c :: list_ascii_of_string
                (String c' s'
                 ++ (if endsOpen (String c' s') then " " else ""))%string);
        [|reflexivity].
      rewrite <- IH. reflexivity.
Qed.

(** X14. Without word wrap [drawString] runs its character step over the
    characters of the string in order, starting at column [cursorx], and
    then over one more space when the string is empty or ends in a space:
    splitting at the spaces and putting the spaces back loses nothing, but
    an empty last word gets a space of its own. *)
Theorem drawString_without_wrap (str : string) (fim : fontIM)
    (d : display) :
  drawString str fim false d
  = snd (fold_left (drawChar false fim)
           (list_ascii_of_string str
            ++ (if endsOpen str then [" "%char] else []))
           (cursorx d, d)).
Proof.
  unfold drawString.
  rewrite (drawWords_chars fim (split_spaces str) 0).
  rewrite spacedWords_split. unfold drawnChars.
  rewrite list_ascii_of_string_app. by destruct (endsOpen str).
Qed.

(** ** The address header of updateDisplay *)

Lemma header_nibbles (a : Z) :
  0 <= a < 256 ->
  Z.lor Constants.SET_COL_ADDR_LB (Z.land (wrap32 a) 0x0F) = a mod 16
  /\ Z.lor Constants.SET_COL_ADDR_HB (Z.shiftr (Z.land (wrap32 a) 0xF0) 4)
     = Constants.SET_COL_ADDR_HB + a / 16.
Proof.
  intros Ha.
  pose proof (forallb_zrange
                (fun a => (Z.lor Constants.SET_COL_ADDR_LB
                             (Z.land (wrap32 a) 0x0F)
                           =? a mod 16)
                          && (Z.lor Constants.SET_COL_ADDR_HB
                                (Z.shiftr (Z.land (wrap32 a) 0xF0) 4)
                              =? Constants.SET_COL_ADDR_HB + a / 16))
                0 256 a ltac:(vm_compute; reflexivity) ltac:(lia)) as H.
  cbv beta in H. apply andb_true_iff in H as [H1 H2]. lia.
Qed.

Lemma header_page (p : Z) :
  0 <= p < 16 ->
  Z.lor Constants.SET_PAGE_ADDRESS (wrap32 p) = Constants.SET_PAGE_ADDRESS + p.
Proof.
  intros Hp.
  pose proof (forallb_zrange
                (fun p => Z.lor Constants.SET_PAGE_ADDRESS (wrap32 p)
                          =? Constants.SET_PAGE_ADDRESS + p)
                0 16 p ltac:(vm_compute; reflexivity) ltac:(lia)) as H.
  cbv beta in H. lia.
Qed.

(** X15. The address header that [updateDisplay] sends for a dirty page
    can be decoded: for a page below 16 and a column address
    [minX + columnOffset] below 256 the three command bytes are the page
    opcode plus the page, the low-nibble opcode plus [lo] and the
    high-nibble opcode plus [hi], with [16 * hi + lo] the column address;
    the data that follows starts at the buffer offset of column [minX] of
    that page. *)
Theorem updatePage_header_decodes (d : display) (p off : Z)
    (columns : list Z) :
  columnOffset (Config d) = Some off ->
  0 <= p < 16 ->
  0 <= minList columns + off < 256 ->
  exists lo hi : Z,
    calls (updatePage d p columns) d
    = [SendCommand [Constants.SET_PAGE_ADDRESS + p;
                    Constants.SET_COL_ADDR_LB + lo;
                    Constants.SET_COL_ADDR_HB + hi];
       SendData (buffer_slice (buffer d)
                   (p * displayColumns (Config d) + minList columns)
                   (p * displayColumns (Config d) + maxList columns + 1))]
    /\ 0 <= lo < 16 /\ 0 <= hi < 16
    /\ 16 * hi + lo = minList columns + off.
Proof.
  intros Hoff Hp Ha.
  exists ((minList columns + off) mod 16), ((minList columns + off) / 16).
  destruct (header_nibbles _ Ha) as [Hlo Hhi].
  pose proof (Z.div_mod (minList columns + off) 16 ltac:(lia)).
  pose proof (Z.mod_pos_bound (minList columns + off) 16 ltac:(lia)).
  split; [|lia].
  unfold calls, updatePage. rewrite Hoff.
  cbn [option_map].
  change (int32_of (Some (minList columns + off)))
    with (wrap32 (minList columns + off)).
  rewrite Hlo, Hhi, (header_page p Hp).
  cbv [mbind io_bind bind sendCommand sendData this snd app].
  change (Constants.SET_COL_ADDR_LB + (minList columns + off) mod 16)
    with ((minList columns + off) mod 16).
  replace (p * displayColumns (Config d) + minList columns
           + (maxList columns - minList columns) + 1)
    with (p * displayColumns (Config d) + maxList columns + 1) by lia.
  reflexivity.
Qed.

Lemma updatePage_header_decodes_witness :
  exists lo hi : Z,
    calls (updatePage (construct cfgNarrow) 3 [5; 9; 2]) (construct cfgNarrow)
    = [SendCommand [Constants.SET_PAGE_ADDRESS + 3;
                    Constants.SET_COL_ADDR_LB + lo;
                    Constants.SET_COL_ADDR_HB + hi];
       SendData (buffer_slice (buffer (construct cfgNarrow))
                   (3 * displayColumns (Config (construct cfgNarrow))
                    + minList [5; 9; 2])
                   (3 * displayColumns (Config (construct cfgNarrow))
                    + maxList [5; 9; 2] + 1))]
    /\ 0 <= lo < 16 /\ 0 <= hi < 16
    /\ 16 * hi + lo = minList [5; 9; 2] + 0x22.
Proof.
  apply (updatePage_header_decodes (construct cfgNarrow) 3 0x22 [5; 9; 2]).
  - reflexivity.
  - lia.
  - change (minList [5; 9; 2]) with 2. lia.
Defined.

(** ** The characters of a font image map *)

(** X16. The image map of a font has an image for exactly the characters of
    [font.lookup].  The image of a character is built from the index of its
    last occurrence in [lookup]: an earlier entry for the same character is
    overwritten. *)
Theorem fontToImageMap_characters (f : font) (transparent : bool) :
  (forall ch,
      is_Some (glyphs (fontToImageMap f transparent) !! ch)
      <-> ch ∈ lookup f)
  /\ (forall (i : nat) (ch : ascii),
         lookup f !! i = Some ch ->
         (forall j, (i < j)%nat -> lookup f !! j <> Some ch) ->
         glyphs (fontToImageMap f transparent) !! ch
         = Some (glyphImage f transparent (Z.of_nat i))).
Proof.
  assert (Hlast : forall (i : nat) (ch : ascii),
             lookup f !! i = Some ch ->
             (forall j, (i < j)%nat -> lookup f !! j <> Some ch) ->
             glyphs (fontToImageMap f transparent) !! ch
             = Some (glyphImage f transparent (Z.of_nat i))).
  { intros i ch Hi Hl. cbn [fontToImageMap glyphs].
    by rewrite (glyph_fold_last (glyphImage f transparent) (lookup f)
                  0 ∅ i ch Hi Hl). }
  split; [|exact Hlast].
  intros ch. split.
  - intros Hsome. destruct (decide (ch ∈ lookup f)) as [Hin|Hin]; [done|].
    cbn [fontToImageMap glyphs] in Hsome.
    rewrite (glyph_fold_other (glyphImage f transparent)) in Hsome
      by exact Hin.
    rewrite lookup_empty in Hsome. by destruct Hsome.
  - intros Hin. destruct (last_occurrence _ _ Hin) as (i & Hi & Hl).
    rewrite (Hlast i ch Hi Hl). eauto.
Qed.

(** ** The invariant of the display object *)

Lemma pageCalls_payload_size (d : display) (p : Z) (bytes : list Z) :
  state_ok d ->
  In (SendData bytes) (pageCalls d p) ->
  1 <= Z.of_nat (length bytes) <= displayColumns (Config d).
Proof.
  intros Hok Hin. unfold pageCalls in Hin.
  destruct (dirtyBytes d !! p) as [cols|] eqn:Hp; cbn [default from_option] in Hin.
  2: { unfold id in Hin. rewrite (proj2 (sortedKeys_nil ∅) eq_refl) in Hin.
       destruct Hin. }
  unfold id in Hin.
  destruct (bool_decide (sortedKeys cols = [])) eqn:Hnil; [destruct Hin|].
  apply bool_decide_eq_false in Hnil.
  assert (Hcols : cols <> ∅) by (by rewrite <- sortedKeys_nil).
  destruct Hin as [Hin|[Hin|[]]]; [discriminate|].
  injection Hin as <-.
  destruct (dirty_span_in_buffer d p cols Hok Hp Hcols) as [Hlo Hhi].
  destruct (minList_spec _ Hnil) as [Hmin Hleast].
  destruct (maxList_spec _ Hnil) as [Hmax _].
  pose proof (Hleast _ Hmax) as Hle.
  apply list_elem_of_In, elem_of_sortedKeys in Hmin, Hmax.
  destruct Hok as (_ & _ & Hdirty).
  destruct (Hdirty p cols _ Hp Hmin) as (Hmin0 & _).
  destruct (Hdirty p cols _ Hp Hmax) as (Hmax0 & _).
  destruct (buffer_slice_in (buffer d)
              (p * displayColumns (Config d) + minList (sortedKeys cols))
              (p * displayColumns (Config d) + minList (sortedKeys cols)
               + (maxList (sortedKeys cols) - minList (sortedKeys cols)) + 1))
    as [_ Hlen]; lia.
Qed.

(** X17. Every state that is reached from the constructor through
    [clearBuffer], [setCursor], the drawing methods, [sendBuffer] and
    [updateDisplay], with no clip predicate installed, keeps the buffer at
    its [displayColumns * displayRows] bytes, each of them a byte value,
    and has dirty entries only for columns and pages of the display.  So
    every data transfer of [updateDisplay] carries at least one and at
    most [displayColumns] bytes. *)
Theorem display_invariant (d : display) :
  reachable_default d ->
  Z.of_nat (length (buffer d))
  = displayColumns (Config d) * displayRows (Config d)
  /\ Forall (fun b => 0 <= b < 256) (buffer d)
  /\ (forall p x,
         recorded d p x ->
         0 <= x < displayColumns (Config d)
         /\ 0 <= p /\ 8 * p < displayRows (Config d))
  /\ (forall bytes,
         In (SendData bytes) (calls updateDisplay d) ->
         1 <= Z.of_nat (length bytes) <= displayColumns (Config d)).
Proof.
  intros Hreach. pose proof (reachable_default_ok d Hreach) as Hok.
  destruct Hok as (Hnone & [Hlen Hbytes] & Hdirty).
  split; [exact Hlen|]. split; [exact Hbytes|]. split.
  - intros p x [v Hv]. destruct (dirtyBytes d !! p) as [cols|] eqn:Hp;
      [|discriminate].
    apply (Hdirty p cols x Hp). by exists v.
  - intros bytes Hin. rewrite updateDisplay_calls in Hin.
    apply in_flat_map in Hin as (p & _ & Hin).
    apply (pageCalls_payload_size d p bytes); [|exact Hin].
    by apply reachable_default_ok.
Qed.

Lemma display_invariant_witness :
  Z.of_nat (length (buffer (drawPixels [(1, 1, WHITE)] (construct cfg16))))
  = 16 * 16
  /\ forall bytes,
       In (SendData bytes)
          (calls updateDisplay (drawPixels [(1, 1, WHITE)] (construct cfg16))) ->
       1 <= Z.of_nat (length bytes) <= 16.
Proof.
  destruct (display_invariant (drawPixels [(1, 1, WHITE)] (construct cfg16)))
    as (Hlen & _ & _ & Hsend).
  - apply default_drawPixels.
    apply default_construct; [reflexivity | simpl; lia | simpl; lia].
  - split; [exact Hlen | exact Hsend].
Defined.

(** ** The cursor of drawString under word wrap *)

Lemma nextLine_wrap_ok (cfg : config) (fim : fontIM) (d : display) :
  Config d = cfg -> wrap_ok cfg fim (0, nextLine fim d).
Proof. intros Hc. repeat split; auto. Qed.

Lemma drawChar_wrap_ok (cfg : config) (fim : fontIM) (st : Z * display)
    (ch : ascii) :
  wrap_ok cfg fim st -> wrap_ok cfg fim (drawChar true fim st ch).
Proof.
  destruct st as [co d]. intros Hst. pose proof Hst as (Hco & Hc & Hroom).
  cbn [fst snd] in Hco, Hc, Hroom. unfold drawChar.
  destruct (Ascii.eqb ch newline); [by apply nextLine_wrap_ok|].
  destruct (glyphs fim !! ch) as [g|]; [|exact Hst].
  cbn [andb].
  match goal with
  | |- context [if ?c then (0, nextLine fim ?d1) else _] =>
      assert (Hc1 : Config d1 = cfg);
      [|destruct c eqn:Hwrap; [by apply nextLine_wrap_ok|]]
  end.
  { destruct (negb (img_channels g =? 2) && negb (img_channels g =? 4));
      rewrite ?drawFillRect_Config, drawImage_Config; exact Hc. }
  rewrite Hc1 in Hwrap.
  repeat split; cbn [fst snd]; [exact Hc1|].
  right. rewrite Hc1. lia.
Qed.

Lemma wrapWord_wrap_ok (cfg : config) (fim : fontIM) (wi : nat)
    (word : string) (st : Z * display) :
  wrap_ok cfg fim st -> wrap_ok cfg fim (wrapWord true fim wi word st).
Proof.
  destruct st as [co d]. intros Hst. unfold wrapWord.
  case_if; [|exact Hst].
  apply nextLine_wrap_ok. apply Hst.
Qed.

(** X18. Under word wrap [drawString] keeps the cursor column where a
    glyph cell still fits: if the cursor column is 0 or lies more than
    [fontIM.width] columns before the right edge when [drawString] is
    called, then so it does when [drawString] returns, whatever the string;
    the configuration is not changed. *)
Theorem drawString_wrap_cursor (str : string) (fim : fontIM) (d : display) :
  cursorx d = 0 \/ cursorx d < displayColumns (Config d) - fim_width fim ->
  Config (drawString str fim true d) = Config d
  /\ (cursorx (drawString str fim true d) = 0
      \/ cursorx (drawString str fim true d)
         < displayColumns (Config d) - fim_width fim).
Proof.
  intros Hroom.
  assert (H : wrap_ok (Config d) fim
                (fold_left
                   (drawWord true fim (length (split_spaces str)))
                   (zip (seq 0 (length (split_spaces str)))
                      (split_spaces str))
                   (cursorx d, d))).
  { apply (fold_left_invariant (wrap_ok (Config d) fim));
      [|repeat split; auto].
    intros st [wi word] Hst. unfold drawWord.
    apply (fold_left_invariant (wrap_ok (Config d) fim)).
    - intros st' ch. apply drawChar_wrap_ok.
    - by apply wrapWord_wrap_ok. }
  destruct H as (Hco & Hc & Hr). unfold drawString.
  rewrite <- Hco. auto.
Qed.

Lemma drawString_wrap_cursor_witness :
  (cursorx (drawString "AAAAAA" fimA true (construct cfg16)) = 3
   /\ cursory (drawString "AAAAAA" fimA true (construct cfg16)) = 8
   /\ buffer (drawString "AAAAAA" fimA true (construct cfg16)) !! 12%nat
      = Some 0x41
   /\ buffer (drawString "AAAAAA" fimA true (construct cfg16)) !! 16%nat
      = Some 0x41)
  /\ Config (drawString "AAAAAA" fimA true (construct cfg16))
     = Config (construct cfg16)
  /\ (cursorx (drawString "AAAAAA" fimA true (construct cfg16)) = 0
      \/ cursorx (drawString "AAAAAA" fimA true (construct cfg16))
         < displayColumns (Config (construct cfg16)) - fim_width fimA).
Proof.
  split; [vm_compute; repeat split|].
  apply (drawString_wrap_cursor "AAAAAA" fimA (construct cfg16)).
  left. reflexivity.
Defined.
